(** * JNI bridge of AudioVolumeChangeHandler

    A shallow embedding of
    [services/core/jni/com_android_server_audio_AudioVolumeChangeHandler.cpp]:
    the native callback object [JNIAudioVolumeChangeHandler], the swap of the
    [mJniCallback] field under [gLock], and the two native methods
    [native_setup] and [native_finalize].

    The C++ code is stateful: it is embedded in a state-and-trace monad over a
    [world] that holds the native heap, the Java fields, the table of JNI
    global references and the registry of the audio event source.  Undefined
    behaviour of the C++ (null or dangling dereference, use of a member that
    was never assigned, ...) is a [Fault]. *)

From Stdlib Require Import ZArith Ascii.
From stdpp Require Import gmap strings list fin_maps.

Local Open Scope Z_scope.

(** ** Data *)

(** Native pointers, JNI references and Java object identities are machine
    integers; [NULL] is [0].  The [jlong] field [mJniCallback] stores a native
    pointer cast to a 64-bit integer, which keeps its value. *)
Definition NULL : Z := 0.

(** [status_t] of the audio event source; [NO_ERROR] is [OK], that is [0]. *)
Definition NO_ERROR : Z := 0.

(** The [id] argument of [RefBase::incStrong] and [RefBase::decStrong]: who
    takes or drops the reference.  [sp<>] passes itself, [setJniCallback]
    passes its own address, the event source holds an [sp<>] of its own. *)
Inductive refid := IdSp | IdSetJniCallback | IdAudioSystem.

(** The object [JNIAudioVolumeChangeHandler]: two members and the strong count
    inherited from [RefBase].  A member is [None] until the constructor has
    assigned it (the class declares no initialiser). *)
Record JNIAudioVolumeChangeHandler := mkHandler {
  mClass : option Z;
  mObject : option Z;
  mStrong : Z
}.

(** [jfieldID] and [jmethodID]: the member's name and its JNI signature. *)
Record jmember := mkMember { m_name : string; m_sig : string }.

#[global] Instance jmember_eq_dec : EqDecision jmember.
Proof. solve_decision. Defined.

Inductive jvalue := JInt (i : Z) | JObject (o : Z).

#[global] Instance jvalue_eq_dec : EqDecision jvalue.
Proof. solve_decision. Defined.

Inductive jtype := TInt | TLong | TObject.

Inductive log_priority := LOG_DEBUG | LOG_WARN | LOG_ERROR.

Inductive event :=
| EvLog (prio : log_priority) (msg : string)
| EvLock
| EvUnlock
| EvGetLongField (thiz : Z) (v : Z)
| EvSetLongField (thiz : Z) (v : Z)
| EvNew (p : Z)
| EvIncStrong (p : Z) (id : refid)
| EvDecStrong (p : Z) (id : refid)
| EvDestroy (p : Z)
| EvNewGlobalRef (h : Z) (o : Z)
| EvDeleteGlobalRef (h : Z)
| EvAddCallback (p : Z) (status : Z)
| EvRemoveCallback (p : Z)
| EvCallStaticVoidMethod (cls : Z) (name : string) (args : list jvalue)
| EvExceptionCheck (raised : bool)
| EvExceptionClear.

Inductive fault :=
| NullDeref        (* a call through a null JNIEnv or a null native pointer *)
| Dangling         (* a native pointer to no live object *)
| Uninitialised    (* a member or a static id that was never assigned *)
| BadReference     (* a JNI reference or a Java object that does not exist *)
| BadCall          (* arguments that do not match the method's signature *)
| PendingException (* a Java call made while an exception is pending *)
| BadCount         (* decStrong on a count that is not positive *)
| Deadlock         (* gLock taken twice *)
| Die.             (* one of the ...OrDie helpers aborted the process *)

Record world := mkWorld {
  heap : gmap Z JNIAudioVolumeChangeHandler;  (* live native objects *)
  jfields : gmap Z Z;        (* mJniCallback of each live Java handler *)
  globals : gmap Z Z;        (* JNI global reference -> Java object *)
  registry : gset Z;         (* callbacks held by the event source *)
  pending : bool;            (* a Java exception is pending *)
  thread_env : Z;            (* AndroidRuntime::getJNIEnv() on this thread *)
  gLock : bool;
  gAudioVolumeChangeHandlerFields : option jmember;    (* .mJniCallback *)
  gAudioVolumeChangeHandlerMethods : option jmember    (* .postEventFromNative *)
}.

Definition set_heap (f : gmap Z JNIAudioVolumeChangeHandler -> gmap Z JNIAudioVolumeChangeHandler)
    (w : world) : world :=
  mkWorld (f (heap w)) (jfields w) (globals w) (registry w) (pending w)
          (thread_env w) (gLock w) (gAudioVolumeChangeHandlerFields w)
          (gAudioVolumeChangeHandlerMethods w).

Definition set_jfields (f : gmap Z Z -> gmap Z Z) (w : world) : world :=
  mkWorld (heap w) (f (jfields w)) (globals w) (registry w) (pending w)
          (thread_env w) (gLock w) (gAudioVolumeChangeHandlerFields w)
          (gAudioVolumeChangeHandlerMethods w).

Definition set_globals (f : gmap Z Z -> gmap Z Z) (w : world) : world :=
  mkWorld (heap w) (jfields w) (f (globals w)) (registry w) (pending w)
          (thread_env w) (gLock w) (gAudioVolumeChangeHandlerFields w)
          (gAudioVolumeChangeHandlerMethods w).

Definition set_registry (f : gset Z -> gset Z) (w : world) : world :=
  mkWorld (heap w) (jfields w) (globals w) (f (registry w)) (pending w)
          (thread_env w) (gLock w) (gAudioVolumeChangeHandlerFields w)
          (gAudioVolumeChangeHandlerMethods w).

Definition set_pending (b : bool) (w : world) : world :=
  mkWorld (heap w) (jfields w) (globals w) (registry w) b
          (thread_env w) (gLock w) (gAudioVolumeChangeHandlerFields w)
          (gAudioVolumeChangeHandlerMethods w).

Definition set_thread_env (e : Z) (w : world) : world :=
  mkWorld (heap w) (jfields w) (globals w) (registry w) (pending w)
          e (gLock w) (gAudioVolumeChangeHandlerFields w)
          (gAudioVolumeChangeHandlerMethods w).

Definition set_gLock (b : bool) (w : world) : world :=
  mkWorld (heap w) (jfields w) (globals w) (registry w) (pending w)
          (thread_env w) b (gAudioVolumeChangeHandlerFields w)
          (gAudioVolumeChangeHandlerMethods w).

Definition set_ids (f m : option jmember) (w : world) : world :=
  mkWorld (heap w) (jfields w) (globals w) (registry w) (pending w)
          (thread_env w) (gLock w) f m.

(** ** The monad: state, trace of events, faults *)

Inductive result (A : Type) :=
| Ok (a : A) (w : world) (t : list event)
| Fault (f : fault) (t : list event).
Arguments Ok {A} a w t.
Arguments Fault {A} f t.

Definition M (A : Type) : Type := world -> result A.

Definition prepend {A} (t : list event) (r : result A) : result A :=
  match r with
  | Ok a w t' => Ok a w (t ++ t')
  | Fault f t' => Fault f (t ++ t')
  end.

Definition ret {A} (a : A) : M A := fun w => Ok a w [].

Definition bind {A B} (m : M A) (k : A -> M B) : M B :=
  fun w => match m w with
           | Ok a w1 t1 => prepend t1 (k a w1)
           | Fault f t1 => Fault f t1
           end.

Definition raise {A} (f : fault) : M A := fun _ => Fault f [].
Definition emit (e : event) : M unit := fun w => Ok tt w [e].
Definition gets {A} (f : world -> A) : M A := fun w => Ok (f w) w [].
Definition modify (f : world -> world) : M unit := fun w => Ok tt (f w) [].

Declare Scope jni_scope.
Delimit Scope jni_scope with jni.
Notation "x <- m ;; k" := (bind m (fun x => k))
  (at level 100, m at next level, right associativity) : jni_scope.
Notation "m ;; k" := (bind m (fun _ => k))
  (at level 100, right associativity) : jni_scope.
Local Open Scope jni_scope.

(** The trace and the final world of a run, when it does not fault. *)
Definition trace_of {A} (r : result A) : list event :=
  match r with Ok _ _ t => t | Fault _ t => t end.

Definition world_of {A} (r : result A) : option world :=
  match r with Ok _ w _ => Some w | Fault _ _ => None end.

(** ** JNI method signatures *)

(** The parameter types of a JNI method signature such as
    [(Ljava/lang/Object;IIILjava/lang/Object;)V].  [in_class] is set while the
    characters of a class name, up to its [;], are skipped. *)
Fixpoint sig_params (in_class : bool) (s : string) : option (list jtype) :=
  match s with
  | EmptyString => None
  | String c rest =>
      if in_class then
        if Ascii.eqb c ";" then sig_params false rest else sig_params true rest
      else if Ascii.eqb c "(" then sig_params false rest
      else if Ascii.eqb c ")" then Some []
      else if Ascii.eqb c "I" then cons TInt <$> sig_params false rest
      else if Ascii.eqb c "J" then cons TLong <$> sig_params false rest
      else if Ascii.eqb c "L" then cons TObject <$> sig_params true rest
      else None
  end.

Definition jvalue_has_type (v : jvalue) (t : jtype) : bool :=
  match v, t with
  | JInt _, TInt => true
  | JObject _, TObject => true
  | _, _ => false
  end.

Fixpoint args_match (args : list jvalue) (tys : list jtype) : bool :=
  match args, tys with
  | [], [] => true
  | v :: args', t :: tys' => jvalue_has_type v t && args_match args' tys'
  | _, _ => false
  end.

(** ** The strings of the source *)

Definition LOG_TAG : string := "AudioVolumeChangeHandler-JNI".

Definition kAudioVolumeChangeHandlerClassPathName : string :=
  "com/android/server/audio/AudioVolumeChangeHandler".

Definition postEventFromNative_id : jmember :=
  mkMember "postEventFromNative" "(Ljava/lang/Object;IIILjava/lang/Object;)V".

Definition mJniCallback_id : jmember := mkMember "mJniCallback" "J".

Definition gMethods : list jmember :=
  [ mkMember "native_setup" "(Ljava/lang/Object;)V";
    mkMember "native_finalize" "()V" ].

Definition FUNCTION_eventHandlerSetup : string :=
  "com_android_server_audio_AudioVolumeChangeHandler_eventHandlerSetup".

Definition FUNCTION_eventHandlerFinalize : string :=
  "com_android_server_audio_AudioVolumeChangeHandler_eventHandlerFinalize".

(** ** The host environment *)

(** What the file takes from its environment.

    - [alloc]: the address chosen by [operator new] and the reference chosen
      by [NewGlobalRef], given the ones in use.  An address that was freed
      may be chosen again.
    - [GetObjectClass]: the class of a Java object ([NULL] when the VM finds
      none, the case the constructor tests).
    - [AUDIOVOLUMEGROUP_EVENT_VOLUME_CHANGED]: a constant of the header
      [com_android_server_audio_AudioVolumeChangeHandler.h].
    - [java_throws]: whether the Java method [postEventFromNative] raises an
      exception on the arguments it receives. *)
Class Host := {
  alloc : gset Z -> Z;
  GetObjectClass : Z -> Z;
  AUDIOVOLUMEGROUP_EVENT_VOLUME_CHANGED : Z;
  java_throws : list jvalue -> bool
}.

(** The allocator never returns an address or a reference in use, nor null. *)
Class HostOk `{Host} : Prop := {
  alloc_fresh : forall X : gset Z, alloc X ∉ X;
  alloc_nonnull : forall X : gset Z, alloc X <> NULL
}.

Section Bridge.

Context {host : Host}.

(** ** Logging, the mutex, the JNI functions the file calls *)

Definition ALOG (prio : log_priority) (msg : string) : M unit :=
  emit (EvLog prio msg).

(** [Mutex::Autolock l(gLock)] and its destructor; the mutex is not
    recursive. *)
Definition Autolock_acquire : M unit :=
  held <- gets gLock ;;
  if held : bool then raise Deadlock
  else modify (set_gLock true) ;; emit EvLock.

Definition Autolock_release : M unit :=
  modify (set_gLock false) ;; emit EvUnlock.

(** [AndroidRuntime::getJNIEnv()]: the environment of the calling thread,
    [NULL] on a thread that is not attached to the VM. *)
Definition getJNIEnv : M Z := gets thread_env.

(** Every [env->f(...)] dereferences [env]. *)
Definition via_env (env : Z) : M unit :=
  if env =? NULL then raise NullDeref else ret tt.

Definition jni_GetObjectClass (env thiz : Z) : M Z :=
  via_env env ;; ret (GetObjectClass thiz).

Definition NewGlobalRef (env obj : Z) : M Z :=
  via_env env ;;
  if obj =? NULL then ret NULL
  else
    g <- gets globals ;;
    let h := alloc (dom g) in
    modify (set_globals (insert h obj)) ;;
    emit (EvNewGlobalRef h obj) ;;
    ret h.

Definition DeleteGlobalRef (env h : Z) : M unit :=
  via_env env ;;
  if h =? NULL then ret tt
  else modify (set_globals (delete h)) ;; emit (EvDeleteGlobalRef h).

Definition GetLongField (env thiz : Z) (fid : option jmember) : M Z :=
  via_env env ;;
  match fid with
  | None => raise Uninitialised
  | Some _ =>
      f <- gets jfields ;;
      match f !! thiz with
      | None => raise BadReference
      | Some v => emit (EvGetLongField thiz v) ;; ret v
      end
  end.

Definition SetLongField (env thiz : Z) (fid : option jmember) (v : Z) : M unit :=
  via_env env ;;
  match fid with
  | None => raise Uninitialised
  | Some _ =>
      f <- gets jfields ;;
      match f !! thiz with
      | None => raise BadReference
      | Some _ => modify (set_jfields (insert thiz v)) ;; emit (EvSetLongField thiz v)
      end
  end.

(** The Java object a reference passed to Java stands for. *)
Definition resolve (g : gmap Z Z) (v : jvalue) : option jvalue :=
  match v with
  | JInt i => Some (JInt i)
  | JObject h => if h =? NULL then Some (JObject NULL) else JObject <$> (g !! h)
  end.

Definition CallStaticVoidMethod (env clazz : Z) (mid : option jmember)
    (args : list jvalue) : M unit :=
  via_env env ;;
  exc <- gets pending ;;
  if exc : bool then raise PendingException
  else
    match mid with
    | None => raise Uninitialised
    | Some m =>
        g <- gets globals ;;
        match g !! clazz, sig_params false (m_sig m), mapM (resolve g) args with
        | Some cls, Some tys, Some vals =>
            if args_match args tys then
              emit (EvCallStaticVoidMethod cls (m_name m) vals) ;;
              modify (set_pending (java_throws vals))
            else raise BadCall
        | None, _, _ => raise BadReference
        | _, None, _ => raise BadCall
        | _, _, None => raise BadReference
        end
    end.

Definition ExceptionCheck (env : Z) : M bool :=
  via_env env ;;
  exc <- gets pending ;;
  emit (EvExceptionCheck exc) ;;
  ret exc.

Definition ExceptionClear (env : Z) : M unit :=
  via_env env ;;
  modify (set_pending false) ;; emit EvExceptionClear.

(** ** Native objects *)

Definition deref (p : Z) : M JNIAudioVolumeChangeHandler :=
  if p =? NULL then raise NullDeref
  else
    h <- gets heap ;;
    match h !! p with
    | None => raise Dangling
    | Some o => ret o
    end.

Definition store (p : Z) (o : JNIAudioVolumeChangeHandler) : M unit :=
  modify (set_heap (insert p o)).

Definition member (m : option Z) : M Z :=
  match m with
  | None => raise Uninitialised
  | Some v => ret v
  end.

(** [JNIAudioVolumeChangeHandler::JNIAudioVolumeChangeHandler(env, thiz, weak_thiz)]
    on the storage at [this]. *)
Definition JNIAudioVolumeChangeHandler_ctor (this env thiz weak_thiz : Z) : M unit :=
  clazz <- jni_GetObjectClass env thiz ;;
  if clazz =? NULL then
    ALOG LOG_ERROR ("Can't find class " +:+ kAudioVolumeChangeHandlerClassPathName)
  else
    c <- NewGlobalRef env clazz ;;
    o <- deref this ;;
    store this (mkHandler (Some c) (mObject o) (mStrong o)) ;;
    r <- NewGlobalRef env weak_thiz ;;
    o <- deref this ;;
    store this (mkHandler (mClass o) (Some r) (mStrong o)).

(** [JNIAudioVolumeChangeHandler::~JNIAudioVolumeChangeHandler()]. *)
Definition JNIAudioVolumeChangeHandler_dtor (this : Z) : M unit :=
  env <- getJNIEnv ;;
  if env =? NULL then ret tt
  else
    o <- deref this ;;
    r <- member (mObject o) ;;
    DeleteGlobalRef env r ;;
    c <- member (mClass o) ;;
    DeleteGlobalRef env c.

(** [new JNIAudioVolumeChangeHandler(env, thiz, weak_thiz)]: fresh storage
    with a strong count of zero, then the constructor. *)
Definition new_JNIAudioVolumeChangeHandler (env thiz weak_thiz : Z) : M Z :=
  h <- gets heap ;;
  let p := alloc (dom h) in
  store p (mkHandler None None 0) ;;
  emit (EvNew p) ;;
  JNIAudioVolumeChangeHandler_ctor p env thiz weak_thiz ;;
  ret p.

(** [RefBase::incStrong(id)]. *)
Definition incStrong (p : Z) (id : refid) : M unit :=
  o <- deref p ;;
  emit (EvIncStrong p id) ;;
  store p (mkHandler (mClass o) (mObject o) (mStrong o + 1)).

(** [RefBase::decStrong(id)]: the holder of the last strong reference deletes
    the object, which runs the destructor and frees the storage. *)
Definition decStrong (p : Z) (id : refid) : M unit :=
  o <- deref p ;;
  emit (EvDecStrong p id) ;;
  if mStrong o <=? 0 then raise BadCount
  else
    store p (mkHandler (mClass o) (mObject o) (mStrong o - 1)) ;;
    if mStrong o =? 1 then
      emit (EvDestroy p) ;;
      JNIAudioVolumeChangeHandler_dtor p ;;
      modify (set_heap (delete p))
    else ret tt.

(** Construction and destruction of an [sp<JNIAudioVolumeChangeHandler>] that
    holds [p]. *)
Definition sp_acquire (p : Z) : M unit :=
  if p =? NULL then ret tt else incStrong p IdSp.

Definition sp_release (p : Z) : M unit :=
  if p =? NULL then ret tt else decStrong p IdSp.

(** ** The event source *)

(** Modelled from the spec: [AudioSystem::addAudioVolumeGroupCallback] and
    [AudioSystem::removeAudioVolumeGroupCallback] are not part of this file.
    The spec gives the event source an internal registry that shares the
    bridge with the owner's slot: a registration that succeeds puts the
    callback in the registry, which holds one strong reference to it; one
    that is rejected keeps nothing; removal takes the callback out of the
    registry and drops that reference.  The status of a registration is the
    event source's choice, the argument [status].  The callback is passed by
    reference: a temporary [sp<>] that a conversion of the argument may
    create takes and drops a reference of its own around the call, and is
    left out. *)
Definition addAudioVolumeGroupCallback (callback : Z) (status : Z) : M Z :=
  emit (EvAddCallback callback status) ;;
  (if status =? NO_ERROR then
     incStrong callback IdAudioSystem ;;
     modify (set_registry (fun r => {[callback]} ∪ r))
   else ret tt) ;;
  ret status.

Definition removeAudioVolumeGroupCallback (callback : Z) : M unit :=
  emit (EvRemoveCallback callback) ;;
  r <- gets registry ;;
  if decide (callback ∈ r) then
    modify (set_registry (fun r => r ∖ {[callback]})) ;;
    decStrong callback IdAudioSystem
  else ret tt.

(** ** The code of the file *)

(** [JNIAudioVolumeChangeHandler::onAudioVolumeGroupChanged(group, flags)]. *)
Definition onAudioVolumeGroupChanged (this : Z) (group flags : Z) : M unit :=
  env <- getJNIEnv ;;
  if env =? NULL then ret tt
  else
    o <- deref this ;;
    clazz <- member (mClass o) ;;
    obj <- member (mObject o) ;;
    mid <- gets gAudioVolumeChangeHandlerMethods ;;
    CallStaticVoidMethod env clazz mid
      [JObject obj; JInt AUDIOVOLUMEGROUP_EVENT_VOLUME_CHANGED;
       JInt group; JInt flags; JObject NULL] ;;
    exc <- ExceptionCheck env ;;
    if exc : bool then
      ALOG LOG_WARN "An exception occurred while notifying an event." ;;
      ExceptionClear env
    else ret tt.

(** [setJniCallback(env, thiz, callback)].  The local [old] is an [sp<>]: it
    takes a reference of its own, which the returned value carries to the
    caller. *)
Definition setJniCallback (env thiz : Z) (callback : Z) : M Z :=
  Autolock_acquire ;;
  fid <- gets gAudioVolumeChangeHandlerFields ;;
  old <- GetLongField env thiz fid ;;
  sp_acquire old ;;
  (if callback =? NULL then ret tt else incStrong callback IdSetJniCallback) ;;
  (if old =? NULL then ret tt else decStrong old IdSetJniCallback) ;;
  SetLongField env thiz fid callback ;;
  Autolock_release ;;
  ret old.

(** [com_android_server_audio_AudioVolumeChangeHandler_eventHandlerSetup];
    [status] is what the event source answers to the registration. *)
Definition eventHandlerSetup (env thiz weak_this : Z) (status : Z) : M unit :=
  ALOG LOG_DEBUG FUNCTION_eventHandlerSetup ;;
  callback <- new_JNIAudioVolumeChangeHandler env thiz weak_this ;;
  sp_acquire callback ;;
  st <- addAudioVolumeGroupCallback callback status ;;
  (if st =? NO_ERROR then
     old <- setJniCallback env thiz callback ;;
     sp_release old
   else ret tt) ;;
  sp_release callback.

(** [com_android_server_audio_AudioVolumeChangeHandler_eventHandlerFinalize]. *)
Definition eventHandlerFinalize (env thiz : Z) : M unit :=
  ALOG LOG_DEBUG FUNCTION_eventHandlerFinalize ;;
  callback <- setJniCallback env thiz NULL ;;
  (if callback =? NULL then ret tt
   else removeAudioVolumeGroupCallback callback) ;;
  sp_release callback.

(** [register_android_server_audio_AudioVolumeChangeHandler(env)]: the method
    and the field are looked up once and kept in the two static structs.
    [declared] is what the VM finds for the class path name: [None] when the
    class does not exist, else the members it declares; each of the [...OrDie]
    helpers aborts the process when its lookup fails.  The value returned is
    that of [RegisterMethodsOrDie], zero when the natives are registered. *)
Definition lookupOrDie (declared : list jmember) (m : jmember) : M jmember :=
  if decide (m ∈ declared) then ret m else raise Die.

Definition register_android_server_audio_AudioVolumeChangeHandler
    (env : Z) (declared : option (list jmember)) : M Z :=
  via_env env ;;
  match declared with
  | None => raise Die
  | Some members =>
      mid <- lookupOrDie members postEventFromNative_id ;;
      fid0 <- gets gAudioVolumeChangeHandlerFields ;;
      modify (set_ids fid0 (Some mid)) ;;
      fid <- lookupOrDie members mJniCallback_id ;;
      mid0 <- gets gAudioVolumeChangeHandlerMethods ;;
      modify (set_ids (Some fid) mid0) ;;
      (if decide (gMethods ⊆ members) then ret tt else raise Die) ;;
      ret 0
  end.

(** ** Sequences of native calls *)

Inductive call :=
| Setup (thiz weak_this status : Z)
| Finalize (thiz : Z).

Definition owner (c : call) : Z :=
  match c with Setup thiz _ _ => thiz | Finalize thiz => thiz end.

Definition do_call (env : Z) (c : call) : M unit :=
  match c with
  | Setup thiz weak_this status => eventHandlerSetup env thiz weak_this status
  | Finalize thiz => eventHandlerFinalize env thiz
  end.

Fixpoint run (env : Z) (cs : list call) : M unit :=
  match cs with
  | [] => ret tt
  | c :: cs' => do_call env c ;; run env cs'
  end.

(** ** Observations on traces and worlds *)

(** The callbacks passed to [removeAudioVolumeGroupCallback], in order. *)
Fixpoint removed (t : list event) : list Z :=
  match t with
  | [] => []
  | EvRemoveCallback p :: t' => p :: removed t'
  | _ :: t' => removed t'
  end.

(** The calls of Java methods, in order. *)
Fixpoint dispatched (t : list event) : list (Z * string * list jvalue) :=
  match t with
  | [] => []
  | EvCallStaticVoidMethod cls name args :: t' => (cls, name, args) :: dispatched t'
  | _ :: t' => dispatched t'
  end.

(** The global references taken and given back, in order. *)
Fixpoint acquired (t : list event) : list Z :=
  match t with
  | [] => []
  | EvNewGlobalRef h _ :: t' => h :: acquired t'
  | _ :: t' => acquired t'
  end.

Fixpoint released (t : list event) : list Z :=
  match t with
  | [] => []
  | EvDeleteGlobalRef h :: t' => h :: released t'
  | _ :: t' => released t'
  end.

(** The values written to the field [mJniCallback] of [thiz], in order. *)
Fixpoint written (thiz : Z) (t : list event) : list Z :=
  match t with
  | [] => []
  | EvSetLongField o v :: t' =>
      if o =? thiz then v :: written thiz t' else written thiz t'
  | _ :: t' => written thiz t'
  end.

(** The objects destroyed, in order. *)
Fixpoint destroyed (t : list event) : list Z :=
  match t with
  | [] => []
  | EvDestroy p :: t' => p :: destroyed t'
  | _ :: t' => destroyed t'
  end.

(** [e1] occurs in [t] and every occurrence of [e2] comes after it. *)
Definition precedes (e1 e2 : event) (t : list event) : Prop :=
  ∃ t1 t2, t = t1 ++ e1 :: t2 ∧ e2 ∉ t1.

(** A bridge is installed when some owner's slot holds it. *)
Definition installed (w : world) (p : Z) : Prop :=
  ∃ thiz, jfields w !! thiz = Some p.

(** A bridge owns the non-null global references kept in its members. *)
Definition owns (o : JNIAudioVolumeChangeHandler) (h : Z) : Prop :=
  h <> NULL ∧ (mClass o = Some h ∨ mObject o = Some h).

(** The state between two native calls. *)
Record wf (w : world) : Prop := mkWf {
  wf_heap_null : heap w !! NULL = None;
  wf_unlocked : gLock w = false;
  wf_quiet : pending w = false;
  wf_fid : gAudioVolumeChangeHandlerFields w = Some mJniCallback_id;
  wf_mid : gAudioVolumeChangeHandlerMethods w = Some postEventFromNative_id;
  wf_slot : ∀ thiz p, jfields w !! thiz = Some p → p <> NULL → p ∈ registry w;
  wf_slot_inj : ∀ t1 t2 p,
      jfields w !! t1 = Some p → jfields w !! t2 = Some p → p <> NULL → t1 = t2;
  wf_registry : ∀ p, p ∈ registry w ↔ is_Some (heap w !! p);
  wf_count : ∀ p o, heap w !! p = Some o →
      (installed w p ∧ mStrong o = 2) ∨ (¬ installed w p ∧ mStrong o = 1);
  wf_members : ∀ p o, heap w !! p = Some o →
      ∃ c r, mClass o = Some c ∧ mObject o = Some r ∧ c <> NULL ∧ c <> r
             ∧ is_Some (globals w !! c) ∧ (r = NULL ∨ is_Some (globals w !! r));
  wf_handles : ∀ p q o o' h,
      heap w !! p = Some o → heap w !! q = Some o' → owns o h → owns o' h → p = q
}.

(** What the slot of [thiz] holds in a state between two calls: nothing, or
    one live bridge, counted once for the slot and once for the event source,
    registered there, and held by no other owner. *)
Definition slot_holds_at_most_one (w : world) (thiz : Z) : Prop :=
  ∀ p, jfields w !! thiz = Some p → p <> NULL →
    ∃ o, heap w !! p = Some o ∧ mStrong o = 2 ∧ p ∈ registry w
         ∧ ∀ thiz', jfields w !! thiz' = Some p → thiz' = thiz.

(** ** What the operations do, in closed form *)

(** The effect and the events of [DeleteGlobalRef]. *)

Definition drop_ref (h : Z) (g : gmap Z Z) : gmap Z Z :=
  if h =? NULL then g else delete h g.

Definition drop_ev (h : Z) : list event :=
  if h =? NULL then [] else [EvDeleteGlobalRef h].

(** The reference [NewGlobalRef] returns for [obj], and its effect. *)
Definition new_ref (obj : Z) (g : gmap Z Z) : Z :=
  if obj =? NULL then NULL else alloc (dom g).

Definition add_ref (h obj : Z) (g : gmap Z Z) : gmap Z Z :=
  if obj =? NULL then g else <[h:=obj]> g.

Definition add_ev (h obj : Z) : list event :=
  if obj =? NULL then [] else [EvNewGlobalRef h obj].

(** The events of an accepted setup up to the swap of the slot. *)
Definition setup_prefix (thiz weak_this : Z) (w : world) : list event :=
  let p := alloc (dom (heap w)) in
  let c := alloc (dom (globals w)) in
  let r := new_ref weak_this (<[c:=GetObjectClass thiz]> (globals w)) in
  [EvLog LOG_DEBUG FUNCTION_eventHandlerSetup;
   EvNew p; EvNewGlobalRef c (GetObjectClass thiz)] ++ add_ev r weak_this
  ++ [EvIncStrong p IdSp; EvAddCallback p NO_ERROR; EvIncStrong p IdAudioSystem].

(** The world after a setup that the event source accepts; [f] is what
    happens to the rest of the native heap. *)
Definition setup_world (thiz weak_this : Z)
    (f : gmap Z JNIAudioVolumeChangeHandler → gmap Z JNIAudioVolumeChangeHandler)
    (w : world) : world :=
  let p := alloc (dom (heap w)) in
  let c := alloc (dom (globals w)) in
  let g1 := <[c:=GetObjectClass thiz]> (globals w) in
  let r := new_ref weak_this g1 in
  set_jfields (insert thiz p)
    (set_registry (fun s => {[p]} ∪ s)
       (set_globals (fun _ => add_ref r weak_this g1)
          (set_heap (fun h => <[p:=mkHandler (Some c) (Some r) 2]> (f h)) w))).

(** The events of a reference taken or dropped on a pointer that may be
    null. *)
Definition inc_ev (p : Z) (id : refid) : list event :=
  if p =? NULL then [] else [EvIncStrong p id].

Definition dec_ev (p : Z) (id : refid) : list event :=
  if p =? NULL then [] else [EvDecStrong p id].

(** The object [o] with [d] strong references more. *)
Definition add_strong (d : Z) (o : JNIAudioVolumeChangeHandler) :
    JNIAudioVolumeChangeHandler :=
  mkHandler (mClass o) (mObject o) (mStrong o + d).

(** The events of an accepted setup on an owner whose slot holds [old]. *)
Definition setup_trace (thiz weak_this old : Z) (w : world) : list event :=
  let p := alloc (dom (heap w)) in
  setup_prefix thiz weak_this w
  ++ [EvLock; EvGetLongField thiz old] ++ inc_ev old IdSp
  ++ [EvIncStrong p IdSetJniCallback] ++ dec_ev old IdSetJniCallback
  ++ [EvSetLongField thiz p; EvUnlock] ++ dec_ev old IdSp
  ++ [EvDecStrong p IdSp].

(** The world after a teardown that finds the bridge [p], whose members are
    the references [c] and [r], in the slot. *)
Definition finalize_world (thiz p c r : Z) (w : world) : world :=
  set_jfields (insert thiz NULL)
    (set_registry (fun s => s ∖ {[p]})
       (set_globals (fun g => drop_ref c (drop_ref r g))
          (set_heap (delete p) w))).

(** The strong count of the object at [p]; zero when there is none. *)
Definition strong (w : world) (p : Z) : Z :=
  from_option mStrong 0 (heap w !! p).

(** ** One native call from a state between calls *)

(** The owner of a call is a live Java handler whose class the VM finds. *)
Definition callable (w : world) (c : call) : Prop :=
  is_Some (jfields w !! owner c) ∧ GetObjectClass (owner c) <> NULL.

(** A bridge that is alive but in no slot. *)
Definition orphan (w : world) (q : Z) (oq : JNIAudioVolumeChangeHandler) : Prop :=
  heap w !! q = Some oq ∧ ¬ installed w q.

(** What a call leaves alone. *)
Definition frame (w w' : world) (t : list event) : Prop :=
  thread_env w' = thread_env w
  ∧ dom (jfields w') = dom (jfields w)
  ∧ ∀ q oq, orphan w q oq →
      orphan w' q oq ∧ (q ∉ removed t) ∧ (q ∉ destroyed t)
      ∧ ∀ h, owns oq h → globals w' !! h = globals w !! h.

(** ** Delivery of an event *)

(** The Java class and the Java object a bridge calls: what its two global
    references stand for ([NULL] when there is none). *)
Definition class_of (w : world) (p : Z) : Z :=
  default NULL (o ← heap w !! p; c ← mClass o; globals w !! c).

Definition proxy_of (w : world) (p : Z) : Z :=
  default NULL (o ← heap w !! p; r ← mObject o;
                if r =? NULL then Some NULL else globals w !! r).

(** The arguments [postEventFromNative] receives for one event. *)
Definition payload (proxy group flags : Z) : list jvalue :=
  [JObject proxy; JInt AUDIOVOLUMEGROUP_EVENT_VOLUME_CHANGED;
   JInt group; JInt flags; JObject NULL].

(** The events that follow [ExceptionCheck]. *)
Definition exception_ev (raised : bool) : list event :=
  if raised
  then [EvLog LOG_WARN "An exception occurred while notifying an event.";
        EvExceptionClear]
  else [].

(** ** Slots along a trace *)

(** The slots after the writes of a trace. *)
Fixpoint slots_after (slots : gmap Z Z) (t : list event) : gmap Z Z :=
  match t with
  | [] => slots
  | EvSetLongField thiz v :: t' => slots_after (<[thiz:=v]> slots) t'
  | _ :: t' => slots_after slots t'
  end.

(** At no point of the trace is an object destroyed that a slot holds at
    that point. *)
Fixpoint no_slot_dangles (slots : gmap Z Z) (t : list event) : Prop :=
  match t with
  | [] => True
  | EvSetLongField thiz v :: t' => no_slot_dangles (<[thiz:=v]> slots) t'
  | EvDestroy p :: t' =>
      (∀ thiz, slots !! thiz <> Some p) ∧ no_slot_dangles slots t'
  | _ :: t' => no_slot_dangles slots t'
  end.

(** An event that neither writes a slot nor destroys an object. *)
Definition silent (e : event) : Prop :=
  match e with
  | EvSetLongField _ _ | EvDestroy _ => False
  | _ => True
  end.

(** ** Native calls and deliveries, interleaved *)

(** A step of the process: Java calls one of the two natives, or the event
    source delivers an event to the callback [this]. *)
Inductive step :=
| Native (c : call)
| Event (this group flags : Z).

(** Modelled from the spec: the event source calls back the callbacks of its
    registry and no other; a delivery to a callback that is not registered
    does not take place. *)
Definition do_step (env : Z) (s : step) : M unit :=
  match s with
  | Native c => do_call env c
  | Event this group flags =>
      r <- gets registry ;;
      if decide (this ∈ r) then onAudioVolumeGroupChanged this group flags
      else ret tt
  end.

Fixpoint run_steps (env : Z) (ss : list step) : M unit :=
  match ss with
  | [] => ret tt
  | s :: ss' => do_step env s ;; run_steps env ss'
  end.

(** The native calls among the steps. *)
Fixpoint natives (ss : list step) : list call :=
  match ss with
  | [] => []
  | Native c :: ss' => c :: natives ss'
  | Event _ _ _ :: ss' => natives ss'
  end.

Definition callable_step (w : world) (s : step) : Prop :=
  match s with
  | Native c => callable w c
  | Event _ _ _ => True
  end.

(** The events of a delivery, and the trace without them. *)
Definition is_delivery (e : event) : bool :=
  match e with
  | EvCallStaticVoidMethod _ _ _ | EvExceptionCheck _ | EvExceptionClear
  | EvLog LOG_WARN _ => true
  | _ => false
  end.

Fixpoint without_deliveries (t : list event) : list event :=
  match t with
  | [] => []
  | e :: t' => if is_delivery e then without_deliveries t'
               else e :: without_deliveries t'
  end.

(** The setups of a sequence that the event source accepts. *)
Fixpoint accepted (cs : list call) : nat :=
  match cs with
  | [] => O
  | Setup _ _ status :: cs' =>
      if status =? NO_ERROR then S (accepted cs') else accepted cs'
  | Finalize _ :: cs' => accepted cs'
  end.

(** ** The lock along a trace *)

(** Whether [gLock] is held after the events of a trace. *)
Fixpoint lock_after (held : bool) (t : list event) : bool :=
  match t with
  | [] => held
  | EvLock :: t' => lock_after true t'
  | EvUnlock :: t' => lock_after false t'
  | _ :: t' => lock_after held t'
  end.

(** The lock is taken when free and released when held; the slot is read and
    written, and the references of [setJniCallback] are counted, with the
    lock held; objects are created and destroyed, global references taken and
    dropped, the event source and Java called, with the lock free. *)
Fixpoint lock_discipline (held : bool) (t : list event) : Prop :=
  match t with
  | [] => True
  | EvLock :: t' => held = false ∧ lock_discipline true t'
  | EvUnlock :: t' => held = true ∧ lock_discipline false t'
  | EvGetLongField _ _ :: t' | EvSetLongField _ _ :: t'
  | EvIncStrong _ IdSetJniCallback :: t' | EvDecStrong _ IdSetJniCallback :: t' =>
      held = true ∧ lock_discipline held t'
  | EvNew _ :: t' | EvDestroy _ :: t' | EvNewGlobalRef _ _ :: t'
  | EvDeleteGlobalRef _ :: t' | EvAddCallback _ _ :: t'
  | EvRemoveCallback _ :: t' | EvCallStaticVoidMethod _ _ _ :: t' =>
      held = false ∧ lock_discipline held t'
  | _ :: t' => lock_discipline held t'
  end.

(** ** Global references and their holders *)

(** Every global reference of the table is owned by a live bridge. *)
Definition globals_owned (w : world) : Prop :=
  ∀ h, is_Some (globals w !! h) → ∃ p o, heap w !! p = Some o ∧ owns o h.

(** ** The outcome of one step, in closed form *)

(** The events of a setup that the event source rejects. *)
Definition rejected_trace (thiz weak_this status : Z) (w : world) : list event :=
  let p := alloc (dom (heap w)) in
  let c := alloc (dom (globals w)) in
  let r := new_ref weak_this (<[c:=GetObjectClass thiz]> (globals w)) in
  [EvLog LOG_DEBUG FUNCTION_eventHandlerSetup;
   EvNew p; EvNewGlobalRef c (GetObjectClass thiz)] ++ add_ev r weak_this
  ++ [EvIncStrong p IdSp; EvAddCallback p status;
      EvDecStrong p IdSp; EvDestroy p] ++ drop_ev r ++ drop_ev c.

(** The events of a teardown that finds nothing, and of one that finds the
    bridge [p] with the references [c] and [r]. *)
Definition idle_trace (thiz : Z) : list event :=
  [EvLog LOG_DEBUG FUNCTION_eventHandlerFinalize; EvLock;
   EvGetLongField thiz NULL; EvSetLongField thiz NULL; EvUnlock].

Definition teardown_trace (thiz p c r : Z) : list event :=
  [EvLog LOG_DEBUG FUNCTION_eventHandlerFinalize; EvLock;
   EvGetLongField thiz p; EvIncStrong p IdSp;
   EvDecStrong p IdSetJniCallback; EvSetLongField thiz NULL; EvUnlock;
   EvRemoveCallback p; EvDecStrong p IdAudioSystem;
   EvDecStrong p IdSp; EvDestroy p] ++ drop_ev r ++ drop_ev c.

(** The events of one delivery to the bridge [this]. *)
Definition delivery_trace (w : world) (this group flags : Z) : list event :=
  let vals := payload (proxy_of w this) group flags in
  [EvCallStaticVoidMethod (class_of w this) "postEventFromNative" vals;
   EvExceptionCheck (java_throws vals)] ++ exception_ev (java_throws vals).

Inductive step_outcome (w : world) : step → world → list event → Prop :=
| so_rejected thiz weak_this status :
    status <> NO_ERROR →
    step_outcome w (Native (Setup thiz weak_this status)) w
                 (rejected_trace thiz weak_this status w)
| so_accepted thiz weak_this old :
    jfields w !! thiz = Some old →
    step_outcome w (Native (Setup thiz weak_this NO_ERROR))
                 (setup_world thiz weak_this (alter (add_strong (-1)) old) w)
                 (setup_trace thiz weak_this old w)
| so_idle thiz :
    jfields w !! thiz = Some NULL →
    step_outcome w (Native (Finalize thiz)) w (idle_trace thiz)
| so_torn thiz p o c r :
    jfields w !! thiz = Some p → p <> NULL → heap w !! p = Some o →
    mStrong o = 2 → mClass o = Some c → mObject o = Some r →
    step_outcome w (Native (Finalize thiz)) (finalize_world thiz p c r w)
                 (teardown_trace thiz p c r)
| so_delivered this group flags :
    this ∈ registry w →
    step_outcome w (Event this group flags) w (delivery_trace w this group flags)
| so_skipped this group flags :
    this ∉ registry w →
    step_outcome w (Event this group flags) w [].

(** The outcome of a sequence of steps from a state between calls. *)
Inductive run_outcome : world → list step → world → list event → Prop :=
| ro_nil w : run_outcome w [] w []
| ro_cons w s ss w1 t1 w2 t2 :
    wf w → callable_step w s →
    step_outcome w s w1 t1 → run_outcome w1 ss w2 t2 →
    run_outcome w (s :: ss) w2 (t1 ++ t2).

(** ** The slot's reference during a swap *)

(** For a bridge [p] and the slot of [thiz]: after each event of a trace,
    whether the slot shows [p] and how many references [setJniCallback] has
    counted on [p] (the references taken and dropped at lines 96 and 99, of
    which the slot keeps one between two calls).  [v] is what the slot holds
    and [n] the number of these references before the trace. *)
Fixpoint slot_points (thiz p : Z) (v n : Z) (t : list event) : list (bool * Z) :=
  match t with
  | [] => []
  | e :: t' =>
      let v' := match e with
                | EvSetLongField o x => if o =? thiz then x else v
                | _ => v
                end in
      let n' := match e with
                | EvIncStrong q IdSetJniCallback => if q =? p then n + 1 else n
                | EvDecStrong q IdSetJniCallback => if q =? p then n - 1 else n
                | _ => n
                end in
      (v' =? p, n') :: slot_points thiz p v' n' t'
  end.

(** ** Registration *)

(** The class that the VM finds declares the Java method, the field and the
    two natives that [register_android_server_audio_AudioVolumeChangeHandler]
    asks for. *)
Definition class_fits (declared : option (list jmember)) : Prop :=
  ∃ members, declared = Some members
             ∧ postEventFromNative_id ∈ members ∧ mJniCallback_id ∈ members
             ∧ gMethods ⊆ members.

(** ** Global references along a trace *)

(** The table of global references after the events of a trace. *)
Fixpoint refs_after (g : gmap Z Z) (t : list event) : gmap Z Z :=
  match t with
  | [] => g
  | EvNewGlobalRef h o :: t' => refs_after (<[h:=o]> g) t'
  | EvDeleteGlobalRef h :: t' => refs_after (delete h g) t'
  | _ :: t' => refs_after g t'
  end.

(** Every reference that is taken is new and not null, and every reference
    that is given back is in the table at that point. *)
Fixpoint refs_sound (g : gmap Z Z) (t : list event) : Prop :=
  match t with
  | [] => True
  | EvNewGlobalRef h o :: t' =>
      h <> NULL ∧ g !! h = None ∧ refs_sound (<[h:=o]> g) t'
  | EvDeleteGlobalRef h :: t' => is_Some (g !! h) ∧ refs_sound (delete h g) t'
  | _ :: t' => refs_sound g t'
  end.

(** An event that neither takes nor gives back a global reference. *)
Definition refless (e : event) : Prop :=
  match e with
  | EvNewGlobalRef _ _ | EvDeleteGlobalRef _ => False
  | _ => True
  end.

End Bridge.

(** ** A concrete host and concrete worlds *)

(** An allocator: the least integer that is neither null nor in use. *)
Definition bump (X : gset Z) : Z := fresh ({[NULL]} ∪ X).

(** A host whose Java handler never throws, and one whose handler always
    does; every handler object has the class [500], and the event kind is
    [1000]. *)
Definition quiet_host : Host :=
  {| alloc := bump;
     GetObjectClass := fun _ => 500;
     AUDIOVOLUMEGROUP_EVENT_VOLUME_CHANGED := 1000;
     java_throws := fun _ => false |}.

Definition throwing_host : Host :=
  {| alloc := bump;
     GetObjectClass := fun _ => 500;
     AUDIOVOLUMEGROUP_EVENT_VOLUME_CHANGED := 1000;
     java_throws := fun _ => true |}.

(** A host whose VM finds no class for any object. *)
Definition classless_host : Host :=
  {| alloc := bump;
     GetObjectClass := fun _ => NULL;
     AUDIOVOLUMEGROUP_EVENT_VOLUME_CHANGED := 1000;
     java_throws := fun _ => false |}.

(** A process before class registration, with one Java handler, [100]. *)
Definition fresh_process : world :=
  mkWorld ∅ {[ 100 := NULL ]} ∅ ∅ false 7 false None None.

(** The same process after registration: no bridge yet. *)
Definition boot : world :=
  mkWorld ∅ {[ 100 := NULL ]} ∅ ∅ false 7 false
          (Some mJniCallback_id) (Some postEventFromNative_id).

(** The process after one accepted setup of handler [100] with proxy [200]. *)
Definition installed0 : world :=
  mkWorld {[ 1 := mkHandler (Some 1) (Some 2) 2 ]} {[ 100 := 1 ]}
          {[ 1 := 500; 2 := 200 ]} {[ 1 ]} false 7 false
          (Some mJniCallback_id) (Some postEventFromNative_id).

(** The process after a second accepted setup of handler [100], with proxy
    [201]: bridge [2] is installed, bridge [1] is displaced. *)
Definition replaced0 : world :=
  mkWorld {[ 1 := mkHandler (Some 1) (Some 2) 1;
             2 := mkHandler (Some 3) (Some 4) 2 ]} {[ 100 := 2 ]}
          {[ 1 := 500; 2 := 200; 3 := 500; 4 := 201 ]} {[ 1; 2 ]} false 7 false
          (Some mJniCallback_id) (Some postEventFromNative_id).

(** The process after the teardown of handler [100] that follows: the slot
    is empty, bridge [1] is still alive and registered. *)
Definition orphaned0 : world :=
  mkWorld {[ 1 := mkHandler (Some 1) (Some 2) 1 ]} {[ 100 := NULL ]}
          {[ 1 := 500; 2 := 200 ]} {[ 1 ]} false 7 false
          (Some mJniCallback_id) (Some postEventFromNative_id).

(** The same process seen from a thread that is not attached to the VM. *)
Definition detached0 : world := set_thread_env NULL installed0.

(** What the Java class declares. *)
Definition declared0 : list jmember :=
  [ postEventFromNative_id; mJniCallback_id;
    mkMember "native_setup" "(Ljava/lang/Object;)V";
    mkMember "native_finalize" "()V" ].

(** A sequence of calls on handler [100]: two accepted setups, two
    teardowns and a setup that the event source rejects. *)
Definition calls0 : list call :=
  [ Setup 100 200 NO_ERROR; Setup 100 201 NO_ERROR;
    Finalize 100; Finalize 100; Setup 100 202 (-22) ].

(** A sequence of steps on handler [100]: setups and teardowns with
    deliveries to the bridges [1] and [2] in between. *)
Definition steps0 : list step :=
  [ Native (Setup 100 200 NO_ERROR); Event 1 3 1;
    Native (Setup 100 201 NO_ERROR); Event 1 3 1; Event 2 4 0;
    Native (Finalize 100); Event 2 4 0; Event 1 5 0;
    Native (Setup 100 202 (-22)) ].

(** A process with a second Java handler, [101], whose slot is empty, before
    and after the setup of handler [100] with proxy [200]. *)
Definition boot2 : world :=
  mkWorld ∅ {[ 100 := NULL; 101 := NULL ]} ∅ ∅ false 7 false
          (Some mJniCallback_id) (Some postEventFromNative_id).

Definition installed2 : world :=
  mkWorld {[ 1 := mkHandler (Some 1) (Some 2) 2 ]} {[ 100 := 1; 101 := NULL ]}
          {[ 1 := 500; 2 := 200 ]} {[ 1 ]} false 7 false
          (Some mJniCallback_id) (Some postEventFromNative_id).

(** Steps that name handler [101] only. *)
Definition steps2 : list step :=
  [ Native (Setup 101 300 NO_ERROR); Event 1 3 1;
    Native (Setup 101 301 NO_ERROR); Native (Finalize 101); Event 1 4 0 ].

(** The process with a displaced bridge, seen from a thread that is not
    attached to the VM. *)
Definition detached1 : world := set_thread_env NULL replaced0.

Section Proofs.

Context {host : Host} {host_ok : HostOk}.

(** ** Laws of the monad *)

Lemma prepend_nil {A} (r : result A) : prepend [] r = r.
Proof. by destruct r. Qed.

Lemma prepend_prepend {A} t1 t2 (r : result A) :
  prepend t1 (prepend t2 r) = prepend (t1 ++ t2) r.
Proof. destruct r; simpl; by rewrite app_assoc. Qed.

Lemma prepend_Ok {A} t (a : A) w t' : prepend t (Ok a w t') = Ok a w (t ++ t').
Proof. done. Qed.

Lemma bind_bind {A B C} (m : M A) (k : A -> M B) (k' : B -> M C) w :
  bind (bind m k) k' w = bind m (fun a => bind (k a) k') w.
Proof.
  unfold bind. destruct (m w) as [a w1 t1|f t1]; simpl; [|done].
  destruct (k a w1) as [b w2 t2|f t2]; simpl; [|done].
  destruct (k' b w2); simpl; by rewrite app_assoc.
Qed.

Lemma bind_ret {A B} (a : A) (k : A -> M B) w : bind (ret a) k w = k a w.
Proof. unfold bind, ret. apply prepend_nil. Qed.

Lemma bind_gets {A B} (f : world -> A) (k : A -> M B) w :
  bind (gets f) k w = k (f w) w.
Proof. unfold bind, gets. apply prepend_nil. Qed.

Lemma bind_raise {A B} f (k : A -> M B) w : bind (raise f) k w = Fault f [].
Proof. done. Qed.

Lemma bind_emit {B} e (k : unit -> M B) w :
  bind (emit e) k w = prepend [e] (k tt w).
Proof. done. Qed.

Lemma bind_modify {B} f (k : unit -> M B) w : bind (modify f) k w = k tt (f w).
Proof. unfold bind, modify. apply prepend_nil. Qed.

(** A step whose outcome is known. *)
Lemma bind_step {A B} (m : M A) (k : A -> M B) w a w1 t1 :
  m w = Ok a w1 t1 → bind m k w = prepend t1 (k a w1).
Proof. unfold bind. by intros ->. Qed.

(** ** Symbolic execution *)

(** Projections of a world that was built by the setters. *)
Ltac wsimpl :=
  cbn [heap jfields globals registry pending thread_env gLock
       gAudioVolumeChangeHandlerFields gAudioVolumeChangeHandlerMethods
       set_heap set_jfields set_globals set_registry set_pending
       set_thread_env set_gLock set_ids mClass mObject mStrong].

Tactic Notation "wsimpl" "in" hyp(H) :=
  cbn [heap jfields globals registry pending thread_env gLock
       gAudioVolumeChangeHandlerFields gAudioVolumeChangeHandlerMethods
       set_heap set_jfields set_globals set_registry set_pending
       set_thread_env set_gLock set_ids mClass mObject mStrong] in H.

(** One law of the monad at the head of the program. *)
Ltac mlaw :=
  first [ rewrite bind_bind | rewrite bind_ret | rewrite bind_gets
        | rewrite bind_emit | rewrite bind_modify | rewrite bind_raise ].

(** Facts of the context that decide a test of the program. *)
Ltac mfact :=
  match goal with
  | H : (_ =? _) = _ |- _ => rewrite H
  | H : (_ <=? _) = _ |- _ => rewrite H
  | H : _ !! _ = _ |- _ => rewrite H
  | H : gLock _ = _ |- _ => rewrite H
  | H : pending _ = _ |- _ => rewrite H
  | H : thread_env _ = _ |- _ => rewrite H
  | H : gAudioVolumeChangeHandlerFields _ = _ |- _ => rewrite H
  | H : gAudioVolumeChangeHandlerMethods _ = _ |- _ => rewrite H
  | H : mClass _ = _ |- _ => rewrite H
  | H : mObject _ = _ |- _ => rewrite H
  | H : GetObjectClass _ = _ |- _ => rewrite H
  | H : java_throws _ = _ |- _ => rewrite H
  end.

(** One step of the program, or of a lookup in a map that was updated. *)
Ltac mstep :=
  first [ mlaw
        | mfact
        | rewrite Z.eqb_refl
        | rewrite lookup_insert_eq
        | rewrite lookup_delete_eq
        | rewrite lookup_insert_ne by congruence
        | rewrite lookup_delete_ne by congruence
        | rewrite prepend_prepend
        | rewrite prepend_Ok ];
  lazy beta iota; wsimpl.

(** A lookup in the native heap after some updates. *)
Ltac hlook :=
  wsimpl;
  repeat first [rewrite lookup_insert_eq | rewrite lookup_insert_ne by done];
  first [reflexivity | eassumption].

(** What is left when the program has run. *)
Ltac mfinish :=
  cbn [ret emit modify gets raise prepend app]; wsimpl.

Ltac mexec := lazy beta iota; wsimpl; repeat mstep; mfinish.

(** Two worlds with the same fields are the same world. *)
Lemma world_eq w1 w2 :
  heap w1 = heap w2 → jfields w1 = jfields w2 → globals w1 = globals w2 →
  registry w1 = registry w2 → pending w1 = pending w2 →
  thread_env w1 = thread_env w2 → gLock w1 = gLock w2 →
  gAudioVolumeChangeHandlerFields w1 = gAudioVolumeChangeHandlerFields w2 →
  gAudioVolumeChangeHandlerMethods w1 = gAudioVolumeChangeHandlerMethods w2 →
  w1 = w2.
Proof. destruct w1, w2; simpl; congruence. Qed.

Ltac weq := apply world_eq; wsimpl; try done.

Lemma Ok_eq {A} (a : A) w1 w2 t1 t2 : w1 = w2 → t1 = t2 → Ok a w1 t1 = Ok a w2 t2.
Proof. congruence. Qed.

Lemma neq_eqb (a b : Z) : a <> b → (a =? b) = false.
Proof. apply Z.eqb_neq. Qed.

(** ** The primitives *)

Lemma incStrong_eq p id o w :
  p <> NULL → heap w !! p = Some o →
  incStrong p id w =
    Ok tt (set_heap (insert p (mkHandler (mClass o) (mObject o) (mStrong o + 1))) w)
       [EvIncStrong p id].
Proof.
  intros Hp%neq_eqb Ho. unfold incStrong, deref, store. by mexec.
Qed.

Lemma decStrong_keep p id o w :
  p <> NULL → heap w !! p = Some o → 1 < mStrong o →
  decStrong p id w =
    Ok tt (set_heap (insert p (mkHandler (mClass o) (mObject o) (mStrong o - 1))) w)
       [EvDecStrong p id].
Proof.
  intros Hp%neq_eqb Ho Hn. unfold decStrong, deref, store.
  assert (H1 : (mStrong o <=? 0) = false) by (apply Z.leb_gt; lia).
  assert (H2 : (mStrong o =? 1) = false) by (apply Z.eqb_neq; lia).
  by mexec.
Qed.

Lemma DeleteGlobalRef_eq env h w :
  env <> NULL →
  DeleteGlobalRef env h w = Ok tt (set_globals (drop_ref h) w) (drop_ev h).
Proof.
  intros He%neq_eqb. unfold DeleteGlobalRef, via_env, drop_ref, drop_ev.
  mexec. destruct (h =? NULL); mexec; [|done].
  apply Ok_eq; [weq|done].
Qed.

Lemma decStrong_last p id o c r w :
  p <> NULL → heap w !! p = Some o → mStrong o = 1 → thread_env w <> NULL →
  mClass o = Some c → mObject o = Some r →
  decStrong p id w =
    Ok tt (set_heap (delete p) (set_globals (fun g => drop_ref c (drop_ref r g)) w))
       ([EvDecStrong p id; EvDestroy p] ++ drop_ev r ++ drop_ev c).
Proof.
  intros Hp Ho Hn He Hc Hr. unfold decStrong, deref, store.
  pose proof (neq_eqb _ _ Hp) as Hp'. pose proof (neq_eqb _ _ He) as He'.
  unfold JNIAudioVolumeChangeHandler_dtor, getJNIEnv, deref, member.
  assert (H1 : (mStrong o <=? 0) = false) by (apply Z.leb_gt; lia).
  assert (H2 : (mStrong o =? 1) = true) by (apply Z.eqb_eq; lia).
  mexec.
  rewrite (bind_step _ _ _ _ _ _ (DeleteGlobalRef_eq _ r _ He)). mexec.
  rewrite (bind_step _ _ _ _ _ _ (DeleteGlobalRef_eq _ c _ He)). mexec.
  apply Ok_eq; [weq; apply delete_insert_eq | by rewrite app_nil_r].
Qed.

Lemma decStrong_last_detached p id o w :
  p <> NULL → heap w !! p = Some o → mStrong o = 1 → thread_env w = NULL →
  decStrong p id w =
    Ok tt (set_heap (delete p) w) [EvDecStrong p id; EvDestroy p].
Proof.
  intros Hp%neq_eqb Ho Hn He. unfold decStrong, deref, store.
  unfold JNIAudioVolumeChangeHandler_dtor, getJNIEnv.
  assert (H1 : (mStrong o <=? 0) = false) by (apply Z.leb_gt; lia).
  assert (H2 : (mStrong o =? 1) = true) by (apply Z.eqb_eq; lia).
  mexec. apply Ok_eq; [weq; apply delete_insert_eq | done].
Qed.

Lemma new_ref_nonnull obj g : obj <> NULL → new_ref obj g = alloc (dom g).
Proof. intros H%neq_eqb. unfold new_ref. by rewrite H. Qed.

Lemma NewGlobalRef_eq env obj w :
  env <> NULL →
  NewGlobalRef env obj w =
    Ok (new_ref obj (globals w))
       (set_globals (add_ref (new_ref obj (globals w)) obj) w)
       (add_ev (new_ref obj (globals w)) obj).
Proof.
  intros He%neq_eqb. unfold NewGlobalRef, via_env, new_ref, add_ref, add_ev.
  mexec. destruct (obj =? NULL); mexec; [|done].
  apply Ok_eq; [weq|done].
Qed.

Lemma alloc_lookup {V} (m : gmap Z V) : m !! alloc (dom m) = None.
Proof. apply not_elem_of_dom, alloc_fresh. Qed.

Lemma new_eq env thiz weak_this w :
  env <> NULL → GetObjectClass thiz <> NULL →
  let p := alloc (dom (heap w)) in
  let c := alloc (dom (globals w)) in
  let g1 := <[c:=GetObjectClass thiz]> (globals w) in
  let r := new_ref weak_this g1 in
  new_JNIAudioVolumeChangeHandler env thiz weak_this w =
    Ok p (set_globals (fun _ => add_ref r weak_this g1)
            (set_heap (insert p (mkHandler (Some c) (Some r) 0)) w))
       ([EvNew p; EvNewGlobalRef c (GetObjectClass thiz)] ++ add_ev r weak_this).
Proof.
  intros He Hc p c g1 r.
  pose proof (neq_eqb _ _ He) as He'. pose proof (neq_eqb _ _ Hc) as Hc'.
  pose proof (neq_eqb _ _ (alloc_nonnull (dom (heap w)))) as Hp.
  subst p c g1 r.
  unfold new_JNIAudioVolumeChangeHandler, JNIAudioVolumeChangeHandler_ctor,
    jni_GetObjectClass, via_env, store, deref.
  mexec.
  rewrite (bind_step _ _ _ _ _ _ (NewGlobalRef_eq _ _ _ He)).
  rewrite !(new_ref_nonnull _ _ Hc). unfold add_ref at 1, add_ev at 1. mexec.
  rewrite (bind_step _ _ _ _ _ _ (NewGlobalRef_eq _ _ _ He)). mexec.
  apply Ok_eq; [weq|].
  - by rewrite !insert_insert_eq.
  - by rewrite app_nil_r.
Qed.

Lemma sp_acquire_eq p o w :
  p <> NULL → heap w !! p = Some o →
  sp_acquire p w =
    Ok tt (set_heap (insert p (mkHandler (mClass o) (mObject o) (mStrong o + 1))) w)
       [EvIncStrong p IdSp].
Proof.
  intros Hp Ho. unfold sp_acquire. rewrite (neq_eqb _ _ Hp).
  by apply incStrong_eq.
Qed.

(** ** The two native methods *)

Lemma globals_restored (g : gmap Z Z) cls weak_this :
  let c := alloc (dom g) in
  let g1 := <[c:=cls]> g in
  let r := new_ref weak_this g1 in
  drop_ref c (drop_ref r (add_ref r weak_this g1)) = g.
Proof.
  intros c g1 r.
  assert (Hc : drop_ref c g1 = g).
  { unfold drop_ref, g1, c. rewrite (neq_eqb _ _ (alloc_nonnull _)).
    rewrite delete_insert_eq. apply delete_id, alloc_lookup. }
  transitivity (drop_ref c g1); [f_equal|exact Hc].
  unfold r, new_ref, add_ref, drop_ref. destruct (Z.eqb_spec weak_this NULL) as [->|Hw].
  - done.
  - rewrite (neq_eqb _ _ (alloc_nonnull _)).
    rewrite delete_insert_eq. apply delete_id, alloc_lookup.
Qed.

Lemma setup_rejected env thiz weak_this status w :
  env <> NULL → thread_env w = env → GetObjectClass thiz <> NULL →
  status <> NO_ERROR →
  let p := alloc (dom (heap w)) in
  let c := alloc (dom (globals w)) in
  let r := new_ref weak_this (<[c:=GetObjectClass thiz]> (globals w)) in
  eventHandlerSetup env thiz weak_this status w =
    Ok tt w
       ([EvLog LOG_DEBUG FUNCTION_eventHandlerSetup;
         EvNew p; EvNewGlobalRef c (GetObjectClass thiz)] ++ add_ev r weak_this
        ++ [EvIncStrong p IdSp; EvAddCallback p status;
            EvDecStrong p IdSp; EvDestroy p] ++ drop_ev r ++ drop_ev c).
Proof.
  intros He Ht Hc Hs p c r.
  pose proof (neq_eqb _ _ Hs) as Hs'.
  pose proof (alloc_nonnull (dom (heap w))) as Hp.
  pose proof (neq_eqb _ _ Hp) as Hp'.
  subst p c r.
  unfold eventHandlerSetup, ALOG, addAudioVolumeGroupCallback.
  mexec.
  rewrite (bind_step _ _ _ _ _ _ (new_eq _ _ _ _ He Hc)). mexec.
  erewrite bind_step by (apply sp_acquire_eq; [done|wsimpl; apply lookup_insert_eq]).
  mexec. unfold sp_release. rewrite Hp'.
  erewrite decStrong_last;
    [|done|wsimpl; apply lookup_insert_eq|done|wsimpl; by rewrite Ht|done|done].
  mexec. apply Ok_eq.
  - weq.
    + rewrite delete_insert_eq, delete_insert_eq. apply delete_id, alloc_lookup.
    + apply globals_restored.
  - rewrite <- !app_assoc. done.
Qed.

Lemma finalize_empty env thiz w f :
  env <> NULL → gLock w = false → gAudioVolumeChangeHandlerFields w = Some f →
  jfields w !! thiz = Some NULL →
  eventHandlerFinalize env thiz w =
    Ok tt w [EvLog LOG_DEBUG FUNCTION_eventHandlerFinalize; EvLock;
             EvGetLongField thiz NULL; EvSetLongField thiz NULL; EvUnlock].
Proof.
  intros He%neq_eqb Hl Hf Hs.
  unfold eventHandlerFinalize, setJniCallback, Autolock_acquire,
    Autolock_release, GetLongField, SetLongField, via_env, sp_acquire,
    sp_release, ALOG.
  mexec. apply Ok_eq; [weq|done]. by apply insert_id.
Qed.

Lemma finalize_installed env thiz p o c r w f :
  env <> NULL → thread_env w = env → gLock w = false →
  gAudioVolumeChangeHandlerFields w = Some f →
  jfields w !! thiz = Some p → p <> NULL → p ∈ registry w →
  heap w !! p = Some o → mStrong o = 2 → mClass o = Some c → mObject o = Some r →
  eventHandlerFinalize env thiz w =
    Ok tt (set_jfields (insert thiz NULL)
             (set_registry (fun s => s ∖ {[p]})
                (set_globals (fun g => drop_ref c (drop_ref r g))
                   (set_heap (delete p) w))))
       ([EvLog LOG_DEBUG FUNCTION_eventHandlerFinalize; EvLock;
         EvGetLongField thiz p; EvIncStrong p IdSp;
         EvDecStrong p IdSetJniCallback; EvSetLongField thiz NULL; EvUnlock;
         EvRemoveCallback p; EvDecStrong p IdAudioSystem;
         EvDecStrong p IdSp; EvDestroy p] ++ drop_ev r ++ drop_ev c).
Proof.
  intros He Ht Hl Hf Hs Hp Hreg Ho Hn Hc Hr.
  pose proof (neq_eqb _ _ He) as He'. pose proof (neq_eqb _ _ Hp) as Hp'.
  unfold eventHandlerFinalize, setJniCallback, Autolock_acquire,
    Autolock_release, GetLongField, SetLongField, via_env, sp_acquire,
    sp_release, ALOG, removeAudioVolumeGroupCallback.
  mexec.
  erewrite bind_step by (apply incStrong_eq; [done|wsimpl; exact Ho]).
  mexec.
  erewrite bind_step
    by (apply decStrong_keep; [done|wsimpl; apply lookup_insert_eq|wsimpl; lia]).
  mexec. rewrite decide_True by done. mexec.
  erewrite bind_step
    by (apply decStrong_keep; [done|wsimpl; apply lookup_insert_eq|wsimpl; lia]).
  mexec.
  erewrite decStrong_last;
    [|done|wsimpl; apply lookup_insert_eq|wsimpl; lia|wsimpl; by rewrite Ht
     |done|done].
  mexec. apply Ok_eq; [weq|done].
  by rewrite !delete_insert_eq.
Qed.

Lemma setup_install env thiz weak_this w f :
  env <> NULL → GetObjectClass thiz <> NULL → gLock w = false →
  gAudioVolumeChangeHandlerFields w = Some f →
  jfields w !! thiz = Some NULL →
  let p := alloc (dom (heap w)) in
  eventHandlerSetup env thiz weak_this NO_ERROR w =
    Ok tt (setup_world thiz weak_this id w)
       (setup_prefix thiz weak_this w
        ++ [EvLock; EvGetLongField thiz NULL; EvIncStrong p IdSetJniCallback;
            EvSetLongField thiz p; EvUnlock; EvDecStrong p IdSp]).
Proof.
  intros He Hc Hl Hf Hs p.
  pose proof (neq_eqb _ _ He) as He'.
  pose proof (alloc_nonnull (dom (heap w))) as Hp.
  pose proof (neq_eqb _ _ Hp) as Hp'.
  subst p. unfold setup_world, setup_prefix.
  unfold eventHandlerSetup, ALOG, addAudioVolumeGroupCallback.
  mexec.
  rewrite (bind_step _ _ _ _ _ _ (new_eq _ _ _ _ He Hc)). mexec.
  erewrite bind_step by (apply sp_acquire_eq; [done|hlook]).
  mexec.
  erewrite bind_step by (apply incStrong_eq; [done|hlook]).
  mexec.
  unfold setJniCallback, Autolock_acquire, Autolock_release, GetLongField,
    SetLongField, via_env, sp_acquire, sp_release.
  mexec.
  erewrite bind_step by (apply incStrong_eq; [done|hlook]).
  mexec.
  erewrite decStrong_keep; [|done|hlook|wsimpl; lia].
  mexec. apply Ok_eq.
  - weq. rewrite !insert_insert_eq. done.
  - rewrite <- !app_assoc. done.
Qed.

Lemma setup_replace env thiz weak_this old oo w f :
  env <> NULL → GetObjectClass thiz <> NULL → gLock w = false →
  gAudioVolumeChangeHandlerFields w = Some f →
  jfields w !! thiz = Some old → old <> NULL →
  heap w !! old = Some oo → mStrong oo = 2 →
  let p := alloc (dom (heap w)) in
  eventHandlerSetup env thiz weak_this NO_ERROR w =
    Ok tt (setup_world thiz weak_this
             (insert old (mkHandler (mClass oo) (mObject oo) 1)) w)
       (setup_prefix thiz weak_this w
        ++ [EvLock; EvGetLongField thiz old; EvIncStrong old IdSp;
            EvIncStrong p IdSetJniCallback; EvDecStrong old IdSetJniCallback;
            EvSetLongField thiz p; EvUnlock;
            EvDecStrong old IdSp; EvDecStrong p IdSp]).
Proof.
  intros He Hc Hl Hf Hs Hold Hoo Hn p.
  pose proof (neq_eqb _ _ He) as He'. pose proof (neq_eqb _ _ Hold) as Hold'.
  pose proof (alloc_nonnull (dom (heap w))) as Hp.
  pose proof (neq_eqb _ _ Hp) as Hp'.
  assert (Hne : alloc (dom (heap w)) <> old).
  { intros E. pose proof (alloc_lookup (heap w)) as H. rewrite E in H. congruence. }
  assert (Hne' : old <> alloc (dom (heap w))) by done.
  subst p. unfold setup_world, setup_prefix.
  unfold eventHandlerSetup, ALOG, addAudioVolumeGroupCallback.
  mexec.
  rewrite (bind_step _ _ _ _ _ _ (new_eq _ _ _ _ He Hc)). mexec.
  erewrite bind_step by (apply sp_acquire_eq; [done|hlook]).
  mexec.
  erewrite bind_step by (apply incStrong_eq; [done|hlook]).
  mexec.
  unfold setJniCallback, Autolock_acquire, Autolock_release, GetLongField,
    SetLongField, via_env, sp_acquire, sp_release.
  mexec.
  erewrite bind_step
    by (apply incStrong_eq; [done|hlook]).
  mexec.
  erewrite bind_step
    by (apply incStrong_eq;
        [done|hlook]).
  mexec.
  erewrite bind_step
    by (apply decStrong_keep;
        [done|hlook|wsimpl; lia]).
  mexec.
  erewrite bind_step
    by (apply decStrong_keep; [done|hlook|wsimpl; lia]).
  mexec.
  erewrite decStrong_keep;
    [|done|hlook|wsimpl; lia].
  mexec. apply Ok_eq.
  - weq. apply map_eq. intros i. rewrite !lookup_insert.
    repeat case_decide; try done; f_equal; f_equal; lia.
  - rewrite <- !app_assoc. done.
Qed.

Lemma setup_accepted env thiz weak_this old w :
  env <> NULL → GetObjectClass thiz <> NULL → wf w →
  jfields w !! thiz = Some old →
  eventHandlerSetup env thiz weak_this NO_ERROR w =
    Ok tt (setup_world thiz weak_this (alter (add_strong (-1)) old) w)
       (setup_trace thiz weak_this old w).
Proof.
  intros He Hc Hwf Hs. unfold setup_trace, inc_ev, dec_ev.
  destruct (Z.eqb_spec old NULL) as [->|Hold].
  - erewrite setup_install; eauto using wf_unlocked, wf_fid.
    apply Ok_eq; [|simpl; by rewrite <- ?app_assoc].
    unfold setup_world. weq. f_equal. symmetry. apply map_eq. intros i.
    unfold id. rewrite lookup_alter. case_decide; [subst i|done].
    by rewrite (wf_heap_null _ Hwf).
  - pose proof (wf_slot _ Hwf _ _ Hs Hold) as Hreg.
    apply (wf_registry _ Hwf) in Hreg as [oo Hoo].
    destruct (wf_count _ Hwf _ _ Hoo) as [[_ Hn]|[Hni _]];
      [|destruct Hni; by exists thiz].
    erewrite setup_replace; eauto using wf_unlocked, wf_fid.
    apply Ok_eq; [|simpl; by rewrite <- ?app_assoc].
    unfold setup_world. weq. f_equal. apply map_eq. intros i.
    rewrite lookup_alter, lookup_insert. case_decide; [subst i|done].
    rewrite Hoo. simpl. unfold add_strong. do 2 f_equal. lia.
Qed.

(** ** The invariant is kept *)

Lemma owns_in_globals w p o h :
  wf w → heap w !! p = Some o → owns o h → is_Some (globals w !! h).
Proof.
  intros Hwf Ho [Hh Hm].
  destruct (wf_members _ Hwf _ _ Ho) as (c & r & Hc & Hr & _ & _ & Hgc & Hgr).
  destruct Hm as [Hm|Hm]; [by replace h with c by congruence|].
  replace h with r in * by congruence. by destruct Hgr.
Qed.

Lemma wf_setup_accepted thiz weak_this old w :
  GetObjectClass thiz <> NULL → wf w → jfields w !! thiz = Some old →
  wf (setup_world thiz weak_this (alter (add_strong (-1)) old) w).
Proof.
  intros Hcls Hwf Hs.
  set (p := alloc (dom (heap w))).
  set (c := alloc (dom (globals w))).
  set (g1 := <[c:=GetObjectClass thiz]> (globals w)).
  set (r := new_ref weak_this g1).
  assert (Hp0 : p <> NULL) by apply alloc_nonnull.
  assert (Hpf : heap w !! p = None) by apply alloc_lookup.
  assert (Hc0 : c <> NULL) by apply alloc_nonnull.
  assert (Hcf : globals w !! c = None) by apply alloc_lookup.
  assert (Hpr : p ∉ registry w).
  { intros Hin. apply (wf_registry _ Hwf) in Hin as [? ?]. congruence. }
  assert (Hpi : ¬ installed w p).
  { intros [t Ht]. by apply Hpr, (wf_slot _ Hwf t). }
  assert (Hop : old <> p).
  { intros ->. apply Hpi. by exists thiz. }
  assert (Hr : r = NULL ∧ weak_this = NULL
               ∨ r <> NULL ∧ weak_this <> NULL ∧ g1 !! r = None ∧ r <> c
                 ∧ globals w !! r = None).
  { unfold r, new_ref. destruct (Z.eqb_spec weak_this NULL) as [?|Hw]; [by left|right].
    pose proof (alloc_lookup g1) as Hf. split_and!.
    - apply alloc_nonnull.
    - done.
    - done.
    - intros E. rewrite E in Hf. unfold g1 in Hf. by rewrite lookup_insert_eq in Hf.
    - unfold g1 in Hf. rewrite lookup_insert in Hf. by case_decide. }
  assert (Hg : ∀ h, is_Some (globals w !! h) →
                add_ref r weak_this g1 !! h = globals w !! h).
  { intros h [v Hv]. unfold add_ref.
    assert (g1 !! h = globals w !! h) as Hg1.
    { unfold g1. rewrite lookup_insert_ne; [done|congruence]. }
    destruct Hr as [[_ ->]|(_ & Hw & _ & _ & Hrf)]; [done|].
    rewrite (neq_eqb _ _ Hw). rewrite lookup_insert_ne; [done|congruence]. }
  assert (Hgc : is_Some (add_ref r weak_this g1 !! c)).
  { unfold add_ref. destruct Hr as [[_ ->]|(_ & Hw & _ & Hrc & _)].
    - simpl. unfold g1. rewrite lookup_insert_eq. eauto.
    - rewrite (neq_eqb _ _ Hw), lookup_insert_ne by done.
      unfold g1. rewrite lookup_insert_eq. eauto. }
  assert (Hgr : r = NULL ∨ is_Some (add_ref r weak_this g1 !! r)).
  { unfold add_ref. destruct Hr as [[? _]|(_ & Hw & _ & _ & _)]; [by left|right].
    rewrite (neq_eqb _ _ Hw), lookup_insert_eq. eauto. }
  assert (Hfresh : ∀ h, h = c ∨ (h = r ∧ r <> NULL) → globals w !! h = None).
  { intros h [->|[-> Hrn]]; [done|]. by destruct Hr as [[? _]|(_ & _ & _ & _ & ?)]. }
  assert (Hinst : ∀ q, q <> p → q <> old →
            (installed (setup_world thiz weak_this (alter (add_strong (-1)) old) w) q
             ↔ installed w q)).
  { intros q Hqp Hqo. unfold installed, setup_world. wsimpl. fold p. split.
    - intros [t Ht]. wsimpl in Ht. fold p in Ht.
      rewrite lookup_insert in Ht. case_decide; [congruence|]. eauto.
    - intros [t Ht]. exists t. rewrite lookup_insert_ne; [done|]. congruence. }
  constructor; unfold setup_world; wsimpl; fold p c g1 r.
  - rewrite lookup_insert_ne by done. rewrite lookup_alter.
    case_decide as E; [|apply Hwf]. by rewrite E, (wf_heap_null _ Hwf).
  - apply Hwf.
  - apply Hwf.
  - apply Hwf.
  - apply Hwf.
  - intros t q Ht Hq. rewrite lookup_insert in Ht. case_decide.
    + injection Ht as <-. apply elem_of_union_l. by apply elem_of_singleton.
    + apply elem_of_union_r. by apply (wf_slot _ Hwf t).
  - intros t1 t2 q H1 H2 Hq.
    destruct (decide (thiz = t1)) as [<-|N1], (decide (thiz = t2)) as [<-|N2];
      [done|..].
    + rewrite lookup_insert_eq in H1. rewrite lookup_insert_ne in H2 by done.
      injection H1 as <-. destruct Hpi. by exists t2.
    + rewrite lookup_insert_eq in H2. rewrite lookup_insert_ne in H1 by done.
      injection H2 as <-. destruct Hpi. by exists t1.
    + rewrite lookup_insert_ne in H1, H2 by done.
      by apply (wf_slot_inj _ Hwf _ _ q).
  - intros q. rewrite elem_of_union, elem_of_singleton, lookup_insert.
    case_decide as E; [subst q; split; eauto|].
    rewrite lookup_alter, (wf_registry _ Hwf).
    assert (is_Some (if decide (old = q) then add_strong (-1) <$> heap w !! old
                     else heap w !! q) ↔ is_Some (heap w !! q)) as ->.
    { case_decide as E'; [subst q; apply fmap_is_Some|done]. }
    split; [intros [?|?]; [congruence|done]|by right].
  - intros q o Ho. rewrite lookup_insert in Ho. case_decide.
    + simplify_eq. left. split; [|done]. exists thiz. wsimpl. apply lookup_insert_eq.
    + rewrite lookup_alter in Ho. case_decide.
      * subst q. destruct (heap w !! old) as [oo|] eqn:Hoo; [|done].
        simpl in Ho. injection Ho as <-.
        destruct (wf_count _ Hwf _ _ Hoo) as [[_ Hn]|[Hni _]];
          [|destruct Hni; by exists thiz].
        right. split; [|unfold add_strong; simpl; lia]. intros [t Ht]. wsimpl in Ht.
        rewrite lookup_insert in Ht. case_decide; [congruence|].
        assert (Hon : old <> NULL)
          by (intros ->; by rewrite (wf_heap_null _ Hwf) in Hoo).
        pose proof (wf_slot_inj _ Hwf _ _ _ Ht Hs Hon). congruence.
      * pose proof (Hinst q) as Hi. unfold setup_world in Hi. fold p c g1 r in Hi.
        destruct (wf_count _ Hwf _ _ Ho) as [[? ?]|[? ?]]; [left|right];
          (split; [|done]); rewrite Hi by done; done.
  - intros q o Ho. rewrite lookup_insert in Ho. case_decide.
    + simplify_eq. exists c, r. split_and!; try done.
      destruct Hr as [[-> _]|(_ & _ & _ & ? & _)]; done.
    + assert (∃ o', heap w !! q = Some o' ∧ mClass o = mClass o' ∧ mObject o = mObject o')
        as (o' & Ho' & -> & ->).
      { rewrite lookup_alter in Ho. case_decide; [|eauto]. subst q.
        destruct (heap w !! old) as [oo|]; [|done].
        simpl in Ho. injection Ho as <-. eauto. }
      destruct (wf_members _ Hwf _ _ Ho') as (c' & r' & ? & ? & ? & ? & Hgc' & Hgr').
      exists c', r'. split_and!; try done.
      * by rewrite Hg.
      * destruct Hgr' as [?|?]; [by left|right; by rewrite Hg].
  - assert (Hold : ∀ q o, q <> p →
              <[p:={| mClass := Some c; mObject := Some r; mStrong := 2 |}]>
                (alter (add_strong (-1)) old (heap w)) !! q = Some o →
              ∃ o', heap w !! q = Some o' ∧ ∀ h, owns o h ↔ owns o' h).
    { intros q o Hq Ho. rewrite lookup_insert_ne in Ho by done.
      rewrite lookup_alter in Ho. case_decide; [|eauto]. subst q.
      destruct (heap w !! old) as [oo|]; [|done].
      simpl in Ho. injection Ho as <-. eauto. }
    assert (Hnew : ∀ q o h, q <> p →
              <[p:={| mClass := Some c; mObject := Some r; mStrong := 2 |}]>
                (alter (add_strong (-1)) old (heap w)) !! q = Some o →
              owns o h → owns {| mClass := Some c; mObject := Some r; mStrong := 2 |} h →
              False).
    { intros q o h Hq Ho Hoh [Hh Hph]. simpl in Hph.
      destruct (Hold _ _ Hq Ho) as (o' & Ho' & Hiff). apply Hiff in Hoh.
      destruct (owns_in_globals _ _ _ _ Hwf Ho' Hoh) as [v Hv].
      rewrite Hfresh in Hv; [done|]. destruct Hph; simplify_eq; eauto. }
    intros q1 q2 o1 o2 h H1 H2 Ho1 Ho2.
    destruct (decide (q1 = p)) as [->|Hq1], (decide (q2 = p)) as [->|Hq2]; [done|..].
    + rewrite lookup_insert_eq in H1. simplify_eq. by destruct (Hnew _ _ _ Hq2 H2 Ho2 Ho1).
    + rewrite lookup_insert_eq in H2. simplify_eq. by destruct (Hnew _ _ _ Hq1 H1 Ho1 Ho2).
    + destruct (Hold _ _ Hq1 H1) as (o1' & ? & Hi1).
      destruct (Hold _ _ Hq2 H2) as (o2' & ? & Hi2).
      apply (wf_handles _ Hwf q1 q2 o1' o2' h); [done|done|by apply Hi1|by apply Hi2].
Qed.

Lemma lookup_drop_ref h h' (g : gmap Z Z) :
  h' <> h → drop_ref h g !! h' = g !! h'.
Proof.
  intros Hne. unfold drop_ref. destruct (h =? NULL); [done|].
  by rewrite lookup_delete_ne.
Qed.

Lemma wf_finalize_installed thiz p o c r w :
  wf w → jfields w !! thiz = Some p → p <> NULL →
  heap w !! p = Some o → mClass o = Some c → mObject o = Some r →
  wf (finalize_world thiz p c r w).
Proof.
  intros Hwf Hs Hp Ho Hc Hr.
  assert (Hinst : ∀ q, q <> p → q <> NULL →
            (installed (finalize_world thiz p c r w) q ↔ installed w q)).
  { intros q Hqp Hq0. unfold installed, finalize_world. wsimpl. split.
    - intros [t Ht]. rewrite lookup_insert in Ht. case_decide; [congruence|]. eauto.
    - intros [t Ht]. exists t. rewrite lookup_insert_ne; [done|]. congruence. }
  assert (Hkeep : ∀ q oq h, q <> p → heap w !! q = Some oq → owns oq h →
            drop_ref c (drop_ref r (globals w)) !! h = globals w !! h).
  { intros q oq h Hq Hoq Hoh.
    assert (h <> c).
    { intros ->. apply Hq. apply (wf_handles _ Hwf q p oq o c); [done..|].
      split; [apply Hoh|by left]. }
    assert (h <> r).
    { intros ->. apply Hq. apply (wf_handles _ Hwf q p oq o r); [done..|].
      split; [apply Hoh|by right]. }
    by rewrite !lookup_drop_ref. }
  constructor; unfold finalize_world; wsimpl.
  - rewrite lookup_delete_ne by done. apply Hwf.
  - apply Hwf.
  - apply Hwf.
  - apply Hwf.
  - apply Hwf.
  - intros t q Ht Hq. rewrite lookup_insert in Ht. case_decide; [congruence|].
    apply elem_of_difference. split; [by apply (wf_slot _ Hwf t)|].
    rewrite elem_of_singleton. intros ->.
    pose proof (wf_slot_inj _ Hwf _ _ _ Ht Hs Hp). congruence.
  - intros t1 t2 q H1 H2 Hq. rewrite lookup_insert in H1, H2.
    repeat case_decide; try congruence.
    by apply (wf_slot_inj _ Hwf _ _ q).
  - intros q. rewrite elem_of_difference, elem_of_singleton, lookup_delete.
    rewrite (wf_registry _ Hwf). case_decide as E.
    + split; [intros [_ ?]; congruence|by intros [? ?]].
    + split; [by intros [? _]|]. intros ?. split; [done|congruence].
  - intros q oq Hoq. rewrite lookup_delete in Hoq. case_decide as E; [done|].
    assert (q <> NULL) by (intros ->; by rewrite (wf_heap_null _ Hwf) in Hoq).
    pose proof (Hinst q) as Hi. unfold finalize_world in Hi.
    destruct (wf_count _ Hwf _ _ Hoq) as [[? ?]|[? ?]]; [left|right];
      (split; [|done]); rewrite Hi by congruence; done.
  - intros q oq Hoq. rewrite lookup_delete in Hoq. case_decide as E; [done|].
    destruct (wf_members _ Hwf _ _ Hoq) as (c' & r' & Hc' & Hr' & ? & ? & Hgc' & Hgr').
    exists c', r'. split_and!; [done..| |].
    + rewrite (Hkeep q oq c'); [done|congruence|done|]. split; [done|by left].
    + destruct Hgr' as [?|?]; [by left|].
      destruct (decide (r' = NULL)); [by left|right].
      rewrite (Hkeep q oq r'); [done|congruence|done|]. split; [done|by right].
  - intros q1 q2 o1 o2 h H1 H2. rewrite lookup_delete in H1, H2.
    repeat case_decide; try done. by apply (wf_handles _ Hwf).
Qed.

(** ** The swap of the slot in general *)

Lemma insert_alter (f : JNIAudioVolumeChangeHandler → JNIAudioVolumeChangeHandler)
    (m : gmap Z JNIAudioVolumeChangeHandler) p o :
  m !! p = Some o → <[p:=f o]> m = alter f p m.
Proof.
  intros Ho. apply map_eq. intros i. rewrite lookup_insert, lookup_alter.
  case_decide; [by rewrite Ho|done].
Qed.

Lemma incStrong_alter p id w :
  p <> NULL → is_Some (heap w !! p) →
  incStrong p id w = Ok tt (set_heap (alter (add_strong 1) p) w) [EvIncStrong p id].
Proof.
  intros Hp [o Ho]. rewrite (incStrong_eq _ _ _ _ Hp Ho).
  apply Ok_eq; [weq|done]. by apply (insert_alter (add_strong 1)).
Qed.

Lemma decStrong_alter p id w :
  p <> NULL → 1 < strong w p →
  decStrong p id w = Ok tt (set_heap (alter (add_strong (-1)) p) w) [EvDecStrong p id].
Proof.
  intros Hp Hn. unfold strong in Hn.
  destruct (heap w !! p) as [o|] eqn:Ho; simpl in Hn; [|lia].
  rewrite (decStrong_keep _ _ _ _ Hp Ho Hn).
  apply Ok_eq; [weq|done]. by apply (insert_alter (add_strong (-1))).
Qed.

Lemma setJniCallback_closed env thiz callback old w f :
  env <> NULL → gLock w = false → gAudioVolumeChangeHandlerFields w = Some f →
  jfields w !! thiz = Some old →
  (old <> NULL → 1 <= strong w old) →
  (callback <> NULL → is_Some (heap w !! callback)) →
  let up (p : Z) h := if p =? NULL then h else alter (add_strong 1) p h in
  let down (p : Z) h := if p =? NULL then h else alter (add_strong (-1)) p h in
  setJniCallback env thiz callback w =
    Ok old
       (set_jfields (insert thiz callback)
          (set_heap (fun h => down old (up callback (up old h))) w))
       ([EvLock; EvGetLongField thiz old] ++ inc_ev old IdSp
        ++ inc_ev callback IdSetJniCallback ++ dec_ev old IdSetJniCallback
        ++ [EvSetLongField thiz callback; EvUnlock]).
Proof.
  intros He Hl Hf Hs Hold Hcb up down. subst up down.
  pose proof (neq_eqb _ _ He) as He'.
  unfold setJniCallback, Autolock_acquire, Autolock_release, GetLongField,
    SetLongField, via_env, sp_acquire, inc_ev, dec_ev.
  mexec.
  destruct (Z.eqb_spec old NULL) as [Eo|No], (Z.eqb_spec callback NULL) as [Ec|Nc].
  - mexec. apply Ok_eq; [weq|done].
  - mexec. erewrite bind_step by (apply incStrong_alter; wsimpl; auto).
    mexec. apply Ok_eq; [weq|done].
  - assert (∃ oo, heap w !! old = Some oo ∧ 1 <= mStrong oo) as (oo & Ha & Hn).
    { specialize (Hold No). unfold strong in Hold.
      destruct (heap w !! old); [eauto|simpl in Hold; lia]. }
    mexec. erewrite bind_step by (apply incStrong_alter; wsimpl; eauto).
    mexec.
    erewrite bind_step
      by (apply decStrong_alter; [done|]; unfold strong; wsimpl;
          rewrite lookup_alter_eq, Ha; simpl; lia).
    mexec. apply Ok_eq; [weq|done].
  - assert (∃ oo, heap w !! old = Some oo ∧ 1 <= mStrong oo) as (oo & Ha & Hn).
    { specialize (Hold No). unfold strong in Hold.
      destruct (heap w !! old); [eauto|simpl in Hold; lia]. }
    mexec. erewrite bind_step by (apply incStrong_alter; wsimpl; eauto).
    mexec.
    erewrite bind_step
      by (apply incStrong_alter; [done|]; wsimpl; rewrite lookup_alter;
          case_decide; [subst; by apply fmap_is_Some|auto]).
    mexec.
    erewrite bind_step
      by (apply decStrong_alter; [done|]; unfold strong; wsimpl;
          rewrite lookup_alter; case_decide as E; [rewrite E|];
          rewrite lookup_alter_eq, Ha; simpl; lia).
    mexec. apply Ok_eq; [weq|done].
Qed.

(** ** What a call leaves alone *)

Lemma frame_refl w : frame w w [].
Proof.
  split_and!; [done..|]. intros q oq Hq. split_and!; [done| | |done];
    simpl; apply not_elem_of_nil.
Qed.

Lemma removed_app t1 t2 : removed (t1 ++ t2) = removed t1 ++ removed t2.
Proof.
  induction t1 as [|e t1 IH]; [done|]. destruct e; simpl; by rewrite ?IH.
Qed.

Lemma destroyed_app t1 t2 : destroyed (t1 ++ t2) = destroyed t1 ++ destroyed t2.
Proof.
  induction t1 as [|e t1 IH]; [done|]. destruct e; simpl; by rewrite ?IH.
Qed.

Lemma frame_trans w1 w2 w3 t1 t2 :
  frame w1 w2 t1 → frame w2 w3 t2 → frame w1 w3 (t1 ++ t2).
Proof.
  intros (He1 & Hd1 & Ho1) (He2 & Hd2 & Ho2). split_and!; [congruence..|].
  intros q oq Hq. destruct (Ho1 _ _ Hq) as (Hq2 & Hr1 & Hx1 & Hg1).
  destruct (Ho2 _ _ Hq2) as (Hq3 & Hr2 & Hx2 & Hg2). split_and!; [done| | |].
  - rewrite removed_app, elem_of_app. tauto.
  - rewrite destroyed_app, elem_of_app. tauto.
  - intros h Hh. rewrite Hg2, Hg1; done.
Qed.

Lemma removed_add_ev h o : removed (add_ev h o) = [].
Proof. unfold add_ev. by destruct (o =? NULL). Qed.
Lemma removed_drop_ev h : removed (drop_ev h) = [].
Proof. unfold drop_ev. by destruct (h =? NULL). Qed.
Lemma removed_inc_ev p id : removed (inc_ev p id) = [].
Proof. unfold inc_ev. by destruct (p =? NULL). Qed.
Lemma removed_dec_ev p id : removed (dec_ev p id) = [].
Proof. unfold dec_ev. by destruct (p =? NULL). Qed.
Lemma destroyed_add_ev h o : destroyed (add_ev h o) = [].
Proof. unfold add_ev. by destruct (o =? NULL). Qed.
Lemma destroyed_drop_ev h : destroyed (drop_ev h) = [].
Proof. unfold drop_ev. by destruct (h =? NULL). Qed.
Lemma destroyed_inc_ev p id : destroyed (inc_ev p id) = [].
Proof. unfold inc_ev. by destruct (p =? NULL). Qed.
Lemma destroyed_dec_ev p id : destroyed (dec_ev p id) = [].
Proof. unfold dec_ev. by destruct (p =? NULL). Qed.

Lemma removed_setup_trace thiz weak_this old w :
  removed (setup_trace thiz weak_this old w) = [].
Proof.
  unfold setup_trace, setup_prefix.
  rewrite !removed_app, removed_add_ev, !removed_inc_ev, !removed_dec_ev. done.
Qed.

Lemma destroyed_setup_trace thiz weak_this old w :
  destroyed (setup_trace thiz weak_this old w) = [].
Proof.
  unfold setup_trace, setup_prefix.
  rewrite !destroyed_app, destroyed_add_ev, !destroyed_inc_ev, !destroyed_dec_ev.
  done.
Qed.

Lemma frame_setup_accepted thiz weak_this old w :
  wf w → jfields w !! thiz = Some old →
  frame w (setup_world thiz weak_this (alter (add_strong (-1)) old) w)
        (setup_trace thiz weak_this old w).
Proof.
  intros Hwf Hs. split_and!.
  - done.
  - unfold setup_world. wsimpl. apply dom_insert_lookup_L. eauto.
  - intros q oq [Hq Hni].
    assert (Hqp : q <> alloc (dom (heap w))).
    { intros ->. by rewrite alloc_lookup in Hq. }
    assert (Hqo : q <> old).
    { intros ->. apply Hni. by exists thiz. }
    split_and!.
    + split.
      * unfold setup_world. wsimpl.
        rewrite lookup_insert_ne by done. by rewrite lookup_alter_ne.
      * intros [t Ht]. unfold setup_world in Ht. wsimpl in Ht.
        rewrite lookup_insert in Ht. case_decide; [congruence|].
        apply Hni. by exists t.
    + rewrite removed_setup_trace. apply not_elem_of_nil.
    + rewrite destroyed_setup_trace. apply not_elem_of_nil.
    + intros h Hh. destruct (owns_in_globals _ _ _ _ Hwf Hq Hh) as [v Hv].
      unfold setup_world. wsimpl. unfold add_ref, new_ref.
      set (c := alloc (dom (globals w))).
      assert (h <> c) by (intros ->; unfold c in Hv; by rewrite alloc_lookup in Hv).
      destruct (weak_this =? NULL); [by rewrite lookup_insert_ne|].
      rewrite lookup_insert_ne; [by rewrite lookup_insert_ne|].
      intros E. pose proof (alloc_lookup (<[c:=GetObjectClass thiz]> (globals w))) as Hf.
      rewrite E, lookup_insert_ne, Hv in Hf; done.
Qed.

Lemma frame_finalize_installed thiz p o c r w :
  wf w → jfields w !! thiz = Some p → p <> NULL →
  heap w !! p = Some o → mClass o = Some c → mObject o = Some r →
  frame w (finalize_world thiz p c r w)
        ([EvLog LOG_DEBUG FUNCTION_eventHandlerFinalize; EvLock;
          EvGetLongField thiz p; EvIncStrong p IdSp;
          EvDecStrong p IdSetJniCallback; EvSetLongField thiz NULL; EvUnlock;
          EvRemoveCallback p; EvDecStrong p IdAudioSystem;
          EvDecStrong p IdSp; EvDestroy p] ++ drop_ev r ++ drop_ev c).
Proof.
  intros Hwf Hs Hp Ho Hc Hr. split_and!.
  - done.
  - unfold finalize_world. wsimpl. apply dom_insert_lookup_L. eauto.
  - intros q oq [Hq Hni].
    assert (Hqp : q <> p).
    { intros ->. apply Hni. by exists thiz. }
    split_and!.
    + split.
      * unfold finalize_world. wsimpl. by rewrite lookup_delete_ne.
      * intros [t Ht]. unfold finalize_world in Ht. wsimpl in Ht.
        rewrite lookup_insert in Ht. case_decide.
        -- injection Ht as <-. by rewrite (wf_heap_null _ Hwf) in Hq.
        -- apply Hni. by exists t.
    + rewrite removed_app. simpl. rewrite removed_app, !removed_drop_ev. simpl.
      rewrite list_elem_of_singleton. done.
    + rewrite destroyed_app. simpl. rewrite destroyed_app, !destroyed_drop_ev. simpl.
      rewrite list_elem_of_singleton. done.
    + intros h Hh. unfold finalize_world. wsimpl.
      assert (h <> c).
      { intros ->. apply Hqp. apply (wf_handles _ Hwf q p oq o c); [done..|].
        split; [apply Hh|by left]. }
      assert (h <> r).
      { intros ->. apply Hqp. apply (wf_handles _ Hwf q p oq o r); [done..|].
        split; [apply Hh|by right]. }
      by rewrite !lookup_drop_ref.
Qed.

Lemma frame_same w t :
  (∀ q oq, orphan w q oq → (q ∉ removed t) ∧ (q ∉ destroyed t)) → frame w w t.
Proof.
  intros H. split_and!; [done..|]. intros q oq Hq.
  destruct (H _ _ Hq). by split_and!.
Qed.

Lemma callable_frame w w' t c : frame w w' t → callable w c → callable w' c.
Proof.
  intros (_ & Hd & _) [Hs Hc]. split; [|done].
  by rewrite <- elem_of_dom, Hd, elem_of_dom.
Qed.

Lemma do_call_wf env c w :
  env <> NULL → thread_env w = env → wf w → callable w c →
  ∃ w' t, do_call env c w = Ok tt w' t ∧ wf w' ∧ frame w w' t.
Proof.
  intros He Ht Hwf [[v Hs] Hc]. destruct c as [thiz weak_this status|thiz]; simpl in *.
  - destruct (decide (status = NO_ERROR)) as [->|Hst].
    + eexists _, _. split; [by apply setup_accepted|].
      split; [by apply wf_setup_accepted|by apply frame_setup_accepted].
    + eexists _, _. split; [by apply setup_rejected|]. split; [done|].
      apply frame_same. intros q oq [Hq _].
      rewrite !removed_app, !destroyed_app, removed_add_ev, destroyed_add_ev,
        !removed_drop_ev, !destroyed_drop_ev. simpl.
      split; [apply not_elem_of_nil|]. rewrite list_elem_of_singleton.
      intros ->. by rewrite alloc_lookup in Hq.
  - destruct (decide (v = NULL)) as [->|Hv].
    + eexists _, _. split; [eapply finalize_empty; eauto using wf_unlocked, wf_fid|].
      split; [done|]. apply frame_same. intros q oq _. simpl.
      split; apply not_elem_of_nil.
    + pose proof (wf_slot _ Hwf _ _ Hs Hv) as Hreg.
      pose proof Hreg as [o Ho]%(wf_registry _ Hwf).
      destruct (wf_count _ Hwf _ _ Ho) as [[_ Hn]|[Hni _]];
        [|destruct Hni; by exists thiz].
      destruct (wf_members _ Hwf _ _ Ho) as (c & r & Hmc & Hmr & _).
      eexists _, _. split;
        [eapply finalize_installed; eauto using wf_unlocked, wf_fid|].
      split; [by eapply wf_finalize_installed|by eapply frame_finalize_installed].
Qed.

Lemma run_cons env c cs w w1 t1 :
  do_call env c w = Ok tt w1 t1 →
  run env (c :: cs) w = prepend t1 (run env cs w1).
Proof. intros H. simpl. by rewrite (bind_step _ _ _ _ _ _ H). Qed.

Lemma run_wf env cs w :
  env <> NULL → thread_env w = env → wf w → Forall (callable w) cs →
  ∃ w' t, run env cs w = Ok tt w' t ∧ wf w' ∧ frame w w' t.
Proof.
  intros He. revert w. induction cs as [|c cs IH]; intros w Ht Hwf Hcs.
  - exists w, []. split; [done|]. split; [done|apply frame_refl].
  - apply Forall_cons in Hcs as [Hc Hcs].
    destruct (do_call_wf _ _ _ He Ht Hwf Hc) as (w1 & t1 & H1 & Hwf1 & Hf1).
    destruct (IH w1) as (w2 & t2 & H2 & Hwf2 & Hf2).
    + destruct Hf1 as (-> & _). done.
    + done.
    + eapply Forall_impl; [exact Hcs|]. intros ?. by apply callable_frame with t1.
    + exists w2, (t1 ++ t2). rewrite (run_cons _ _ _ _ _ _ H1), H2.
      split; [done|]. split; [done|by eapply frame_trans].
Qed.

(** ** Delivery *)

Lemma onEvent_eq this group flags o c r cls w :
  thread_env w <> NULL → this <> NULL → heap w !! this = Some o →
  mClass o = Some c → mObject o = Some r → globals w !! c = Some cls →
  (r = NULL ∨ is_Some (globals w !! r)) →
  pending w = false →
  gAudioVolumeChangeHandlerMethods w = Some postEventFromNative_id →
  let vals := payload (proxy_of w this) group flags in
  onAudioVolumeGroupChanged this group flags w =
    Ok tt w ([EvCallStaticVoidMethod cls "postEventFromNative" vals;
              EvExceptionCheck (java_throws vals)]
             ++ exception_ev (java_throws vals)).
Proof.
  intros He Hp Ho Hc Hr Hcls Hres Hq Hm vals.
  pose proof (neq_eqb _ _ He) as He'. pose proof (neq_eqb _ _ Hp) as Hp'.
  assert (Hv : mapM (resolve (globals w))
                 [JObject r; JInt AUDIOVOLUMEGROUP_EVENT_VOLUME_CHANGED;
                  JInt group; JInt flags; JObject NULL] = Some vals).
  { unfold vals, payload, proxy_of. rewrite Ho. simpl. rewrite Hr. simpl.
    destruct (Z.eqb_spec r NULL) as [->|Hr0]; [done|].
    destruct Hres as [?|[v Hv]]; [done|]. by rewrite Hv. }
  unfold onAudioVolumeGroupChanged, getJNIEnv, deref, member,
    CallStaticVoidMethod, ExceptionCheck, ExceptionClear, via_env, ALOG.
  mexec. rewrite Hv. simpl sig_params. cbn [args_match jvalue_has_type andb].
  mexec. unfold exception_ev.
  destruct (java_throws vals) eqn:Hthrow; mexec.
  - apply Ok_eq; [weq|done].
  - apply Ok_eq; [weq|done].
Qed.

Lemma onEvent_wf this group flags w :
  wf w → thread_env w <> NULL → is_Some (heap w !! this) →
  let vals := payload (proxy_of w this) group flags in
  onAudioVolumeGroupChanged this group flags w =
    Ok tt w ([EvCallStaticVoidMethod (class_of w this) "postEventFromNative" vals;
              EvExceptionCheck (java_throws vals)]
             ++ exception_ev (java_throws vals)).
Proof.
  intros Hwf He [o Ho] vals.
  assert (this <> NULL) by (intros ->; by rewrite (wf_heap_null _ Hwf) in Ho).
  destruct (wf_members _ Hwf _ _ Ho) as (c & r & Hc & Hr & _ & _ & [cls Hcls] & Hres).
  assert (class_of w this = cls) as ->.
  { unfold class_of. rewrite Ho. simpl. rewrite Hc. simpl. by rewrite Hcls. }
  eapply onEvent_eq; eauto using wf_quiet, wf_mid.
Qed.

(** ** Properties of the traces used in the statements *)

Lemma written_app thiz t1 t2 :
  written thiz (t1 ++ t2) = written thiz t1 ++ written thiz t2.
Proof.
  induction t1 as [|e t1 IH]; [done|].
  destruct e; simpl; rewrite ?IH; try done. by destruct (_ =? _).
Qed.

Lemma acquired_app t1 t2 : acquired (t1 ++ t2) = acquired t1 ++ acquired t2.
Proof.
  induction t1 as [|e t1 IH]; [done|]. destruct e; simpl; by rewrite ?IH.
Qed.

Lemma released_app t1 t2 : released (t1 ++ t2) = released t1 ++ released t2.
Proof.
  induction t1 as [|e t1 IH]; [done|]. destruct e; simpl; by rewrite ?IH.
Qed.

Lemma dispatched_app t1 t2 :
  dispatched (t1 ++ t2) = dispatched t1 ++ dispatched t2.
Proof.
  induction t1 as [|e t1 IH]; [done|]. destruct e; simpl; by rewrite ?IH.
Qed.

Lemma written_inc_ev thiz p id : written thiz (inc_ev p id) = [].
Proof. unfold inc_ev. by destruct (p =? NULL). Qed.
Lemma written_dec_ev thiz p id : written thiz (dec_ev p id) = [].
Proof. unfold dec_ev. by destruct (p =? NULL). Qed.
Lemma written_add_ev thiz h o : written thiz (add_ev h o) = [].
Proof. unfold add_ev. by destruct (o =? NULL). Qed.
Lemma written_drop_ev thiz h : written thiz (drop_ev h) = [].
Proof. unfold drop_ev. by destruct (h =? NULL). Qed.
Lemma acquired_drop_ev h : acquired (drop_ev h) = [].
Proof. unfold drop_ev. by destruct (h =? NULL). Qed.
Lemma released_add_ev h o : released (add_ev h o) = [].
Proof. unfold add_ev. by destruct (o =? NULL). Qed.
Lemma dispatched_exception_ev b : dispatched (exception_ev b) = [].
Proof. by destruct b. Qed.

Lemma alter_null (f : JNIAudioVolumeChangeHandler → JNIAudioVolumeChangeHandler)
    (h : gmap Z JNIAudioVolumeChangeHandler) p :
  h !! NULL = None → (if p =? NULL then h else alter f p h) = alter f p h.
Proof.
  intros Hn. destruct (Z.eqb_spec p NULL) as [->|]; [|done].
  apply map_eq. intros i. rewrite lookup_alter. case_decide; [subst|done].
  by rewrite Hn.
Qed.

Lemma lookup_alter_add d p (h : gmap Z JNIAudioVolumeChangeHandler) q :
  from_option mStrong 0 (alter (add_strong d) p h !! q) =
  from_option mStrong 0 (h !! q)
  + (if decide (p = q) then if decide (is_Some (h !! q)) then d else 0 else 0).
Proof.
  rewrite lookup_alter. case_decide as E; [subst p|lia].
  case_decide as E'.
  - destruct E' as [o Ho]. by rewrite Ho.
  - destruct (h !! q) as [o|] eqn:Ho; [destruct E'; eauto|simpl; lia].
Qed.

Lemma slot_of_wf w thiz : wf w → slot_holds_at_most_one w thiz.
Proof.
  intros Hwf p Hs Hp. pose proof (wf_slot _ Hwf _ _ Hs Hp) as Hreg.
  pose proof Hreg as [o Ho]%(wf_registry _ Hwf). exists o.
  destruct (wf_count _ Hwf _ _ Ho) as [[_ Hn]|[Hni _]];
    [|destruct Hni; by exists thiz].
  split_and!; [done..|]. intros thiz' Hs'.
  by apply (wf_slot_inj _ Hwf _ _ p).
Qed.

Lemma finalize_wf env thiz v w :
  env <> NULL → thread_env w = env → wf w → jfields w !! thiz = Some v →
  ∃ w' t, eventHandlerFinalize env thiz w = Ok tt w' t
          ∧ wf w' ∧ thread_env w' = env
          ∧ jfields w' !! thiz = Some NULL
          ∧ removed t = (if v =? NULL then [] else [v])
          ∧ destroyed t = (if v =? NULL then [] else [v])
          ∧ (v = NULL → w' = w).
Proof.
  intros He Ht Hwf Hs. destruct (Z.eqb_spec v NULL) as [->|Hv].
  - exists w. eexists. split; [eapply finalize_empty; eauto using wf_unlocked, wf_fid|].
    by split_and!.
  - pose proof (wf_slot _ Hwf _ _ Hs Hv) as Hreg.
    pose proof Hreg as [o Ho]%(wf_registry _ Hwf).
    destruct (wf_count _ Hwf _ _ Ho) as [[_ Hn]|[Hni _]];
      [|destruct Hni; by exists thiz].
    destruct (wf_members _ Hwf _ _ Ho) as (c & r & Hmc & Hmr & _).
    eexists _, _. split;
      [eapply finalize_installed; eauto using wf_unlocked, wf_fid|].
    split; [by eapply wf_finalize_installed|].
    rewrite removed_app, destroyed_app. simpl.
    rewrite !removed_app, !destroyed_app, !removed_drop_ev, !destroyed_drop_ev.
    unfold finalize_world. wsimpl. rewrite lookup_insert_eq. by split_and!.
Qed.

(** The bridge that an accepted setup installs. *)
Lemma setup_world_bridge thiz weak_this f w :
  GetObjectClass thiz <> NULL →
  let w1 := setup_world thiz weak_this f w in
  let b := alloc (dom (heap w)) in
  jfields w1 !! thiz = Some b ∧ b <> NULL ∧ b ∈ registry w1
  ∧ is_Some (heap w1 !! b) ∧ strong w1 b = 2
  ∧ class_of w1 b = GetObjectClass thiz ∧ proxy_of w1 b = weak_this.
Proof.
  intros Hc w1 b. subst w1 b. unfold setup_world, strong, class_of, proxy_of. wsimpl.
  rewrite !lookup_insert_eq.
  set (c := alloc (dom (globals w))).
  set (g1 := <[c:=GetObjectClass thiz]> (globals w)).
  split; [done|]. split; [apply alloc_nonnull|].
  split; [apply elem_of_union_l; by apply elem_of_singleton|].
  split; [done|]. split; [done|]. split.
  - cbn [mbind option_bind mClass default]. unfold add_ref, new_ref.
    assert (g1 !! c = Some (GetObjectClass thiz)) as Hg1
      by (unfold g1; by rewrite lookup_insert_eq).
    destruct (weak_this =? NULL); [by rewrite Hg1|].
    rewrite lookup_insert_ne; [by rewrite Hg1|].
    intros E. pose proof (alloc_lookup g1) as Hf. rewrite E in Hf. congruence.
  - cbn [mbind option_bind mObject default]. unfold add_ref, new_ref.
    destruct (Z.eqb_spec weak_this NULL) as [->|Hw]; [done|].
    rewrite (neq_eqb _ _ (alloc_nonnull _)). by rewrite lookup_insert_eq.
Qed.

Lemma setup_world_globals thiz weak_this f w h :
  is_Some (globals w !! h) →
  globals (setup_world thiz weak_this f w) !! h = globals w !! h.
Proof.
  intros [v Hv]. unfold setup_world. wsimpl. unfold add_ref, new_ref.
  set (c := alloc (dom (globals w))).
  assert (h <> c) by (intros ->; unfold c in Hv; by rewrite alloc_lookup in Hv).
  destruct (weak_this =? NULL); [by rewrite lookup_insert_ne|].
  rewrite lookup_insert_ne; [by rewrite lookup_insert_ne|].
  intros E. pose proof (alloc_lookup (<[c:=GetObjectClass thiz]> (globals w))) as Hf.
  rewrite E, lookup_insert_ne, Hv in Hf; done.
Qed.

(** The class and the proxy of a bridge depend on its two members and on what
    they stand for only. *)
Lemma class_proxy_stable w w' p o o' :
  wf w → heap w !! p = Some o → heap w' !! p = Some o' →
  mClass o' = mClass o → mObject o' = mObject o →
  (∀ h, owns o h → globals w' !! h = globals w !! h) →
  class_of w' p = class_of w p ∧ proxy_of w' p = proxy_of w p.
Proof.
  intros Hwf Ho Ho' Hc Hr Hg. unfold class_of, proxy_of. rewrite Ho, Ho'.
  cbn [mbind option_bind]. rewrite Hc, Hr.
  destruct (wf_members _ Hwf _ _ Ho) as (c & r & Ec & Er & Hc0 & _).
  rewrite Ec, Er. cbn [mbind option_bind]. split.
  - rewrite Hg; [done|]. split; [done|by left].
  - destruct (Z.eqb_spec r NULL) as [->|Hr0]; [done|].
    rewrite Hg; [done|]. split; [done|by right].
Qed.

(** ** No slot ever dangles *)

Lemma slots_after_app s t1 t2 :
  slots_after s (t1 ++ t2) = slots_after (slots_after s t1) t2.
Proof.
  revert s. induction t1 as [|e t1 IH]; intros s; [done|].
  destruct e; simpl; by rewrite IH.
Qed.

Lemma no_slot_dangles_app s t1 t2 :
  no_slot_dangles s (t1 ++ t2)
  ↔ no_slot_dangles s t1 ∧ no_slot_dangles (slots_after s t1) t2.
Proof.
  revert s. induction t1 as [|e t1 IH]; intros s; [simpl; tauto|].
  destruct e; simpl; rewrite ?IH; tauto.
Qed.

Lemma silent_trace s t :
  Forall silent t → slots_after s t = s ∧ no_slot_dangles s t.
Proof.
  induction 1 as [|e t He Ht IH]; [done|].
  destruct e; simpl in *; done.
Qed.

Lemma silent_add_ev h o : Forall silent (add_ev h o).
Proof. unfold add_ev. destruct (o =? NULL); repeat constructor. Qed.
Lemma silent_drop_ev h : Forall silent (drop_ev h).
Proof. unfold drop_ev. destruct (h =? NULL); repeat constructor. Qed.
Lemma silent_inc_ev p id : Forall silent (inc_ev p id).
Proof. unfold inc_ev. destruct (p =? NULL); repeat constructor. Qed.
Lemma silent_dec_ev p id : Forall silent (dec_ev p id).
Proof. unfold dec_ev. destruct (p =? NULL); repeat constructor. Qed.

Lemma not_in_slot_of_fresh w :
  wf w → ∀ thiz, jfields w !! thiz <> Some (alloc (dom (heap w))).
Proof.
  intros Hwf thiz Hs.
  pose proof (wf_slot _ Hwf _ _ Hs (alloc_nonnull _)) as Hreg.
  apply (wf_registry _ Hwf) in Hreg as [o Ho]. by rewrite alloc_lookup in Ho.
Qed.

(** The slots and the destructions along a trace made of explicit events and
    of silent pieces. *)
Ltac walk :=
  repeat first
    [ progress cbn [no_slot_dangles slots_after]
    | rewrite no_slot_dangles_app
    | rewrite slots_after_app
    | rewrite (proj1 (silent_trace _ _ (silent_add_ev _ _)))
    | rewrite (proj1 (silent_trace _ _ (silent_drop_ev _)))
    | rewrite (proj1 (silent_trace _ _ (silent_inc_ev _ _)))
    | rewrite (proj1 (silent_trace _ _ (silent_dec_ev _ _))) ].

Ltac silence :=
  try (apply silent_trace;
       auto using silent_add_ev, silent_drop_ev, silent_inc_ev, silent_dec_ev).

Lemma do_call_safe env c w w' t :
  env <> NULL → thread_env w = env → wf w → callable w c →
  do_call env c w = Ok tt w' t →
  no_slot_dangles (jfields w) t ∧ slots_after (jfields w) t = jfields w'.
Proof.
  intros He Ht Hwf [[v Hs] Hc] Hrun.
  destruct c as [thiz weak_this status|thiz]; simpl in *.
  - destruct (decide (status = NO_ERROR)) as [->|Hst].
    + rewrite (setup_accepted _ _ _ _ _ He Hc Hwf Hs) in Hrun.
      injection Hrun as <- <-. unfold setup_trace, setup_prefix. walk.
      split; [|done]. split_and!; try done; silence.
    + rewrite (setup_rejected _ _ _ _ _ He Ht Hc Hst) in Hrun.
      injection Hrun as <- <-. walk.
      split; [|done]. split_and!; try done; silence.
      by apply not_in_slot_of_fresh.
  - destruct (decide (v = NULL)) as [->|Hv].
    + erewrite finalize_empty in Hrun; eauto using wf_unlocked, wf_fid.
      injection Hrun as <- <-. walk. split; [done|]. by apply insert_id.
    + pose proof (wf_slot _ Hwf _ _ Hs Hv) as Hreg.
      pose proof Hreg as [o Ho]%(wf_registry _ Hwf).
      destruct (wf_count _ Hwf _ _ Ho) as [[_ Hn]|[Hni _]];
        [|destruct Hni; by exists thiz].
      destruct (wf_members _ Hwf _ _ Ho) as (c & r & Hmc & Hmr & _).
      erewrite finalize_installed in Hrun; eauto using wf_unlocked, wf_fid.
      injection Hrun as <- <-. walk.
      split; [|done]. split_and!; try done; silence.
      intros thiz' Hs'. rewrite lookup_insert in Hs'. case_decide; [congruence|].
      pose proof (wf_slot_inj _ Hwf _ _ _ Hs' Hs Hv). congruence.
Qed.

Lemma run_safe env cs w w' t :
  env <> NULL → thread_env w = env → wf w → Forall (callable w) cs →
  run env cs w = Ok tt w' t →
  no_slot_dangles (jfields w) t ∧ slots_after (jfields w) t = jfields w'.
Proof.
  intros He. revert w t. induction cs as [|c cs IH]; intros w t Ht Hwf Hcs Hrun.
  - simpl in Hrun. injection Hrun as <- <-. done.
  - apply Forall_cons in Hcs as [Hc Hcs].
    destruct (do_call_wf _ _ _ He Ht Hwf Hc) as (w1 & t1 & H1 & Hwf1 & Hf1).
    rewrite (run_cons _ _ _ _ _ _ H1) in Hrun.
    destruct (run env cs w1) as [[] w2 t2|] eqn:H2; [|done].
    simpl in Hrun. injection Hrun as <- <-.
    destruct (do_call_safe _ _ _ _ _ He Ht Hwf Hc H1) as [Hs1 Ha1].
    destruct (IH w1 t2) as [Hs2 Ha2]; [..|done|].
    + destruct Hf1 as (-> & _). done.
    + done.
    + eapply Forall_impl; [exact Hcs|]. intros ?. by apply callable_frame with t1.
    + rewrite no_slot_dangles_app, slots_after_app, Ha1. done.
Qed.

(** A registered process in which no bridge was ever created is in a state
    between calls. *)
Lemma wf_without_bridges w :
  heap w = ∅ → registry w = ∅ →
  (∀ thiz v, jfields w !! thiz = Some v → v = NULL) →
  gLock w = false → pending w = false →
  gAudioVolumeChangeHandlerFields w = Some mJniCallback_id →
  gAudioVolumeChangeHandlerMethods w = Some postEventFromNative_id →
  wf w.
Proof.
  intros Hh Hr Hs Hl Hq Hf Hm. constructor; try done.
  - by rewrite Hh.
  - intros thiz p Hp Hp0. by apply Hs in Hp.
  - intros t1 t2 p Hp _ Hp0. by apply Hs in Hp.
  - intros p. rewrite Hh, Hr, lookup_empty. split.
    + intros Hin. by apply not_elem_of_empty in Hin.
    + by intros [? ?].
  - intros p o. by rewrite Hh.
  - intros p o. by rewrite Hh.
  - intros p q o o' h. by rewrite Hh.
Qed.

Lemma setJniCallback_swap env thiz callback old w f :
  env <> NULL → gLock w = false → gAudioVolumeChangeHandlerFields w = Some f →
  heap w !! NULL = None →
  jfields w !! thiz = Some old →
  (old <> NULL → 1 <= strong w old) →
  (callback <> NULL → is_Some (heap w !! callback)) →
  ∃ w' t,
    setJniCallback env thiz callback w = Ok old w' t
    ∧ t = [EvLock; EvGetLongField thiz old] ++ inc_ev old IdSp
          ++ inc_ev callback IdSetJniCallback ++ dec_ev old IdSetJniCallback
          ++ [EvSetLongField thiz callback; EvUnlock]
    ∧ written thiz t = [callback]
    ∧ destroyed t = []
    ∧ jfields w' = <[thiz:=callback]> (jfields w)
    ∧ gLock w' = false
    ∧ dom (heap w') = dom (heap w)
    ∧ (∀ q, strong w' q =
            strong w q
            + (if decide (callback = q ∧ is_Some (heap w !! q)) then 1 else 0))
    ∧ (old <> NULL → 1 <= strong w' old).
Proof.
  intros He Hl Hf Hn Hs Hold Hcb.
  cut (∃ w' t,
    setJniCallback env thiz callback w = Ok old w' t
    ∧ t = [EvLock; EvGetLongField thiz old] ++ inc_ev old IdSp
          ++ inc_ev callback IdSetJniCallback ++ dec_ev old IdSetJniCallback
          ++ [EvSetLongField thiz callback; EvUnlock]
    ∧ written thiz t = [callback]
    ∧ destroyed t = []
    ∧ jfields w' = <[thiz:=callback]> (jfields w)
    ∧ gLock w' = false
    ∧ dom (heap w') = dom (heap w)
    ∧ (∀ q, strong w' q =
            strong w q
            + (if decide (callback = q ∧ is_Some (heap w !! q)) then 1 else 0))).
  { intros (w' & t & H1 & H2 & H3 & H4 & H5 & H6 & H7 & H8).
    exists w', t. split_and!; try done.
    intros Ho. rewrite H8. specialize (Hold Ho). case_decide; lia. }
  eexists _, _. split; [by eapply setJniCallback_closed|].
  split; [done|].
  rewrite !written_app, !destroyed_app, !written_inc_ev, written_dec_ev,
    !destroyed_inc_ev, destroyed_dec_ev.
  simpl. rewrite Z.eqb_refl. unfold strong. wsimpl.
  assert (∀ p (h : gmap Z JNIAudioVolumeChangeHandler), h !! NULL = None →
            alter (add_strong 1) p h !! NULL = None) as Hup.
  { intros p h Hh. rewrite lookup_alter. case_decide as E; [|done].
    by rewrite E, Hh. }
  rewrite (alter_null (add_strong 1) (heap w) old Hn).
  rewrite (alter_null (add_strong 1) _ callback) by auto.
  rewrite (alter_null (add_strong (-1)) _ old) by auto.
  split_and!; try done.
  - by rewrite !dom_alter_L.
  - intros q. rewrite !lookup_alter_add.
    assert (is_Some (alter (add_strong 1) callback (alter (add_strong 1) old (heap w)) !! q)
            ↔ is_Some (heap w !! q)) as E1.
    { rewrite !lookup_alter. repeat case_decide; subst; rewrite ?fmap_is_Some;
        rewrite ?lookup_alter_eq, ?fmap_is_Some; done. }
    assert (is_Some (alter (add_strong 1) old (heap w) !! q)
            ↔ is_Some (heap w !! q)) as E2.
    { rewrite !lookup_alter. repeat case_decide; subst; rewrite ?fmap_is_Some; done. }
    repeat case_decide; try lia; tauto.
Qed.

Lemma setJniCallback_locked env thiz callback w :
  gLock w = true → setJniCallback env thiz callback w = Fault Deadlock [].
Proof.
  intros Hl. unfold setJniCallback, Autolock_acquire.
  rewrite !bind_bind, bind_gets. lazy beta. rewrite Hl. by rewrite bind_raise.
Qed.

(** ** The claims *)

(** C1, as the code has it.  From a state between calls, every sequence of
    setups and teardowns runs without fault, and after each call of the
    sequence the slot of every owner holds nothing or exactly one live
    bridge: counted once for the slot and once for the event source,
    registered there, and held by no other slot.  At no point of the run,
    within a call or between two calls, is a bridge destroyed that a slot
    holds at that point.  So a bridge in a slot is a registered bridge.  The
    converse is not stated, and does not hold: the slot does not say whether
    a bridge is registered for its owner. *)
Theorem slot_holds_at_most_one_bridge env w cs n :
  env <> NULL → thread_env w = env → wf w → Forall (callable w) cs →
  ∃ w' t,
    run env (take n cs) w = Ok tt w' t
    ∧ (∀ thiz, slot_holds_at_most_one w' thiz)
    ∧ no_slot_dangles (jfields w) t.
Proof.
  intros He Ht Hwf Hcs.
  assert (Hcs' : Forall (callable w) (take n cs)) by (by apply Forall_take).
  destruct (run_wf env (take n cs) w He Ht Hwf Hcs')
    as (w' & t & Hrun & Hwf' & Hfr).
  exists w', t. split; [done|]. split; [intros thiz; by apply slot_of_wf|].
  by destruct (run_safe env (take n cs) w w' t He Ht Hwf Hcs' Hrun).
Qed.

(** C2, as the code has it.  [setJniCallback] takes [gLock]: it does not
    proceed when it finds the lock held, and once it has the lock no other
    swap proceeds.  With the lock it does exactly these
    steps, in this order: it reads the old value of the slot; the local
    [sp<>] that will be returned takes a reference of its own on the old
    bridge if there is one; it takes a reference on the new bridge if there
    is one; it drops the slot's reference on the old bridge if there is one;
    it writes the new value; it gives up the lock and returns the old value.
    The slot is written once; nothing is destroyed during the swap;
    afterwards the new bridge counts one reference more, and the old bridge,
    now held by the returned [sp<>], counts what it counted and is still
    alive.  The two guarantees that the claim draws from the order do not
    hold: the slot's reference on the old bridge is dropped before the slot
    is rewritten, so there is a point at which the slot shows the old bridge
    and [setJniCallback] counts no reference on it; and when the new bridge
    is the old one there is a point at which it counts two.  Here the slot
    holds [old], a live bridge or null, and [callback] is a live bridge or
    null, the same as [old] or not. *)
Theorem setJniCallback_swaps_under_the_lock env thiz callback old w f :
  env <> NULL → gLock w = false → gAudioVolumeChangeHandlerFields w = Some f →
  heap w !! NULL = None →
  jfields w !! thiz = Some old →
  (old <> NULL → 1 <= strong w old) →
  (callback <> NULL → is_Some (heap w !! callback)) →
  ∃ w' t,
    setJniCallback env thiz callback w = Ok old w' t
    ∧ t = [EvLock; EvGetLongField thiz old] ++ inc_ev old IdSp
          ++ inc_ev callback IdSetJniCallback ++ dec_ev old IdSetJniCallback
          ++ [EvSetLongField thiz callback; EvUnlock]
    ∧ (∀ w0, gLock w0 = true →
             setJniCallback env thiz callback w0 = Fault Deadlock [])
    ∧ (∃ w1, Autolock_acquire w = Ok tt w1 [EvLock]
             ∧ ∀ thiz' callback',
                 setJniCallback env thiz' callback' w1 = Fault Deadlock [])
    ∧ written thiz t = [callback]
    ∧ destroyed t = []
    ∧ jfields w' = <[thiz:=callback]> (jfields w)
    ∧ gLock w' = false
    ∧ dom (heap w') = dom (heap w)
    ∧ (∀ q, strong w' q =
            strong w q
            + (if decide (callback = q ∧ is_Some (heap w !! q)) then 1 else 0))
    ∧ (old <> NULL → 1 <= strong w' old)
    ∧ (old <> NULL → callback <> old →
       (true, 0) ∈ slot_points thiz old old 1 t)
    ∧ (old <> NULL → callback = old →
       (true, 2) ∈ slot_points thiz old old 1 t).
Proof.
  intros He Hl Hf Hn Hs Hold Hcb.
  destruct (setJniCallback_swap env thiz callback old w f He Hl Hf Hn Hs Hold Hcb)
    as (w' & t & H1 & H2 & H3 & H4 & H5 & H6 & H7 & H8 & H9).
  exists w', t. split; [done|]. split; [done|].
  split; [intros w0 H0; by apply setJniCallback_locked|].
  split.
  { exists (set_gLock true w). split.
    - unfold Autolock_acquire. rewrite bind_gets, Hl. lazy beta iota.
      by rewrite bind_modify.
    - intros thiz' callback'. by apply setJniCallback_locked. }
  split; [done|]. split; [done|]. split; [done|]. split; [done|].
  split; [done|]. split; [done|]. split; [done|]. split.
  - intros Ho Hne. rewrite H2. unfold inc_ev, dec_ev. rewrite (neq_eqb _ _ Ho).
    destruct (callback =? NULL); cbn [app slot_points];
      rewrite ?Z.eqb_refl, ?(neq_eqb _ _ Hne);
      repeat first [apply list_elem_of_here | apply list_elem_of_further].
  - intros Ho <-. rewrite H2. unfold inc_ev, dec_ev. rewrite (neq_eqb _ _ Ho).
    cbn [app slot_points]. rewrite ?Z.eqb_refl.
    repeat first [apply list_elem_of_here | apply list_elem_of_further].
Qed.

(** C3.  A setup whose registration the event source rejects returns
    normally and leaves the whole world, the owner's slot included, as it
    was: the slot is not written, and the global references the constructor
    took are exactly the ones the destructor gives back. *)
Theorem rejected_setup_leaves_slot_and_leaks_nothing env thiz weak_this status w :
  env <> NULL → thread_env w = env → GetObjectClass thiz <> NULL →
  status <> NO_ERROR →
  ∃ t, eventHandlerSetup env thiz weak_this status w = Ok tt w t
       ∧ written thiz t = []
       ∧ removed t = []
       ∧ acquired t <> []
       ∧ released t = reverse (acquired t)
       ∧ destroyed t = [alloc (dom (heap w))].
Proof.
  intros He Ht Hc Hs. eexists. split; [by apply setup_rejected|].
  rewrite !written_app, !removed_app, !acquired_app, !released_app, !destroyed_app.
  rewrite written_add_ev, !written_drop_ev, removed_add_ev, !removed_drop_ev,
    !acquired_drop_ev, released_add_ev, destroyed_add_ev, !destroyed_drop_ev.
  simpl. split_and!; try done.
  unfold add_ev, drop_ev, new_ref.
  rewrite (neq_eqb _ _ (alloc_nonnull (dom (globals w)))).
  destruct (weak_this =? NULL); simpl; [done|].
  by rewrite (neq_eqb _ _ (alloc_nonnull _)).
Qed.

(** C4.  When the Java method raises an exception on an event, the delivery
    checks it, logs a warning, clears it and returns normally; the world is
    as before, so the bridge is still in the slot and in the registry of the
    event source, and the next delivery calls the Java method again. *)
Theorem dispatch_error_is_contained thiz this group flags group' flags' w :
  wf w → thread_env w <> NULL → jfields w !! thiz = Some this → this <> NULL →
  java_throws (payload (proxy_of w this) group flags) = true →
  ∃ t',
    onAudioVolumeGroupChanged this group flags w =
      Ok tt w
         [EvCallStaticVoidMethod (class_of w this) "postEventFromNative"
            (payload (proxy_of w this) group flags);
          EvExceptionCheck true;
          EvLog LOG_WARN "An exception occurred while notifying an event.";
          EvExceptionClear]
    ∧ this ∈ registry w
    ∧ onAudioVolumeGroupChanged this group' flags' w = Ok tt w t'
    ∧ dispatched t' =
        [(class_of w this, "postEventFromNative",
          payload (proxy_of w this) group' flags')].
Proof.
  intros Hwf He Hs Hp Hthrow.
  pose proof (wf_slot _ Hwf _ _ Hs Hp) as Hreg.
  pose proof Hreg as Halive%(wf_registry _ Hwf).
  eexists. split_and!.
  - rewrite (onEvent_wf _ _ _ _ Hwf He Halive). cbv zeta. by rewrite Hthrow.
  - done.
  - by rewrite (onEvent_wf _ _ _ _ Hwf He Halive).
  - cbv zeta. rewrite dispatched_app, dispatched_exception_ev. done.
Qed.

(** C5, as the code has it.  On a thread that is attached to the VM, each
    event delivered to a registered bridge, whether a slot holds it or not,
    calls [postEventFromNative] of the bridge's class exactly once, with five
    arguments, the parameters of the signature
    [(Ljava/lang/Object;IIILjava/lang/Object;)V]: the observer proxy of the
    bridge, the event kind, the group, the flags and a null object.  There
    is no third integer.  After a setup that the event source accepts, the
    bridge in the slot is such a bridge, its class is the class of the owner
    and its proxy the observer proxy of the setup. *)
Theorem event_is_dispatched_once_with_five_arguments
    env owner_ proxy old this group flags w :
  env <> NULL → thread_env w = env → wf w →
  this ∈ registry w →
  jfields w !! owner_ = Some old → GetObjectClass owner_ <> NULL →
  (∃ t,
     onAudioVolumeGroupChanged this group flags w = Ok tt w t
     ∧ dispatched t =
         [(class_of w this, "postEventFromNative",
           [JObject (proxy_of w this);
            JInt AUDIOVOLUMEGROUP_EVENT_VOLUME_CHANGED;
            JInt group; JInt flags; JObject NULL])])
  ∧ (∃ w1 t1 b t2,
       eventHandlerSetup env owner_ proxy NO_ERROR w = Ok tt w1 t1
       ∧ jfields w1 !! owner_ = Some b ∧ b <> NULL ∧ b ∈ registry w1
       ∧ onAudioVolumeGroupChanged b group flags w1 = Ok tt w1 t2
       ∧ dispatched t2 =
           [(GetObjectClass owner_, "postEventFromNative",
             [JObject proxy; JInt AUDIOVOLUMEGROUP_EVENT_VOLUME_CHANGED;
              JInt group; JInt flags; JObject NULL])])
  ∧ sig_params false (m_sig postEventFromNative_id)
    = Some [TObject; TInt; TInt; TInt; TObject].
Proof.
  intros He Ht Hwf Hreg Hs Hc.
  pose proof (setup_accepted env owner_ proxy old w He Hc Hwf Hs) as Hsetup.
  pose proof (wf_setup_accepted owner_ proxy old w Hc Hwf Hs) as Hwf1.
  destruct (setup_world_bridge owner_ proxy (alter (add_strong (-1)) old) w Hc)
    as (Hb & Hb0 & Hbr & Halive & _ & Hcls & Hprox).
  split; [|split; [|done]].
  - eexists. split.
    + apply onEvent_wf; [done|congruence|by apply (wf_registry _ Hwf)].
    + cbv zeta. by rewrite dispatched_app, dispatched_exception_ev.
  - eexists _, _, _, _. split; [exact Hsetup|]. split; [exact Hb|].
    split; [done|]. split; [exact Hbr|]. split.
    + apply onEvent_wf; [done| |done]. unfold setup_world. wsimpl. by rewrite Ht.
    + cbv zeta. rewrite dispatched_app, dispatched_exception_ev, Hcls, Hprox. done.
Qed.

(** C6.  A second accepted setup on an owner puts a new bridge in the slot
    and in the registry; the bridge of the first setup loses the slot's
    reference and is in no slot any more, and
    [removeAudioVolumeGroupCallback] is not called at all.  The teardown that
    follows calls it once, for the second bridge. *)
Theorem second_setup_supersedes_first env owner_ proxy1 proxy2 w :
  env <> NULL → thread_env w = env → wf w →
  is_Some (jfields w !! owner_) → GetObjectClass owner_ <> NULL →
  ∃ w1 t1 w2 t2 w3 t3 b1 b2,
    eventHandlerSetup env owner_ proxy1 NO_ERROR w = Ok tt w1 t1
    ∧ jfields w1 !! owner_ = Some b1 ∧ b1 <> NULL ∧ strong w1 b1 = 2
    ∧ eventHandlerSetup env owner_ proxy2 NO_ERROR w1 = Ok tt w2 t2
    ∧ jfields w2 !! owner_ = Some b2 ∧ b2 <> NULL ∧ b2 <> b1
    ∧ b2 ∈ registry w2
    ∧ removed t2 = []
    ∧ strong w2 b1 = 1 ∧ ¬ installed w2 b1 ∧ b1 ∈ registry w2
    ∧ eventHandlerFinalize env owner_ w2 = Ok tt w3 t3
    ∧ removed t3 = [b2].
Proof.
  intros He Ht Hwf [old Hs] Hc.
  pose proof (setup_accepted env owner_ proxy1 old w He Hc Hwf Hs) as H1.
  pose proof (wf_setup_accepted owner_ proxy1 old w Hc Hwf Hs) as Hwf1.
  destruct (setup_world_bridge owner_ proxy1 (alter (add_strong (-1)) old) w Hc)
    as (Hb1 & Hb10 & Hreg1 & Halive1 & Hn1 & _).
  set (w1 := setup_world owner_ proxy1 (alter (add_strong (-1)) old) w) in *.
  set (b1 := alloc (dom (heap w))) in *.
  pose proof (setup_accepted env owner_ proxy2 b1 w1 He Hc Hwf1 Hb1) as H2.
  pose proof (wf_setup_accepted owner_ proxy2 b1 w1 Hc Hwf1 Hb1) as Hwf2.
  destruct (setup_world_bridge owner_ proxy2 (alter (add_strong (-1)) b1) w1 Hc)
    as (Hb2 & Hb20 & Hreg2 & Halive2 & Hn2 & _).
  set (w2 := setup_world owner_ proxy2 (alter (add_strong (-1)) b1) w1) in *.
  set (b2 := alloc (dom (heap w1))) in *.
  assert (Hne : b2 <> b1).
  { intros E. destruct Halive1 as [o Ho]. pose proof (alloc_lookup (heap w1)) as Hf.
    fold b2 in Hf. rewrite E in Hf. congruence. }
  assert (Ht2 : thread_env w2 = env) by done.
  destruct (finalize_wf env owner_ b2 w2 He Ht2 Hwf2 Hb2)
    as (w3 & t3 & H3 & _ & _ & _ & Hr3 & _).
  rewrite (neq_eqb _ _ Hb20) in Hr3.
  exists w1, (setup_trace owner_ proxy1 old w), w2,
    (setup_trace owner_ proxy2 b1 w1), w3, t3, b1, b2.
  assert (Hb1' : heap w2 !! b1 = add_strong (-1) <$> heap w1 !! b1).
  { unfold w2, setup_world. wsimpl. fold b2.
    rewrite lookup_insert_ne by done. by rewrite lookup_alter_eq. }
  assert (Hs1 : strong w2 b1 = 1).
  { unfold strong in *. rewrite Hb1'. destruct (heap w1 !! b1); simpl in *; lia. }
  assert (Hni : ¬ installed w2 b1).
  { intros Hi. destruct Halive1 as [o1 Ho1]. rewrite Ho1 in Hb1'.
    destruct (wf_count _ Hwf2 _ _ Hb1') as [[_ Hn]|[Hni _]]; [|done].
    unfold strong in Hs1. rewrite Hb1' in Hs1. simpl in *. lia. }
  split_and!; try done.
  - apply removed_setup_trace.
  - apply (wf_registry _ Hwf2). rewrite Hb1'. apply fmap_is_Some. done.
Qed.

(** C7.  A teardown on an owner whose slot is empty calls no
    [removeAudioVolumeGroupCallback], destroys nothing, leaves the world as it
    is and returns normally.  After any teardown the slot is empty, so the
    second of two teardowns in a row is such a call. *)
Theorem teardown_is_idempotent env thiz v w :
  env <> NULL → thread_env w = env → wf w → jfields w !! thiz = Some v →
  ∃ w1 t1 t2,
    eventHandlerFinalize env thiz w = Ok tt w1 t1
    ∧ jfields w1 !! thiz = Some NULL
    ∧ eventHandlerFinalize env thiz w1 = Ok tt w1 t2
    ∧ removed t2 = [] ∧ destroyed t2 = []
    ∧ (v = NULL → w1 = w ∧ t1 = t2).
Proof.
  intros He Ht Hwf Hs.
  destruct (finalize_wf env thiz v w He Ht Hwf Hs)
    as (w1 & t1 & H1 & Hwf1 & Ht1 & Hs1 & _ & _ & Hsame).
  destruct (finalize_wf env thiz NULL w1 He Ht1 Hwf1 Hs1)
    as (w2 & t2 & H2 & _ & _ & _ & Hr2 & Hd2 & Hsame2).
  rewrite (Hsame2 eq_refl) in H2.
  exists w1, t1, t2. split_and!; try done.
  intros ->. specialize (Hsame eq_refl). subst w1. split; [done|congruence].
Qed.

(** C8.  A teardown that finds a bridge in the slot destroys that bridge and
    no other, and only at the end: the slot has been cleared, then the event
    source has been told to remove the bridge and has dropped its reference,
    and only then is the last reference, that of the local [sp<>], dropped. *)
Theorem teardown_unregisters_before_destruction env thiz p w :
  env <> NULL → thread_env w = env → wf w →
  jfields w !! thiz = Some p → p <> NULL →
  ∃ w' c r,
    eventHandlerFinalize env thiz w =
      Ok tt w'
         ([EvLog LOG_DEBUG FUNCTION_eventHandlerFinalize; EvLock;
           EvGetLongField thiz p; EvIncStrong p IdSp;
           EvDecStrong p IdSetJniCallback; EvSetLongField thiz NULL; EvUnlock;
           EvRemoveCallback p; EvDecStrong p IdAudioSystem;
           EvDecStrong p IdSp; EvDestroy p] ++ drop_ev r ++ drop_ev c)
    ∧ precedes (EvSetLongField thiz NULL) (EvDecStrong p IdSp)
        (trace_of (eventHandlerFinalize env thiz w))
    ∧ precedes (EvRemoveCallback p) (EvDecStrong p IdSp)
        (trace_of (eventHandlerFinalize env thiz w))
    ∧ precedes (EvDecStrong p IdSp) (EvDestroy p)
        (trace_of (eventHandlerFinalize env thiz w))
    ∧ destroyed (trace_of (eventHandlerFinalize env thiz w)) = [p]
    ∧ strong w p = 2
    ∧ heap w' !! p = None ∧ (p ∉ registry w') ∧ jfields w' !! thiz = Some NULL.
Proof.
  intros He Ht Hwf Hs Hp.
  pose proof (wf_slot _ Hwf _ _ Hs Hp) as Hreg.
  pose proof Hreg as [o Ho]%(wf_registry _ Hwf).
  destruct (wf_count _ Hwf _ _ Ho) as [[_ Hn]|[Hni _]];
    [|destruct Hni; by exists thiz].
  destruct (wf_members _ Hwf _ _ Ho) as (c & r & Hmc & Hmr & _).
  pose proof (finalize_installed env thiz p o c r w _ He Ht (wf_unlocked _ Hwf)
                (wf_fid _ Hwf) Hs Hp Hreg Ho Hn Hmc Hmr) as Hfin.
  eexists _, c, r. rewrite Hfin. split; [done|]. simpl trace_of.
  assert (∀ e, e ∉ [EvLog LOG_DEBUG FUNCTION_eventHandlerFinalize; EvLock;
                    EvGetLongField thiz p; EvIncStrong p IdSp;
                    EvDecStrong p IdSetJniCallback] ↔
               e <> EvLog LOG_DEBUG FUNCTION_eventHandlerFinalize ∧ e <> EvLock
               ∧ e <> EvGetLongField thiz p ∧ e <> EvIncStrong p IdSp
               ∧ e <> EvDecStrong p IdSetJniCallback) as Hpre.
  { intros e. rewrite !not_elem_of_cons. pose proof (not_elem_of_nil e). tauto. }
  split_and!.
  - exists [EvLog LOG_DEBUG FUNCTION_eventHandlerFinalize; EvLock;
            EvGetLongField thiz p; EvIncStrong p IdSp;
            EvDecStrong p IdSetJniCallback]. eexists. split; [done|].
    apply Hpre. by split_and!.
  - exists [EvLog LOG_DEBUG FUNCTION_eventHandlerFinalize; EvLock;
            EvGetLongField thiz p; EvIncStrong p IdSp;
            EvDecStrong p IdSetJniCallback; EvSetLongField thiz NULL; EvUnlock].
    eexists. split; [done|].
    rewrite !not_elem_of_cons. split_and!; try done. apply not_elem_of_nil.
  - exists [EvLog LOG_DEBUG FUNCTION_eventHandlerFinalize; EvLock;
            EvGetLongField thiz p; EvIncStrong p IdSp;
            EvDecStrong p IdSetJniCallback; EvSetLongField thiz NULL; EvUnlock;
            EvRemoveCallback p; EvDecStrong p IdAudioSystem].
    eexists. split; [done|].
    rewrite !not_elem_of_cons. split_and!; try done. apply not_elem_of_nil.
  - rewrite ?destroyed_app. simpl.
    by rewrite ?destroyed_app, ?destroyed_drop_ev.
  - unfold strong. by rewrite Ho.
  - wsimpl. apply lookup_delete_eq.
  - wsimpl. rewrite elem_of_difference, elem_of_singleton. tauto.
  - wsimpl. apply lookup_insert_eq.
Qed.

(** C9.  A setup accepted on an owner whose slot holds a bridge never passes
    that bridge to [removeAudioVolumeGroupCallback]: it only drops the slot's
    reference.  Whatever setups and teardowns follow, the displaced bridge is
    neither removed nor destroyed; it stays alive on the reference of the
    event source, in its registry and in no slot, and an event delivered to it
    still calls the Java method with the proxy it was built with. *)
Theorem displaced_bridge_stays_registered env owner_ proxy2 b1 cs group flags w :
  env <> NULL → thread_env w = env → wf w →
  jfields w !! owner_ = Some b1 → b1 <> NULL → GetObjectClass owner_ <> NULL →
  Forall (callable w) cs →
  ∃ w1 t1 w2 t2 t3,
    eventHandlerSetup env owner_ proxy2 NO_ERROR w = Ok tt w1 t1
    ∧ run env cs w1 = Ok tt w2 t2
    ∧ (b1 ∉ removed (t1 ++ t2)) ∧ (b1 ∉ destroyed (t1 ++ t2))
    ∧ strong w b1 = 2 ∧ strong w1 b1 = 1 ∧ strong w2 b1 = 1
    ∧ b1 ∈ registry w2 ∧ ¬ installed w2 b1
    ∧ onAudioVolumeGroupChanged b1 group flags w2 = Ok tt w2 t3
    ∧ dispatched t3 =
        [(class_of w b1, "postEventFromNative",
          payload (proxy_of w b1) group flags)].
Proof.
  intros He Ht Hwf Hs Hb1 Hc Hcs.
  pose proof (wf_slot _ Hwf _ _ Hs Hb1) as Hreg.
  pose proof Hreg as [o Ho]%(wf_registry _ Hwf).
  destruct (wf_count _ Hwf _ _ Ho) as [[_ Hn]|[Hni _]];
    [|destruct Hni; by exists owner_].
  pose proof (setup_accepted env owner_ proxy2 b1 w He Hc Hwf Hs) as H1.
  pose proof (wf_setup_accepted owner_ proxy2 b1 w Hc Hwf Hs) as Hwf1.
  pose proof (frame_setup_accepted owner_ proxy2 b1 w Hwf Hs) as Hfr1.
  set (w1 := setup_world owner_ proxy2 (alter (add_strong (-1)) b1) w) in *.
  assert (Hne : b1 <> alloc (dom (heap w))).
  { intros E. pose proof (alloc_lookup (heap w)) as Hf. rewrite <- E in Hf. congruence. }
  assert (Ho1 : heap w1 !! b1 = Some (add_strong (-1) o)).
  { unfold w1, setup_world. wsimpl. rewrite lookup_insert_ne by done.
    by rewrite lookup_alter_eq, Ho. }
  assert (Horph : orphan w1 b1 (add_strong (-1) o)).
  { split; [done|]. intros Hi.
    destruct (wf_count _ Hwf1 _ _ Ho1) as [[_ Hn']|[Hni _]]; [|done].
    unfold add_strong in Hn'. simpl in Hn'. lia. }
  destruct (run_wf env cs w1 He) as (w2 & t2 & H2 & Hwf2 & Hfr2).
  { done. } { done. }
  { eapply Forall_impl; [exact Hcs|]. intros c. by eapply callable_frame. }
  destruct Hfr2 as (Ht2 & _ & Hfr2).
  destruct (Hfr2 _ _ Horph) as ([Ho2 Hni2] & Hnr2 & Hnd2 & Hg2).
  destruct (class_proxy_stable w w1 b1 o (add_strong (-1) o) Hwf Ho Ho1)
    as [Hcls1 Hprox1]; [done|done| |].
  { intros h Hh. apply setup_world_globals. by eapply owns_in_globals. }
  destruct (class_proxy_stable w1 w2 b1 _ _ Hwf1 Ho1 Ho2)
    as [Hcls2 Hprox2]; [done|done|done|].
  exists w1, (setup_trace owner_ proxy2 b1 w), w2, t2. eexists.
  split; [done|]. split; [done|].
  split.
  { rewrite removed_app, removed_setup_trace. done. }
  split.
  { rewrite destroyed_app, destroyed_setup_trace. done. }
  split; [unfold strong; by rewrite Ho|].
  split; [unfold strong; rewrite Ho1; unfold add_strong; simpl; lia|].
  split; [unfold strong; rewrite Ho2; unfold add_strong; simpl; lia|].
  split; [apply (wf_registry _ Hwf2); eauto|].
  split; [done|].
  split.
  - apply onEvent_wf; [done| |eauto]. rewrite Ht2. unfold w1, setup_world. wsimpl.
    by rewrite Ht.
  - cbv zeta. rewrite dispatched_app, dispatched_exception_ev.
    rewrite Hcls2, Hcls1, Hprox2, Hprox1. done.
Qed.

(** C10.  On a thread for which [AndroidRuntime::getJNIEnv()] is null,
    [onAudioVolumeGroupChanged] returns without any dispatch and the
    destructor returns without releasing the two global references: both
    return normally, leave the world as it is and call no JNI function. *)
Theorem detached_thread_drops_event_and_keeps_references this group flags w :
  thread_env w = NULL →
  onAudioVolumeGroupChanged this group flags w = Ok tt w []
  ∧ JNIAudioVolumeChangeHandler_dtor this w = Ok tt w [].
Proof.
  intros He. split.
  - unfold onAudioVolumeGroupChanged, getJNIEnv. by mexec.
  - unfold JNIAudioVolumeChangeHandler_dtor, getJNIEnv. by mexec.
Qed.

(** ** Steps and their outcomes *)

Lemma removed_delivery_trace w this group flags :
  removed (delivery_trace w this group flags) = [].
Proof. unfold delivery_trace, exception_ev. simpl. by destruct (java_throws _). Qed.

Lemma destroyed_delivery_trace w this group flags :
  destroyed (delivery_trace w this group flags) = [].
Proof. unfold delivery_trace, exception_ev. simpl. by destruct (java_throws _). Qed.

Lemma do_step_outcome env s w :
  env <> NULL → thread_env w = env → wf w → callable_step w s →
  ∃ w' t, do_step env s w = Ok tt w' t ∧ wf w' ∧ frame w w' t
          ∧ step_outcome w s w' t.
Proof.
  intros He Ht Hwf Hc. destruct s as [c|this group flags]; simpl in *.
  - destruct Hc as [[v Hs] Hc].
    destruct c as [thiz weak_this status|thiz]; simpl in *.
    + destruct (decide (status = NO_ERROR)) as [->|Hst].
      * eexists _, _. split; [by apply setup_accepted|].
        split; [by apply wf_setup_accepted|].
        split; [by apply frame_setup_accepted|by constructor].
      * eexists _, _. split; [by apply setup_rejected|]. split; [done|].
        split; [|by constructor].
        apply frame_same. intros q oq [Hq _].
        rewrite !removed_app, !destroyed_app, removed_add_ev, destroyed_add_ev,
          !removed_drop_ev, !destroyed_drop_ev. simpl.
        split; [apply not_elem_of_nil|]. rewrite list_elem_of_singleton.
        intros ->. by rewrite alloc_lookup in Hq.
    + destruct (decide (v = NULL)) as [->|Hv].
      * eexists _, _. split; [eapply finalize_empty; eauto using wf_unlocked, wf_fid|].
        split; [done|]. split; [|by constructor].
        apply frame_same. intros q oq _. simpl. split; apply not_elem_of_nil.
      * pose proof (wf_slot _ Hwf _ _ Hs Hv) as Hreg.
        pose proof Hreg as [o Ho]%(wf_registry _ Hwf).
        destruct (wf_count _ Hwf _ _ Ho) as [[_ Hn]|[Hni _]];
          [|destruct Hni; by exists thiz].
        destruct (wf_members _ Hwf _ _ Ho) as (c & r & Hmc & Hmr & _).
        eexists _, _. split;
          [eapply finalize_installed; eauto using wf_unlocked, wf_fid|].
        split; [by eapply wf_finalize_installed|].
        split; [by eapply frame_finalize_installed|by econstructor].
  - unfold bind at 1, gets. destruct (decide (this ∈ registry w)) as [Hin|Hout].
    + exists w, (delivery_trace w this group flags).
      split; [|split; [done|split; [|by constructor]]].
      * rewrite onEvent_wf; [done|done|congruence|].
        by apply (wf_registry _ Hwf).
      * apply frame_same. intros q oq _.
        rewrite removed_delivery_trace, destroyed_delivery_trace.
        split; apply not_elem_of_nil.
    + exists w, []. split; [done|]. split; [done|].
      split; [apply frame_refl|by constructor].
Qed.

Lemma run_steps_cons env s ss w w1 t1 :
  do_step env s w = Ok tt w1 t1 →
  run_steps env (s :: ss) w = prepend t1 (run_steps env ss w1).
Proof. intros Hs. simpl. by rewrite (bind_step _ _ _ _ _ _ Hs). Qed.

Lemma callable_step_frame w w' t s :
  frame w w' t → callable_step w s → callable_step w' s.
Proof. destruct s; simpl; [apply callable_frame|done]. Qed.

Lemma run_steps_outcome env ss w :
  env <> NULL → thread_env w = env → wf w → Forall (callable_step w) ss →
  ∃ w' t, run_steps env ss w = Ok tt w' t ∧ wf w' ∧ frame w w' t
          ∧ run_outcome w ss w' t.
Proof.
  intros He. revert w. induction ss as [|s ss IH]; intros w Ht Hwf Hss.
  - exists w, []. split; [done|]. split; [done|]. split; [apply frame_refl|constructor].
  - apply Forall_cons in Hss as [Hs Hss].
    destruct (do_step_outcome _ _ _ He Ht Hwf Hs) as (w1 & t1 & H1 & Hwf1 & Hf1 & Ho1).
    destruct (IH w1) as (w2 & t2 & H2 & Hwf2 & Hf2 & Ho2).
    + destruct Hf1 as (-> & _). done.
    + done.
    + eapply Forall_impl; [exact Hss|]. intros ?. by apply callable_step_frame with t1.
    + exists w2, (t1 ++ t2). rewrite (run_steps_cons _ _ _ _ _ _ H1), H2.
      split; [done|]. split; [done|]. split; [by eapply frame_trans|].
      by econstructor.
Qed.

Lemma run_steps_native env cs w :
  run_steps env (Native <$> cs) w = run env cs w.
Proof.
  revert w. induction cs as [|c cs IH]; intros w; [done|].
  simpl. unfold bind. destruct (do_call env c w); [|done]. by rewrite IH.
Qed.

Lemma natives_native cs : natives (Native <$> cs) = cs.
Proof. induction cs as [|c cs IH]; [done|]. simpl. f_equal. exact IH. Qed.

(** ** The lock *)

Lemma lock_after_app l t1 t2 :
  lock_after l (t1 ++ t2) = lock_after (lock_after l t1) t2.
Proof. revert l. induction t1 as [|[] t1 IH]; intros l; simpl; auto. Qed.

Lemma lock_discipline_app l t1 t2 :
  lock_discipline l (t1 ++ t2)
  ↔ lock_discipline l t1 ∧ lock_discipline (lock_after l t1) t2.
Proof.
  revert l. induction t1 as [|e t1 IH]; intros l; [simpl; tauto|].
  destruct e as [| | | | | |? []|? []| | | | | | | |]; simpl; rewrite ?IH; tauto.
Qed.

Lemma step_outcome_lock w s w' t :
  step_outcome w s w' t → lock_discipline false t ∧ lock_after false t = false.
Proof.
  destruct 1;
    unfold rejected_trace, setup_trace, setup_prefix, idle_trace,
      teardown_trace, delivery_trace, add_ev, drop_ev, inc_ev, dec_ev,
      exception_ev; cbv zeta;
    repeat match goal with
           | |- context [if ?b then _ else _] => destruct b
           end; simpl; tauto.
Qed.

Lemma run_outcome_lock w ss w' t :
  run_outcome w ss w' t → lock_discipline false t ∧ lock_after false t = false.
Proof.
  induction 1 as [|w s ss w1 t1 w2 t2 _ _ Hs _ [IH1 IH2]]; [done|].
  destruct (step_outcome_lock _ _ _ _ Hs) as [H1 H2].
  rewrite lock_discipline_app, lock_after_app, H2. tauto.
Qed.

(** ** The registry *)

Lemma step_outcome_registry w s w' t :
  wf w → step_outcome w s w' t →
  (size (registry w') + length (removed t) =
   size (registry w) + accepted (natives [s]))%nat.
Proof.
  intros Hwf. destruct 1; cbn [natives accepted].
  - rewrite (neq_eqb _ _ H). unfold rejected_trace. cbv zeta.
    rewrite !removed_app, removed_add_ev, !removed_drop_ev. simpl. lia.
  - rewrite removed_setup_trace. unfold setup_world. wsimpl.
    rewrite size_union, size_singleton; [simpl; lia|].
    apply disjoint_singleton_l. rewrite (wf_registry _ Hwf), alloc_lookup.
    by intros [? ?].
  - simpl. lia.
  - unfold teardown_trace. rewrite !removed_app, !removed_drop_ev.
    unfold finalize_world. wsimpl.
    pose proof (wf_slot _ Hwf _ _ H H0) as Hreg.
    rewrite size_difference by (by apply singleton_subseteq_l).
    rewrite size_singleton.
    assert (size (registry w) <> 0%nat); [|simpl; lia].
    intros Hz%size_empty_inv. by apply Hz in Hreg.
  - rewrite removed_delivery_trace. simpl. lia.
  - simpl. lia.
Qed.

Lemma accepted_app cs1 cs2 :
  accepted (cs1 ++ cs2) = (accepted cs1 + accepted cs2)%nat.
Proof.
  induction cs1 as [|[? ? st|?] cs1 IH]; simpl; [done| |done].
  destruct (st =? NO_ERROR); simpl; by rewrite IH.
Qed.

Lemma natives_cons s ss : natives (s :: ss) = natives [s] ++ natives ss.
Proof. by destruct s. Qed.

Lemma run_outcome_registry w ss w' t :
  run_outcome w ss w' t →
  (size (registry w') + length (removed t) =
   size (registry w) + accepted (natives ss))%nat.
Proof.
  induction 1 as [|w s ss w1 t1 w2 t2 Hwf _ Hs _ IH]; [simpl; lia|].
  pose proof (step_outcome_registry _ _ _ _ Hwf Hs) as H1.
  rewrite natives_cons, accepted_app, removed_app, length_app. lia.
Qed.

(** ** Global references and their holders *)

Lemma owns_add_strong d o h : owns (add_strong d o) h ↔ owns o h.
Proof. done. Qed.

Lemma step_outcome_globals_owned w s w' t :
  wf w → step_outcome w s w' t → globals_owned w → globals_owned w'.
Proof.
  intros Hwf. destruct 1 as [| thiz weak_this old Hs | | thiz p o c r Hs Hp Ho Hn Hc Hr | |];
    try done; intros Hg h Hh.
  - unfold setup_world in *. wsimpl. wsimpl in Hh.
    set (p := alloc (dom (heap w))) in *.
    set (c := alloc (dom (globals w))) in *.
    set (g1 := <[c:=GetObjectClass thiz]> (globals w)) in *.
    set (r := new_ref weak_this g1) in *.
    assert (Hold : is_Some (globals w !! h) →
      ∃ q oq, (<[p:=mkHandler (Some c) (Some r) 2]>
                 (alter (add_strong (-1)) old (heap w))) !! q = Some oq
              ∧ owns oq h).
    { intros (q & oq & Hq & Hown)%Hg.
      assert (q <> p) by (intros ->; subst p; by rewrite alloc_lookup in Hq).
      destruct (decide (old = q)) as [->|Hoq].
      - exists q, (add_strong (-1) oq). rewrite lookup_insert_ne by done.
        by rewrite lookup_alter_eq, Hq.
      - exists q, oq. rewrite lookup_insert_ne by done.
        by rewrite lookup_alter_ne. }
    assert (Hcc : ∃ q oq, (<[p:=mkHandler (Some c) (Some r) 2]>
                 (alter (add_strong (-1)) old (heap w))) !! q = Some oq
              ∧ owns oq c).
    { exists p, (mkHandler (Some c) (Some r) 2). rewrite lookup_insert_eq.
      split; [done|]. split; [apply alloc_nonnull|by left]. }
    unfold add_ref in Hh. destruct (weak_this =? NULL) eqn:Hweak.
    + subst g1. rewrite lookup_insert in Hh. case_decide; [by subst h|auto].
    + rewrite lookup_insert in Hh. case_decide as Hrh.
      * subst h. exists p, (mkHandler (Some c) (Some r) 2).
        rewrite lookup_insert_eq. split; [done|]. split; [|by right].
        subst r. unfold new_ref. rewrite Hweak. apply alloc_nonnull.
      * subst g1. rewrite lookup_insert in Hh. case_decide; [by subst h|auto].
  - unfold finalize_world in *. wsimpl. wsimpl in Hh.
    destruct (wf_members _ Hwf _ _ Ho) as (c' & r' & Hc' & Hr' & Hcn & _).
    assert (c' = c) as -> by congruence. assert (r' = r) as -> by congruence.
    assert (h <> c).
    { intros ->. unfold drop_ref at 1 in Hh. rewrite (neq_eqb _ _ Hcn) in Hh.
      rewrite lookup_delete_eq in Hh. by destruct Hh. }
    rewrite lookup_drop_ref in Hh by done.
    assert (is_Some (globals w !! h) ∧ (h = r → r = NULL)) as [Hin Hhr].
    { unfold drop_ref in Hh. destruct (Z.eqb_spec r NULL) as [->|Hrn]; [done|].
      rewrite lookup_delete in Hh. case_decide; [by destruct Hh|]. split; [done|].
      congruence. }
    destruct (Hg _ Hin) as (q & oq & Hq & Hown).
    exists q, oq. split; [|done]. rewrite lookup_delete_ne; [done|].
    intros <-. assert (oq = o) as -> by congruence.
    destruct Hown as [Hhn [Hm|Hm]]; [congruence|].
    assert (h = r) by congruence. apply Hhn. subst h. auto.
Qed.

Lemma run_outcome_globals_owned w ss w' t :
  run_outcome w ss w' t → globals_owned w → globals_owned w'.
Proof.
  induction 1 as [|w s ss w1 t1 w2 t2 Hwf _ Hs _ IH]; [done|].
  intros Hg. apply IH. by eapply step_outcome_globals_owned.
Qed.

(** ** The owners a step does not name *)

Lemma written_delivery_trace thiz w this group flags :
  written thiz (delivery_trace w this group flags) = [].
Proof. unfold delivery_trace, exception_ev. simpl. by destruct (java_throws _). Qed.

Lemma step_outcome_other w s w' t thiz' q :
  wf w → step_outcome w s w' t → (∀ c, s = Native c → owner c <> thiz') →
  jfields w !! thiz' = Some q → q <> NULL →
  jfields w' !! thiz' = Some q ∧ heap w' !! q = heap w !! q
  ∧ class_of w' q = class_of w q ∧ proxy_of w' q = proxy_of w q
  ∧ written thiz' t = [] ∧ (q ∉ removed t) ∧ (q ∉ destroyed t).
Proof.
  intros Hwf Hout Hother Hq Hqn.
  pose proof (wf_slot _ Hwf _ _ Hq Hqn) as [oq Hoq]%(wf_registry _ Hwf).
  assert (Hfresh : q <> alloc (dom (heap w))).
  { intros ->. by rewrite alloc_lookup in Hoq. }
  destruct Hout as [thiz weak_this status Hst | thiz weak_this old Hs | thiz Hs
                   | thiz p o c r Hs Hp Ho Hn Hc Hr | this group flags Hin
                   | this group flags Hout].
  - unfold rejected_trace. cbv zeta.
    rewrite !written_app, !removed_app, !destroyed_app, written_add_ev,
      removed_add_ev, destroyed_add_ev, !written_drop_ev, !removed_drop_ev,
      !destroyed_drop_ev. simpl.
    split_and!; try done; [apply not_elem_of_nil|].
    by rewrite list_elem_of_singleton.
  - assert (thiz <> thiz') as Hne by (by apply (Hother (Setup thiz weak_this NO_ERROR))).
    assert (old <> q) as Holdq.
    { intros ->. by pose proof (wf_slot_inj _ Hwf _ _ _ Hs Hq Hqn). }
    assert (Hheap : heap (setup_world thiz weak_this (alter (add_strong (-1)) old) w)
                      !! q = heap w !! q).
    { unfold setup_world. wsimpl. rewrite lookup_insert_ne by done.
      by rewrite lookup_alter_ne. }
    rewrite removed_setup_trace, destroyed_setup_trace.
    split; [unfold setup_world; wsimpl; by rewrite lookup_insert_ne|].
    split; [done|].
    assert (class_of (setup_world thiz weak_this (alter (add_strong (-1)) old) w) q
              = class_of w q
            ∧ proxy_of (setup_world thiz weak_this (alter (add_strong (-1)) old) w) q
              = proxy_of w q) as [-> ->].
    { eapply class_proxy_stable; [done|exact Hoq|by rewrite Hheap|done|done|].
      intros h Hh. apply setup_world_globals. by eapply owns_in_globals. }
    split; [done|]. split; [done|].
    split; [|split; apply not_elem_of_nil].
    unfold setup_trace, setup_prefix. cbv zeta.
    rewrite !written_app, written_add_ev, !written_inc_ev, !written_dec_ev.
    simpl. by rewrite (neq_eqb _ _ Hne).
  - assert (thiz <> thiz') as Hne by (by apply (Hother (Finalize thiz))).
    simpl. rewrite (neq_eqb _ _ Hne).
    split_and!; try done; apply not_elem_of_nil.
  - assert (thiz <> thiz') as Hne by (by apply (Hother (Finalize thiz))).
    assert (p <> q) as Hpq.
    { intros ->. by pose proof (wf_slot_inj _ Hwf _ _ _ Hs Hq Hqn). }
    assert (Hheap : heap (finalize_world thiz p c r w) !! q = heap w !! q).
    { unfold finalize_world. wsimpl. by rewrite lookup_delete_ne. }
    split; [unfold finalize_world; wsimpl; by rewrite lookup_insert_ne|].
    split; [done|].
    assert (class_of (finalize_world thiz p c r w) q = class_of w q
            ∧ proxy_of (finalize_world thiz p c r w) q = proxy_of w q) as [-> ->].
    { eapply class_proxy_stable; [done|exact Hoq|by rewrite Hheap|done|done|].
      intros h Hh. unfold finalize_world. wsimpl.
      assert (∀ x, owns o x → h <> x) as Hx.
      { intros x Hox ->. apply Hpq. by eapply (wf_handles _ Hwf p q o oq x). }
      destruct (wf_members _ Hwf _ _ Ho) as (c' & r' & Hc' & Hr' & Hcn & _).
      assert (c' = c) as -> by congruence. assert (r' = r) as -> by congruence.
      rewrite lookup_drop_ref by (apply Hx; split; [done|by left]).
      unfold drop_ref. destruct (Z.eqb_spec r NULL) as [|Hrn]; [done|].
      rewrite lookup_delete_ne; [done|].
      apply not_eq_sym, Hx. split; [done|by right]. }
    split; [done|]. split; [done|].
    unfold teardown_trace.
    rewrite !written_app, !removed_app, !destroyed_app, !written_drop_ev,
      !removed_drop_ev, !destroyed_drop_ev. simpl. rewrite (neq_eqb _ _ Hne).
    rewrite !list_elem_of_singleton. by split_and!.
  - rewrite written_delivery_trace, removed_delivery_trace,
      destroyed_delivery_trace.
    split_and!; try done; apply not_elem_of_nil.
  - split_and!; try done; apply not_elem_of_nil.
Qed.

Lemma run_outcome_other w ss w' t thiz' q :
  run_outcome w ss w' t → (∀ c, c ∈ natives ss → owner c <> thiz') →
  jfields w !! thiz' = Some q → q <> NULL →
  jfields w' !! thiz' = Some q ∧ heap w' !! q = heap w !! q
  ∧ class_of w' q = class_of w q ∧ proxy_of w' q = proxy_of w q
  ∧ written thiz' t = [] ∧ (q ∉ removed t) ∧ (q ∉ destroyed t).
Proof.
  induction 1 as [|w s ss w1 t1 w2 t2 Hwf _ Hs _ IH]; intros Hother Hq Hqn.
  - split_and!; try done; apply not_elem_of_nil.
  - rewrite natives_cons in Hother.
    destruct (step_outcome_other _ _ _ _ thiz' q Hwf Hs) as (H1 & H2 & H3 & H4 & H5 & H6 & H7);
      [|done|done|].
    { intros c ->. apply Hother. simpl. apply list_elem_of_here. }
    destruct IH as (I1 & I2 & I3 & I4 & I5 & I6 & I7); [|done|done|].
    { intros c Hc. apply Hother. apply elem_of_app. by right. }
    rewrite written_app, removed_app, destroyed_app, H5, I5, !not_elem_of_app.
    split_and!; try done; congruence.
Qed.

(** ** The trace without the deliveries *)

Lemma without_deliveries_app t1 t2 :
  without_deliveries (t1 ++ t2) = without_deliveries t1 ++ without_deliveries t2.
Proof.
  induction t1 as [|e t1 IH]; [done|]. simpl.
  destruct (is_delivery e); simpl; by rewrite IH.
Qed.

Lemma step_outcome_native w c w' t :
  step_outcome w (Native c) w' t → without_deliveries t = t.
Proof.
  inversion 1; subst;
    unfold rejected_trace, setup_trace, setup_prefix, idle_trace,
      teardown_trace, add_ev, drop_ev, inc_ev, dec_ev; cbv zeta;
    repeat match goal with
           | |- context [if ?b then _ else _] => destruct b
           end; reflexivity.
Qed.

Lemma step_outcome_event w this group flags w' t :
  step_outcome w (Event this group flags) w' t →
  w' = w ∧ without_deliveries t = [].
Proof.
  inversion 1; subst; [|done]. split; [done|].
  unfold delivery_trace, exception_ev. cbv zeta.
  by destruct (java_throws _).
Qed.

(** ** Further properties of the code *)

(** X1.  [setJniCallback] is the only place that takes [gLock], and its
    [Autolock] covers the body of that function and no more.  Along any
    sequence of setups, teardowns and deliveries: the lock is taken only when
    free; the slot is read and written, and the references of
    [setJniCallback] are counted, only with the lock held; bridges are
    created and destroyed, global references taken and dropped, the event
    source and the Java handler called, only with the lock free; and the lock
    is free at the end. *)
Theorem lock_covers_the_swap_and_nothing_else env ss w :
  env <> NULL → thread_env w = env → wf w → Forall (callable_step w) ss →
  ∃ w' t, run_steps env ss w = Ok tt w' t
          ∧ lock_discipline false t ∧ lock_after false t = false
          ∧ gLock w' = false.
Proof.
  intros He Ht Hwf Hss.
  destruct (run_steps_outcome _ _ _ He Ht Hwf Hss) as (w' & t & Hrun & Hwf' & _ & Ho).
  exists w', t. split; [done|].
  destruct (run_outcome_lock _ _ _ _ Ho). by split_and!; [| |apply wf_unlocked].
Qed.

(** X2.  Only an accepted setup registers a bridge with the event source and
    only a teardown that finds a bridge unregisters one: after any sequence
    of steps, the callbacks registered plus those removed along the way are
    those registered at the start plus one for each accepted setup.  The
    live bridges are the registered ones. *)
Theorem registrations_are_conserved env ss w :
  env <> NULL → thread_env w = env → wf w → Forall (callable_step w) ss →
  ∃ w' t, run_steps env ss w = Ok tt w' t
          ∧ (size (registry w') + length (removed t) =
             size (registry w) + accepted (natives ss))%nat
          ∧ dom (heap w') = registry w'.
Proof.
  intros He Ht Hwf Hss.
  destruct (run_steps_outcome _ _ _ He Ht Hwf Hss) as (w' & t & Hrun & Hwf' & _ & Ho).
  exists w', t. split; [done|]. split; [by apply run_outcome_registry|].
  apply set_eq. intros p. by rewrite elem_of_dom, (wf_registry _ Hwf').
Qed.

(** X3.  The destructor gives back both global references of the bridge it
    destroys, and the constructor is the only place that takes any: if every
    global reference belongs to a live bridge before a sequence of steps on
    attached threads, the same holds after it, and when no bridge is left no
    global reference is. *)
Theorem global_references_belong_to_live_bridges env ss w :
  env <> NULL → thread_env w = env → wf w → Forall (callable_step w) ss →
  globals_owned w →
  ∃ w' t, run_steps env ss w = Ok tt w' t
          ∧ (∀ h, is_Some (globals w' !! h)
                  ↔ ∃ p o, heap w' !! p = Some o ∧ owns o h)
          ∧ (heap w' = ∅ → globals w' = ∅).
Proof.
  intros He Ht Hwf Hss Hg.
  destruct (run_steps_outcome _ _ _ He Ht Hwf Hss) as (w' & t & Hrun & Hwf' & _ & Ho).
  pose proof (run_outcome_globals_owned _ _ _ _ Ho Hg) as Hg'.
  exists w', t. split; [done|]. split.
  - intros h. split; [apply Hg'|]. intros (p & o & Hp & Hown).
    by eapply owns_in_globals.
  - intros Hempty. apply map_empty. intros h.
    destruct (globals w' !! h) eqn:Hh; [|done].
    destruct (Hg' h) as (p & o & Hp & _); [by eexists|].
    by rewrite Hempty, lookup_empty in Hp.
Qed.

(** X4.  The natives touch the slot of the handler they are called on and no
    other: a sequence of steps none of whose native calls is on [thiz']
    leaves the slot of [thiz'] unwritten, and the bridge in it alive,
    unchanged, neither unregistered nor destroyed, calling the same class
    and the same proxy. *)
Theorem other_owners_are_left_alone env ss w thiz' q :
  env <> NULL → thread_env w = env → wf w → Forall (callable_step w) ss →
  (∀ c, c ∈ natives ss → owner c <> thiz') →
  jfields w !! thiz' = Some q → q <> NULL →
  ∃ w' t, run_steps env ss w = Ok tt w' t
          ∧ jfields w' !! thiz' = Some q ∧ heap w' !! q = heap w !! q
          ∧ q ∈ registry w'
          ∧ class_of w' q = class_of w q ∧ proxy_of w' q = proxy_of w q
          ∧ written thiz' t = [] ∧ (q ∉ removed t) ∧ (q ∉ destroyed t).
Proof.
  intros He Ht Hwf Hss Hother Hq Hqn.
  destruct (run_steps_outcome _ _ _ He Ht Hwf Hss) as (w' & t & Hrun & Hwf' & _ & Ho).
  destruct (run_outcome_other _ _ _ _ _ _ Ho Hother Hq Hqn)
    as (H1 & H2 & H3 & H4 & H5 & H6 & H7).
  exists w', t. split_and!; try done. by apply (wf_slot _ Hwf' thiz').
Qed.

(** X5.  A delivery changes nothing that a setup or a teardown reads:
    a sequence of native calls interleaved with deliveries ends in the world
    the native calls alone end in, and its trace without the events of the
    deliveries is the trace of the native calls alone. *)
Theorem deliveries_do_not_disturb_the_natives env ss w :
  env <> NULL → thread_env w = env → wf w → Forall (callable_step w) ss →
  ∃ w' t, run_steps env ss w = Ok tt w' t
          ∧ run env (natives ss) w = Ok tt w' (without_deliveries t)
          ∧ pending w' = false.
Proof.
  intros He. revert w. induction ss as [|s ss IH]; intros w Ht Hwf Hss.
  - exists w, []. split_and!; try done. by apply wf_quiet.
  - apply Forall_cons in Hss as [Hs Hss].
    destruct (do_step_outcome _ _ _ He Ht Hwf Hs) as (w1 & t1 & H1 & Hwf1 & Hf1 & Ho1).
    destruct (IH w1) as (w2 & t2 & H2 & H3 & H4).
    + destruct Hf1 as (-> & _). done.
    + done.
    + eapply Forall_impl; [exact Hss|]. intros ?. by apply callable_step_frame with t1.
    + exists w2, (t1 ++ t2). rewrite (run_steps_cons _ _ _ _ _ _ H1), H2.
      split; [done|]. split; [|done]. rewrite without_deliveries_app.
      destruct s as [c|this group flags].
      * rewrite (step_outcome_native _ _ _ _ Ho1). simpl in H1.
        change (natives (Native c :: ss)) with (c :: natives ss).
        by rewrite (run_cons _ _ _ _ _ _ H1), H3.
      * destruct (step_outcome_event _ _ _ _ _ _ Ho1) as [-> ->]. done.
Qed.

(** ** Registration *)

Lemma register_fits env declared w :
  env <> NULL → class_fits declared →
  register_android_server_audio_AudioVolumeChangeHandler env declared w =
    Ok 0 (set_ids (Some mJniCallback_id) (Some postEventFromNative_id) w) [].
Proof.
  intros He%neq_eqb (members & -> & Hm & Hf & Hn).
  unfold register_android_server_audio_AudioVolumeChangeHandler, via_env,
    lookupOrDie.
  mexec.
  rewrite (decide_True (P:=postEventFromNative_id ∈ members)) by done. mexec.
  rewrite (decide_True (P:=mJniCallback_id ∈ members)) by done. mexec.
  rewrite (decide_True (P:=gMethods ⊆ members)) by done. mexec.
  by destruct w.
Qed.

(** X6.  Registration looks up the class, the static method
    [postEventFromNative], the field [mJniCallback] and registers the two
    natives, each with an [...OrDie] helper: it returns zero with both static
    ids set, and nothing else changed, when the class declares all of them,
    and aborts the process otherwise. *)
Theorem registration_succeeds_or_dies env declared w :
  env <> NULL →
  (class_fits declared →
   register_android_server_audio_AudioVolumeChangeHandler env declared w =
     Ok 0 (set_ids (Some mJniCallback_id) (Some postEventFromNative_id) w) [])
  ∧ (¬ class_fits declared →
     register_android_server_audio_AudioVolumeChangeHandler env declared w =
       Fault Die []).
Proof.
  intros He. split; [by apply register_fits|].
  apply neq_eqb in He.
  unfold register_android_server_audio_AudioVolumeChangeHandler, via_env,
    lookupOrDie.
  intros Hno. mexec. destruct declared as [members|]; [|done].
  destruct (decide (postEventFromNative_id ∈ members)) as [Hm|]; [|done]. mexec.
  destruct (decide (mJniCallback_id ∈ members)) as [Hf|]; [|done]. mexec.
  destruct (decide (gMethods ⊆ members)) as [Hn|]; [|done].
  destruct Hno. by exists members.
Qed.

(** X7.  Registration is all a process needs before the natives are used:
    in a process without bridges, registration against a class that fits
    followed by any sequence of setups and teardowns of live handlers runs to
    the end, and ends in a state between calls. *)
Theorem registration_readies_the_process env declared cs w :
  env <> NULL → thread_env w = env → class_fits declared →
  heap w = ∅ → registry w = ∅ →
  (∀ thiz v, jfields w !! thiz = Some v → v = NULL) →
  gLock w = false → pending w = false →
  Forall (callable w) cs →
  ∃ w' t,
    bind (register_android_server_audio_AudioVolumeChangeHandler env declared)
         (fun _ => run env cs) w = Ok tt w' t
    ∧ wf w' ∧ ∀ thiz, slot_holds_at_most_one w' thiz.
Proof.
  intros He Ht Hfit Hh Hr Hs Hl Hq Hcs.
  pose proof (register_fits env declared w He Hfit) as Hreg.
  set (w0 := set_ids (Some mJniCallback_id) (Some postEventFromNative_id) w).
  assert (Hwf0 : wf w0) by (by apply wf_without_bridges).
  destruct (run_wf env cs w0 He Ht Hwf0 Hcs) as (w' & t & Hrun & Hwf' & _).
  exists w', t. rewrite (bind_step _ _ _ _ _ _ Hreg). subst w0.
  lazy beta. rewrite Hrun.
  split; [done|]. split; [done|]. intros thiz. by apply slot_of_wf.
Qed.

(** ** The constructor and the destructor *)

Lemma new_failed env thiz weak_this w :
  env <> NULL → GetObjectClass thiz = NULL →
  new_JNIAudioVolumeChangeHandler env thiz weak_this w =
    Ok (alloc (dom (heap w)))
       (set_heap (insert (alloc (dom (heap w))) (mkHandler None None 0)) w)
       [EvNew (alloc (dom (heap w)));
        EvLog LOG_ERROR ("Can't find class " +:+ kAudioVolumeChangeHandlerClassPathName)].
Proof.
  intros He%neq_eqb Hc.
  unfold new_JNIAudioVolumeChangeHandler, JNIAudioVolumeChangeHandler_ctor,
    jni_GetObjectClass, via_env, store, ALOG.
  mexec. done.
Qed.

Lemma acquired_add_ev h o :
  acquired (add_ev h o) = if o =? NULL then [] else [h].
Proof. unfold add_ev. by destruct (o =? NULL). Qed.

Lemma released_drop_ev h :
  released (drop_ev h) = if h =? NULL then [] else [h].
Proof. unfold drop_ev. by destruct (h =? NULL). Qed.

(** X8.  The constructor takes one global reference to the class of [thiz]
    and, unless [weak_thiz] is null, one to [weak_thiz], and keeps them in
    the two members: the new bridge calls that class and that proxy, its
    references are new and distinct, and nothing that existed before is
    changed. *)
Theorem constructor_takes_its_own_references env thiz weak_this w :
  env <> NULL → GetObjectClass thiz <> NULL →
  ∃ p w' t,
    new_JNIAudioVolumeChangeHandler env thiz weak_this w = Ok p w' t
    ∧ p <> NULL ∧ heap w !! p = None
    ∧ (∃ o, heap w' !! p = Some o ∧ mStrong o = 0)
    ∧ class_of w' p = GetObjectClass thiz ∧ proxy_of w' p = weak_this
    ∧ (∀ q, q <> p → heap w' !! q = heap w !! q)
    ∧ (∀ h, is_Some (globals w !! h) → globals w' !! h = globals w !! h)
    ∧ Forall (fun h => h <> NULL ∧ globals w !! h = None
                       ∧ is_Some (globals w' !! h)) (acquired t)
    ∧ NoDup (acquired t)
    ∧ length (acquired t) = (if weak_this =? NULL then 1%nat else 2%nat)
    ∧ jfields w' = jfields w ∧ registry w' = registry w.
Proof.
  intros He Hc. eexists _, _, _. split; [by apply new_eq|].
  set (p := alloc (dom (heap w))).
  set (c := alloc (dom (globals w))).
  set (g1 := <[c:=GetObjectClass thiz]> (globals w)).
  set (r := new_ref weak_this g1).
  assert (Hg1 : g1 !! c = Some (GetObjectClass thiz))
    by (unfold g1; by rewrite lookup_insert_eq).
  assert (Hrc : alloc (dom g1) <> c).
  { intros E. pose proof (alloc_lookup g1) as Hf. rewrite E in Hf. congruence. }
  assert (Hcw : globals w !! c = None) by apply alloc_lookup.
  split; [apply alloc_nonnull|]. split; [apply alloc_lookup|]. wsimpl.
  split; [eexists; by rewrite lookup_insert_eq|].
  unfold class_of, proxy_of. wsimpl. rewrite !lookup_insert_eq.
  cbn [mbind option_bind mClass mObject default].
  split; [|split; [|split; [|split]]].
  - unfold add_ref. destruct (weak_this =? NULL) eqn:Hw; [by rewrite Hg1|].
    rewrite lookup_insert_ne; [by rewrite Hg1|]. unfold r, new_ref.
    by rewrite Hw.
  - unfold add_ref, r, new_ref.
    destruct (Z.eqb_spec weak_this NULL) as [->|Hw]; [done|].
    rewrite (neq_eqb _ _ (alloc_nonnull _)). by rewrite lookup_insert_eq.
  - intros q Hq. by rewrite lookup_insert_ne.
  - intros h [v Hv]. unfold add_ref.
    assert (h <> c) by (intros ->; congruence).
    assert (g1 !! h = Some v) as Hg1h by (unfold g1; by rewrite lookup_insert_ne).
    destruct (weak_this =? NULL) eqn:Hw; [congruence|].
    rewrite lookup_insert_ne; [congruence|]. unfold r, new_ref. rewrite Hw.
    intros E. pose proof (alloc_lookup g1) as Hf. rewrite E in Hf. congruence.
  - rewrite acquired_app, acquired_add_ev. cbn [acquired app]. unfold add_ref.
    destruct (weak_this =? NULL) eqn:Hw.
    + split_and!; try done.
      * repeat constructor; [apply alloc_nonnull|done|by rewrite Hg1].
      * apply NoDup_singleton.
    + assert (r = alloc (dom g1)) as Hr by (unfold r, new_ref; by rewrite Hw).
      split_and!; try done.
      * repeat constructor; try apply alloc_nonnull; try done.
        -- rewrite lookup_insert_ne by (rewrite Hr; done). by rewrite Hg1.
        -- rewrite Hr. apply alloc_nonnull.
        -- pose proof (alloc_lookup g1) as Hf. rewrite <- Hr in Hf.
           unfold g1 in Hf. rewrite lookup_insert_ne in Hf; [done|].
           rewrite Hr. done.
        -- by rewrite lookup_insert_eq.
      * apply NoDup_cons. split; [|apply NoDup_singleton].
        rewrite list_elem_of_singleton. rewrite Hr. done.
Qed.

Lemma setup_without_class env thiz weak_this old w :
  env <> NULL → GetObjectClass thiz = NULL → wf w →
  jfields w !! thiz = Some old →
  let p := alloc (dom (heap w)) in
  eventHandlerSetup env thiz weak_this NO_ERROR w =
    Ok tt (set_jfields (insert thiz p)
             (set_registry (fun s => {[p]} ∪ s)
                (set_heap (fun h => <[p:=mkHandler None None 2]>
                                      (alter (add_strong (-1)) old h)) w)))
       ([EvLog LOG_DEBUG FUNCTION_eventHandlerSetup; EvNew p;
         EvLog LOG_ERROR ("Can't find class " +:+ kAudioVolumeChangeHandlerClassPathName);
         EvIncStrong p IdSp; EvAddCallback p NO_ERROR; EvIncStrong p IdAudioSystem;
         EvLock; EvGetLongField thiz old] ++ inc_ev old IdSp
        ++ [EvIncStrong p IdSetJniCallback] ++ dec_ev old IdSetJniCallback
        ++ [EvSetLongField thiz p; EvUnlock] ++ dec_ev old IdSp
        ++ [EvDecStrong p IdSp]).
Proof.
  intros He Hc Hwf Hs p.
  pose proof (neq_eqb _ _ He) as He'.
  pose proof (alloc_nonnull (dom (heap w))) as Hp.
  pose proof (neq_eqb _ _ Hp) as Hp'.
  pose proof (wf_unlocked _ Hwf) as Hl. pose proof (wf_fid _ Hwf) as Hf.
  subst p. unfold inc_ev, dec_ev.
  unfold eventHandlerSetup, ALOG, addAudioVolumeGroupCallback.
  mexec.
  rewrite (bind_step _ _ _ _ _ _ (new_failed _ _ _ _ He Hc)). mexec.
  erewrite bind_step by (apply sp_acquire_eq; [done|hlook]).
  mexec.
  erewrite bind_step by (apply incStrong_eq; [done|hlook]).
  mexec.
  unfold setJniCallback, Autolock_acquire, Autolock_release, GetLongField,
    SetLongField, via_env, sp_acquire, sp_release.
  destruct (Z.eqb_spec old NULL) as [->|Hold].
  - mexec.
    erewrite bind_step by (apply incStrong_eq; [done|hlook]).
    mexec.
    erewrite decStrong_keep; [|done|hlook|wsimpl; lia].
    mexec. apply Ok_eq; [weq|done].
    rewrite !insert_insert_eq. f_equal. apply map_eq. intros i.
    rewrite lookup_alter. case_decide; [subst i|done].
    by rewrite (wf_heap_null _ Hwf).
  - pose proof (wf_slot _ Hwf _ _ Hs Hold) as Hreg.
    apply (wf_registry _ Hwf) in Hreg as [oo Hoo].
    destruct (wf_count _ Hwf _ _ Hoo) as [[_ Hn]|[Hni _]];
      [|destruct Hni; by exists thiz].
    assert (Hne : alloc (dom (heap w)) <> old).
    { intros E. pose proof (alloc_lookup (heap w)) as H. rewrite E in H. congruence. }
    assert (Hne' : old <> alloc (dom (heap w))) by done.
    pose proof (neq_eqb _ _ Hold) as Hold'.
    mexec.
    erewrite bind_step by (apply incStrong_eq; [done|hlook]).
    mexec.
    erewrite bind_step by (apply incStrong_eq; [done|hlook]).
    mexec.
    erewrite bind_step by (apply decStrong_keep; [done|hlook|wsimpl; lia]).
    mexec.
    erewrite bind_step by (apply decStrong_keep; [done|hlook|wsimpl; lia]).
    mexec.
    erewrite decStrong_keep; [|done|hlook|wsimpl; lia].
    mexec. apply Ok_eq; [weq|done].
    apply map_eq. intros i. rewrite !lookup_insert, lookup_alter.
    repeat case_decide; try done; try congruence.
    rewrite Hoo. simpl. unfold add_strong. do 2 f_equal. lia.
Qed.

(** X9.  When [GetObjectClass] finds no class the constructor logs the error
    and returns with both members unassigned, and [eventHandlerSetup] does
    not look at that: when the event source accepts the registration, the
    bridge is registered and put in the slot all the same, with neither
    member assigned and without a single global reference. *)
Theorem setup_without_class_installs_an_empty_bridge env thiz weak_this old w :
  env <> NULL → thread_env w = env → wf w → jfields w !! thiz = Some old →
  GetObjectClass thiz = NULL →
  ∃ w' t p,
    eventHandlerSetup env thiz weak_this NO_ERROR w = Ok tt w' t
    ∧ p <> NULL ∧ jfields w' !! thiz = Some p ∧ p ∈ registry w'
    ∧ heap w' !! p = Some (mkHandler None None 2)
    ∧ globals w' = globals w ∧ acquired t = []
    ∧ EvLog LOG_ERROR ("Can't find class " +:+ kAudioVolumeChangeHandlerClassPathName) ∈ t.
Proof.
  intros He Ht Hwf Hs Hc.
  pose proof (alloc_nonnull (dom (heap w))) as Hp.
  pose proof (neq_eqb _ _ Hp) as Hp'. pose proof (neq_eqb _ _ He) as He'.
  pose proof (wf_fid _ Hwf) as Hf. pose proof (wf_unlocked _ Hwf) as Hl.
  eexists _, _, (alloc (dom (heap w))).
  split; [by apply setup_without_class|]. wsimpl.
  rewrite !lookup_insert_eq.
  split; [done|]. split; [done|].
  split; [apply elem_of_union_l; by apply elem_of_singleton|].
  split; [done|]. split; [done|]. split.
  { rewrite !acquired_app. unfold inc_ev, dec_ev.
    by destruct (old =? NULL). }
  do 2 apply list_elem_of_further. apply list_elem_of_here.
Qed.

(** X10.  The destructor returns at once on a thread that is not attached
    to the VM: a bridge whose last strong reference is dropped there is
    destroyed without a single [DeleteGlobalRef].  Its global references stay
    in the table, where no live bridge owns them any more. *)
Theorem destruction_on_a_detached_thread_leaks_references p id o w :
  wf w → thread_env w = NULL → heap w !! p = Some o → mStrong o = 1 →
  ∃ w' t, decStrong p id w = Ok tt w' t
          ∧ heap w' = delete p (heap w) ∧ globals w' = globals w
          ∧ destroyed t = [p] ∧ released t = []
          ∧ ∃ h, owns o h ∧ is_Some (globals w' !! h)
                 ∧ ¬ ∃ q oq, heap w' !! q = Some oq ∧ owns oq h.
Proof.
  intros Hwf Ht Ho Hn.
  assert (Hp : p <> NULL) by (intros ->; by rewrite (wf_heap_null _ Hwf) in Ho).
  eexists _, _. split; [by eapply decStrong_last_detached|]. wsimpl.
  split; [done|]. split; [done|]. split; [done|]. split; [done|].
  destruct (wf_members _ Hwf _ _ Ho) as (c & r & Hc & Hr & Hcn & _ & Hin & _).
  exists c. split; [split; [done|by left]|]. split; [done|].
  intros (q & oq & Hq & Hown).
  apply lookup_delete_Some in Hq as [Hqp Hq].
  apply Hqp. eapply (wf_handles _ Hwf p q o oq c); try done.
  split; [done|by left].
Qed.

(** X11.  A setup that the event source accepts, on a handler whose slot is
    empty, followed by the teardown of that handler, leaves the process as it
    was: the bridge is unregistered and destroyed, and the global references
    are given back in the reverse of the order in which they were taken. *)
Theorem setup_then_teardown_restores_the_process env thiz weak_this w :
  env <> NULL → thread_env w = env → wf w →
  jfields w !! thiz = Some NULL → GetObjectClass thiz <> NULL →
  ∃ t, run env [Setup thiz weak_this NO_ERROR; Finalize thiz] w = Ok tt w t
       ∧ removed t = [alloc (dom (heap w))]
       ∧ destroyed t = [alloc (dom (heap w))]
       ∧ acquired t <> [] ∧ released t = rev (acquired t).
Proof.
  intros He Ht Hwf Hs Hc.
  pose proof (setup_accepted _ _ weak_this _ _ He Hc Hwf Hs) as Hsetup.
  set (w1 := setup_world thiz weak_this (alter (add_strong (-1)) NULL) w) in *.
  set (p := alloc (dom (heap w))).
  set (c := alloc (dom (globals w))).
  set (g1 := <[c:=GetObjectClass thiz]> (globals w)).
  set (r := new_ref weak_this g1).
  assert (Hfin : eventHandlerFinalize env thiz w1 =
                 Ok tt (finalize_world thiz p c r w1) (teardown_trace thiz p c r)).
  { pose proof (wf_setup_accepted _ weak_this _ _ Hc Hwf Hs) as Hwf1.
    apply (finalize_installed env thiz p (mkHandler (Some c) (Some r) 2) c r w1
             mJniCallback_id); try done.
    - by apply wf_unlocked.
    - by apply wf_fid.
    - unfold w1, setup_world. wsimpl. by rewrite lookup_insert_eq.
    - apply alloc_nonnull.
    - unfold w1, setup_world. wsimpl. apply elem_of_union_l. by apply elem_of_singleton.
    - unfold w1, setup_world. wsimpl. by rewrite lookup_insert_eq. }
  assert (Hw : finalize_world thiz p c r w1 = w).
  { unfold finalize_world, w1, setup_world. weq.
    - rewrite delete_insert_eq. rewrite delete_id.
      + apply map_eq. intros i. rewrite lookup_alter. case_decide; [subst i|done].
        by rewrite (wf_heap_null _ Hwf).
      + rewrite lookup_alter_ne; [apply alloc_lookup|].
        apply not_eq_sym, alloc_nonnull.
    - rewrite insert_insert_eq. by apply insert_id.
    - apply globals_restored.
    - apply set_eq. intros x.
      rewrite elem_of_difference, elem_of_union, !elem_of_singleton.
      split; [intros [[?|?] ?]; done|]. intros Hx. split; [by right|].
      intros ->. apply (wf_registry _ Hwf) in Hx as [? Hx].
      unfold p in Hx. by rewrite alloc_lookup in Hx. }
  rewrite Hw in Hfin.
  eexists. split.
  { rewrite (run_cons env (Setup thiz weak_this NO_ERROR) _ _ _ _ Hsetup).
    rewrite (run_cons env (Finalize thiz) _ _ _ _ Hfin). done. }
  unfold setup_trace, setup_prefix, teardown_trace, inc_ev, dec_ev. cbv zeta.
  rewrite Z.eqb_refl. subst p c g1 r.
  rewrite !removed_app, !destroyed_app, !acquired_app, !released_app,
    removed_add_ev, destroyed_add_ev, acquired_add_ev, released_add_ev,
    !removed_drop_ev, !destroyed_drop_ev, !acquired_drop_ev, !released_drop_ev.
  cbn [removed destroyed acquired released app].
  rewrite (neq_eqb _ _ (alloc_nonnull (dom (globals w)))).
  split; [done|]. split; [done|]. split; [done|].
  unfold new_ref. destruct (weak_this =? NULL) eqn:Hweak; [done|].
  by rewrite (neq_eqb _ _ (alloc_nonnull _)).
Qed.

(** ** Global references along a trace *)

Lemma refs_after_app g t1 t2 :
  refs_after g (t1 ++ t2) = refs_after (refs_after g t1) t2.
Proof. revert g. induction t1 as [|[] t1 IH]; intros g; simpl; auto. Qed.

Lemma refs_sound_app g t1 t2 :
  refs_sound g (t1 ++ t2) ↔ refs_sound g t1 ∧ refs_sound (refs_after g t1) t2.
Proof.
  revert g. induction t1 as [|[] t1 IH]; intros g; simpl; rewrite ?IH; tauto.
Qed.

Lemma refless_trace g t :
  Forall refless t → refs_after g t = g ∧ refs_sound g t.
Proof. induction 1 as [|[] t ? ? IH]; simpl in *; tauto. Qed.

Lemma refless_inc_ev p id : Forall refless (inc_ev p id).
Proof. unfold inc_ev. destruct (p =? NULL); repeat constructor. Qed.

Lemma refless_dec_ev p id : Forall refless (dec_ev p id).
Proof. unfold dec_ev. destruct (p =? NULL); repeat constructor. Qed.

Lemma refless_exception_ev b : Forall refless (exception_ev b).
Proof. destruct b; repeat constructor. Qed.

Lemma refs_after_add_ev g h o : refs_after g (add_ev h o) = add_ref h o g.
Proof. unfold add_ev, add_ref. by destruct (o =? NULL). Qed.

Lemma refs_after_drop_ev g h : refs_after g (drop_ev h) = drop_ref h g.
Proof. unfold drop_ev, drop_ref. by destruct (h =? NULL). Qed.

Lemma refs_sound_add_ev g h o :
  refs_sound g (add_ev h o) ↔ (o = NULL ∨ (h <> NULL ∧ g !! h = None)).
Proof.
  unfold add_ev. destruct (Z.eqb_spec o NULL); simpl; [tauto|]. tauto.
Qed.

Lemma refs_sound_drop_ev g h :
  refs_sound g (drop_ev h) ↔ (h = NULL ∨ is_Some (g !! h)).
Proof.
  unfold drop_ev. destruct (Z.eqb_spec h NULL); simpl; [tauto|]. tauto.
Qed.

Ltac rwalk :=
  repeat first
    [ progress cbn [refs_sound refs_after]
    | rewrite refs_sound_app
    | rewrite refs_after_app
    | rewrite refs_after_add_ev
    | rewrite refs_after_drop_ev
    | rewrite refs_sound_add_ev
    | rewrite refs_sound_drop_ev
    | rewrite (proj1 (refless_trace _ _ (refless_inc_ev _ _)))
    | rewrite (proj1 (refless_trace _ _ (refless_dec_ev _ _)))
    | rewrite (proj1 (refless_trace _ _ (refless_exception_ev _))) ].

Ltac rsilence :=
  try (apply refless_trace;
       auto using refless_inc_ev, refless_dec_ev, refless_exception_ev).

Lemma new_ref_fresh weak_this (g : gmap Z Z) :
  weak_this = NULL ∨ (new_ref weak_this g <> NULL ∧ g !! new_ref weak_this g = None).
Proof.
  unfold new_ref. destruct (Z.eqb_spec weak_this NULL); [by left|right].
  split; [apply alloc_nonnull|apply alloc_lookup].
Qed.

Lemma new_ref_held weak_this (g : gmap Z Z) :
  new_ref weak_this g = NULL
  ∨ is_Some (add_ref (new_ref weak_this g) weak_this g !! new_ref weak_this g).
Proof.
  unfold new_ref, add_ref. destruct (Z.eqb_spec weak_this NULL); [by left|right].
  by rewrite lookup_insert_eq.
Qed.

Lemma step_outcome_refs w s w' t :
  wf w → step_outcome w s w' t →
  refs_sound (globals w) t ∧ refs_after (globals w) t = globals w'.
Proof.
  intros Hwf.
  destruct 1 as [thiz weak_this status Hst | thiz weak_this old Hs | thiz Hs
                | thiz p o c r Hs Hp Ho Hn Hc Hr | this group flags Hin
                | this group flags Hout].
  - unfold rejected_trace. cbv zeta.
    set (c := alloc (dom (globals w))).
    set (g1 := <[c:=GetObjectClass thiz]> (globals w)).
    set (r := new_ref weak_this g1).
    rwalk. fold g1.
    assert (Hcr : c <> r).
    { intros E. destruct (new_ref_fresh weak_this g1) as [->|[_ Hf]].
      - unfold r, new_ref in E. simpl in E. by apply (alloc_nonnull (dom (globals w))).
      - fold r in Hf. rewrite <- E in Hf. unfold g1 in Hf.
        by rewrite lookup_insert_eq in Hf. }
    split; [|apply globals_restored].
    split_and!; try done.
    + apply alloc_nonnull.
    + apply alloc_lookup.
    + apply new_ref_fresh.
    + apply new_ref_held.
    + right. rewrite lookup_drop_ref by done. unfold add_ref.
      destruct (weak_this =? NULL); [unfold g1; by rewrite lookup_insert_eq|].
      rewrite lookup_insert_ne by done. unfold g1. by rewrite lookup_insert_eq.
  - unfold setup_trace, setup_prefix, setup_world. cbv zeta. wsimpl.
    rwalk. split; [|done].
    split_and!; try done; rsilence.
    + apply alloc_nonnull.
    + apply alloc_lookup.
    + apply new_ref_fresh.
  - done.
  - unfold teardown_trace, finalize_world. wsimpl. rwalk. split; [|done].
    destruct (wf_members _ Hwf _ _ Ho) as (c' & r' & Hc' & Hr' & Hcn & Hcr & Hic & Hir).
    assert (c' = c) as -> by congruence. assert (r' = r) as -> by congruence.
    split_and!; try done. right. by rewrite lookup_drop_ref.
  - unfold delivery_trace. cbv zeta. rwalk. split_and!; try done; rsilence.
  - done.
Qed.

Lemma run_outcome_refs w ss w' t :
  run_outcome w ss w' t →
  refs_sound (globals w) t ∧ refs_after (globals w) t = globals w'.
Proof.
  induction 1 as [|w s ss w1 t1 w2 t2 Hwf _ Hs _ [IH1 IH2]]; [done|].
  destruct (step_outcome_refs _ _ _ _ Hwf Hs) as [H1 H2].
  rewrite refs_sound_app, refs_after_app, H2. done.
Qed.

(** X12.  No global reference is given back twice, and none that the file
    did not take: along any sequence of setups, teardowns and deliveries on
    attached threads, every [NewGlobalRef] returns a reference that is not in
    the table, every [DeleteGlobalRef] is on a reference that is in it at
    that point, and the table at the end is the one these events produce. *)
Theorem global_references_are_released_once env ss w :
  env <> NULL → thread_env w = env → wf w → Forall (callable_step w) ss →
  ∃ w' t, run_steps env ss w = Ok tt w' t
          ∧ refs_sound (globals w) t
          ∧ refs_after (globals w) t = globals w'.
Proof.
  intros He Ht Hwf Hss.
  destruct (run_steps_outcome _ _ _ He Ht Hwf Hss) as (w' & t & Hrun & _ & _ & Ho).
  exists w', t. split; [done|]. by apply (run_outcome_refs _ ss).
Qed.

End Proofs.

(** ** The statements at a concrete host *)

Lemma bump_fresh (X : gset Z) : bump X ∉ X.
Proof.
  unfold bump. pose proof (is_fresh ({[NULL]} ∪ X)) as H.
  intros Hin. apply H. by apply elem_of_union_r.
Qed.

Lemma bump_nonnull (X : gset Z) : bump X <> NULL.
Proof.
  unfold bump. pose proof (is_fresh ({[NULL]} ∪ X)) as H.
  intros E. apply H. rewrite E. apply elem_of_union_l. by apply elem_of_singleton.
Qed.

Lemma quiet_host_ok : @HostOk quiet_host.
Proof. split; [apply bump_fresh|apply bump_nonnull]. Qed.

Lemma throwing_host_ok : @HostOk throwing_host.
Proof. split; [apply bump_fresh|apply bump_nonnull]. Qed.

Lemma register_boot :
  register_android_server_audio_AudioVolumeChangeHandler 7 (Some declared0)
    fresh_process = Ok 0 boot [].
Proof. vm_compute. reflexivity. Qed.

Lemma wf_boot : wf boot.
Proof.
  apply wf_without_bridges; try done.
  intros thiz v Hs. unfold boot in Hs. simpl in Hs.
  by apply lookup_singleton_Some in Hs as [_ <-].
Qed.

Lemma installed0_eq :
  installed0 =
  setup_world (host:=quiet_host) 100 200 (alter (add_strong (-1)) NULL) boot.
Proof. vm_compute. reflexivity. Qed.

Lemma wf_installed0 : wf installed0.
Proof.
  rewrite installed0_eq.
  apply (wf_setup_accepted (host:=quiet_host) (host_ok:=quiet_host_ok));
    [done|apply wf_boot|done].
Qed.

Lemma callable_boot c : owner c = 100 → callable (host:=quiet_host) boot c.
Proof. intros E. split; [rewrite E; by eexists|done]. Qed.

Lemma callable_installed0 c :
  owner c = 100 → callable (host:=quiet_host) installed0 c.
Proof. intros E. split; [rewrite E; by eexists|done]. Qed.

Lemma slot_holds_at_most_one_bridge_witness :
  7 <> NULL ∧ thread_env boot = 7 ∧ wf boot
  ∧ Forall (callable (host:=quiet_host) boot) calls0
  ∧ ∃ w' t,
      run (host:=quiet_host) 7 (take 3 calls0) boot = Ok tt w' t
      ∧ (∀ thiz, slot_holds_at_most_one w' thiz)
      ∧ no_slot_dangles (jfields boot) t.
Proof.
  assert (Hc : Forall (callable (host:=quiet_host) boot) calls0).
  { repeat constructor; by apply callable_boot. }
  split; [done|]. split; [reflexivity|]. split; [apply wf_boot|]. split; [exact Hc|].
  apply (slot_holds_at_most_one_bridge (host_ok:=quiet_host_ok) 7 boot calls0 3);
    [done|reflexivity|apply wf_boot|exact Hc].
Defined.

Lemma setJniCallback_swaps_under_the_lock_witness :
  7 <> NULL ∧ gLock replaced0 = false
  ∧ gAudioVolumeChangeHandlerFields replaced0 = Some mJniCallback_id
  ∧ heap replaced0 !! NULL = None
  ∧ jfields replaced0 !! 100 = Some 2
  ∧ (2 <> NULL → 1 <= strong replaced0 2)
  ∧ (1 <> NULL → is_Some (heap replaced0 !! 1))
  ∧ ∃ w' t,
      setJniCallback 7 100 1 replaced0 = Ok 2 w' t
      ∧ t = [EvLock; EvGetLongField 100 2; EvIncStrong 2 IdSp;
             EvIncStrong 1 IdSetJniCallback; EvDecStrong 2 IdSetJniCallback;
             EvSetLongField 100 1; EvUnlock]
      ∧ setJniCallback 7 100 1 (set_gLock true replaced0) = Fault Deadlock []
      ∧ written 100 t = [1] ∧ destroyed t = []
      ∧ strong w' 1 = 2 ∧ strong w' 2 = 2
      ∧ (true, 0) ∈ slot_points 100 2 2 1 t.
Proof.
  assert (H1 : 2 <> NULL → 1 <= strong replaced0 2) by (intros _; by vm_compute).
  assert (H2 : 1 <> NULL → is_Some (heap replaced0 !! 1)) by (intros _; by eexists).
  split; [done|]. split; [reflexivity|]. split; [reflexivity|].
  split; [reflexivity|]. split; [reflexivity|]. split; [exact H1|]. split; [exact H2|].
  destruct (setJniCallback_swaps_under_the_lock 7 100 1 2 replaced0
              mJniCallback_id)
    as (w' & t & Hrun & Ht & Hlk & _ & Hw & Hd & _ & _ & _ & Hs & _ & Hp & _);
    [done|reflexivity|reflexivity|reflexivity|reflexivity|exact H1|exact H2|].
  exists w', t. split; [exact Hrun|]. split; [exact Ht|].
  split; [apply Hlk; reflexivity|]. split; [exact Hw|].
  split; [exact Hd|]. rewrite !Hs. split; [reflexivity|]. split; [reflexivity|].
  apply Hp; done.
Defined.

Lemma rejected_setup_leaves_slot_and_leaks_nothing_witness :
  7 <> NULL ∧ thread_env boot = 7
  ∧ GetObjectClass (Host:=quiet_host) 100 <> NULL ∧ -22 <> NO_ERROR
  ∧ ∃ t,
      eventHandlerSetup (host:=quiet_host) 7 100 200 (-22) boot = Ok tt boot t
      ∧ written 100 t = [] ∧ removed t = [] ∧ acquired t <> []
      ∧ released t = reverse (acquired t)
      ∧ destroyed t = [alloc (Host:=quiet_host) (dom (heap boot))].
Proof.
  split; [done|]. split; [reflexivity|]. split; [done|]. split; [done|].
  apply (rejected_setup_leaves_slot_and_leaks_nothing
           (host_ok:=quiet_host_ok) 7 100 200 (-22) boot); done.
Defined.

Lemma dispatch_error_is_contained_witness :
  wf installed0 ∧ thread_env installed0 <> NULL
  ∧ jfields installed0 !! 100 = Some 1 ∧ 1 <> NULL
  ∧ java_throws (Host:=throwing_host)
      (payload (host:=throwing_host) (proxy_of installed0 1) 3 1) = true
  ∧ ∃ t',
      onAudioVolumeGroupChanged (host:=throwing_host) 1 3 1 installed0 =
        Ok tt installed0
           [EvCallStaticVoidMethod (class_of installed0 1) "postEventFromNative"
              (payload (host:=throwing_host) (proxy_of installed0 1) 3 1);
            EvExceptionCheck true;
            EvLog LOG_WARN "An exception occurred while notifying an event.";
            EvExceptionClear]
      ∧ 1 ∈ registry installed0
      ∧ onAudioVolumeGroupChanged (host:=throwing_host) 1 4 0 installed0 =
          Ok tt installed0 t'
      ∧ dispatched t' =
          [(class_of installed0 1, "postEventFromNative",
            payload (host:=throwing_host) (proxy_of installed0 1) 4 0)].
Proof.
  split; [apply wf_installed0|]. split; [done|]. split; [reflexivity|].
  split; [done|]. split; [reflexivity|].
  apply (dispatch_error_is_contained (host:=throwing_host) 100 1 3 1 4 0 installed0);
    [apply wf_installed0|done|reflexivity|done|reflexivity].
Defined.

Lemma event_is_dispatched_once_with_five_arguments_witness :
  7 <> NULL ∧ thread_env installed0 = 7 ∧ wf installed0
  ∧ 1 ∈ registry installed0
  ∧ jfields installed0 !! 100 = Some 1
  ∧ GetObjectClass (Host:=quiet_host) 100 <> NULL
  ∧ (∃ t,
       onAudioVolumeGroupChanged (host:=quiet_host) 1 3 1 installed0
         = Ok tt installed0 t
       ∧ dispatched t =
           [(class_of installed0 1, "postEventFromNative",
             [JObject (proxy_of installed0 1); JInt 1000; JInt 3; JInt 1;
              JObject NULL])])
  ∧ (∃ w1 t1 b t2,
       eventHandlerSetup (host:=quiet_host) 7 100 201 NO_ERROR installed0
         = Ok tt w1 t1
       ∧ jfields w1 !! 100 = Some b ∧ b <> NULL ∧ b ∈ registry w1
       ∧ onAudioVolumeGroupChanged (host:=quiet_host) b 3 1 w1 = Ok tt w1 t2
       ∧ dispatched t2 =
           [(500, "postEventFromNative",
             [JObject 201; JInt 1000; JInt 3; JInt 1; JObject NULL])])
  ∧ sig_params false (m_sig postEventFromNative_id)
    = Some [TObject; TInt; TInt; TInt; TObject].
Proof.
  assert (Hr : 1 ∈ registry installed0) by (vm_compute; reflexivity).
  split; [done|]. split; [reflexivity|]. split; [apply wf_installed0|].
  split; [exact Hr|]. split; [reflexivity|]. split; [done|].
  apply (event_is_dispatched_once_with_five_arguments
           (host_ok:=quiet_host_ok) 7 100 201 1 1 3 1 installed0);
    [done|reflexivity|apply wf_installed0|exact Hr|reflexivity|done].
Defined.

Lemma second_setup_supersedes_first_witness :
  7 <> NULL ∧ thread_env boot = 7 ∧ wf boot
  ∧ is_Some (jfields boot !! 100)
  ∧ GetObjectClass (Host:=quiet_host) 100 <> NULL
  ∧ ∃ w1 t1 w2 t2 w3 t3 b1 b2,
      eventHandlerSetup (host:=quiet_host) 7 100 200 NO_ERROR boot = Ok tt w1 t1
      ∧ jfields w1 !! 100 = Some b1 ∧ b1 <> NULL ∧ strong w1 b1 = 2
      ∧ eventHandlerSetup (host:=quiet_host) 7 100 201 NO_ERROR w1 = Ok tt w2 t2
      ∧ jfields w2 !! 100 = Some b2 ∧ b2 <> NULL ∧ b2 <> b1
      ∧ b2 ∈ registry w2
      ∧ removed t2 = []
      ∧ strong w2 b1 = 1 ∧ ¬ installed w2 b1 ∧ b1 ∈ registry w2
      ∧ eventHandlerFinalize 7 100 w2 = Ok tt w3 t3
      ∧ removed t3 = [b2].
Proof.
  assert (Hs : is_Some (jfields boot !! 100)) by (by eexists).
  split; [done|]. split; [reflexivity|]. split; [apply wf_boot|].
  split; [exact Hs|]. split; [done|].
  apply (second_setup_supersedes_first (host_ok:=quiet_host_ok) 7 100 200 201 boot);
    [done|reflexivity|apply wf_boot|exact Hs|done].
Defined.

Lemma teardown_is_idempotent_witness :
  7 <> NULL ∧ thread_env installed0 = 7 ∧ wf installed0
  ∧ jfields installed0 !! 100 = Some 1
  ∧ ∃ w1 t1 t2,
      eventHandlerFinalize 7 100 installed0 = Ok tt w1 t1
      ∧ jfields w1 !! 100 = Some NULL
      ∧ eventHandlerFinalize 7 100 w1 = Ok tt w1 t2
      ∧ removed t2 = [] ∧ destroyed t2 = []
      ∧ (1 = NULL → w1 = installed0 ∧ t1 = t2).
Proof.
  split; [done|]. split; [reflexivity|]. split; [apply wf_installed0|].
  split; [reflexivity|].
  apply (teardown_is_idempotent 7 100 1 installed0);
    [done|reflexivity|apply wf_installed0|reflexivity].
Defined.

Lemma teardown_unregisters_before_destruction_witness :
  7 <> NULL ∧ thread_env installed0 = 7 ∧ wf installed0
  ∧ jfields installed0 !! 100 = Some 1 ∧ 1 <> NULL
  ∧ ∃ w',
      eventHandlerFinalize 7 100 installed0 =
        Ok tt w'
           [EvLog LOG_DEBUG FUNCTION_eventHandlerFinalize; EvLock;
            EvGetLongField 100 1; EvIncStrong 1 IdSp;
            EvDecStrong 1 IdSetJniCallback; EvSetLongField 100 NULL; EvUnlock;
            EvRemoveCallback 1; EvDecStrong 1 IdAudioSystem;
            EvDecStrong 1 IdSp; EvDestroy 1;
            EvDeleteGlobalRef 2; EvDeleteGlobalRef 1]
      ∧ precedes (EvRemoveCallback 1) (EvDecStrong 1 IdSp)
          (trace_of (eventHandlerFinalize 7 100 installed0))
      ∧ heap w' !! 1 = None ∧ (1 ∉ registry w').
Proof.
  split; [done|]. split; [reflexivity|]. split; [apply wf_installed0|].
  split; [reflexivity|]. split; [done|].
  destruct (teardown_unregisters_before_destruction 7 100 1 installed0)
    as (w' & c & r & Hrun & _ & Hp & _ & _ & _ & Hh & Hr & _);
    [done|reflexivity|apply wf_installed0|reflexivity|done|].
  exists w'. split; [|by split_and!].
  rewrite Hrun. vm_compute in Hrun. injection Hrun as _ Ht. by rewrite Ht.
Defined.

Lemma displaced_bridge_stays_registered_witness :
  7 <> NULL ∧ thread_env installed0 = 7 ∧ wf installed0
  ∧ jfields installed0 !! 100 = Some 1 ∧ 1 <> NULL
  ∧ GetObjectClass (Host:=quiet_host) 100 <> NULL
  ∧ Forall (callable (host:=quiet_host) installed0)
      [Finalize 100; Setup 100 202 NO_ERROR]
  ∧ ∃ w1 t1 w2 t2 t3,
      eventHandlerSetup (host:=quiet_host) 7 100 201 NO_ERROR installed0
        = Ok tt w1 t1
      ∧ run (host:=quiet_host) 7 [Finalize 100; Setup 100 202 NO_ERROR] w1
        = Ok tt w2 t2
      ∧ (1 ∉ removed (t1 ++ t2)) ∧ (1 ∉ destroyed (t1 ++ t2))
      ∧ strong installed0 1 = 2 ∧ strong w1 1 = 1 ∧ strong w2 1 = 1
      ∧ 1 ∈ registry w2 ∧ ¬ installed w2 1
      ∧ onAudioVolumeGroupChanged (host:=quiet_host) 1 3 1 w2 = Ok tt w2 t3
      ∧ dispatched t3 =
          [(class_of installed0 1, "postEventFromNative",
            payload (host:=quiet_host) (proxy_of installed0 1) 3 1)].
Proof.
  assert (Hc : Forall (callable (host:=quiet_host) installed0)
                 [Finalize 100; Setup 100 202 NO_ERROR]).
  { repeat constructor; by apply callable_installed0. }
  split; [done|]. split; [reflexivity|]. split; [apply wf_installed0|].
  split; [reflexivity|]. split; [done|]. split; [done|]. split; [exact Hc|].
  apply (displaced_bridge_stays_registered (host_ok:=quiet_host_ok)
           7 100 201 1 [Finalize 100; Setup 100 202 NO_ERROR] 3 1 installed0);
    [done|reflexivity|apply wf_installed0|reflexivity|done|done|exact Hc].
Defined.

Lemma detached_thread_drops_event_and_keeps_references_witness :
  thread_env detached0 = NULL
  ∧ onAudioVolumeGroupChanged (host:=quiet_host) 1 3 1 detached0
    = Ok tt detached0 []
  ∧ JNIAudioVolumeChangeHandler_dtor 1 detached0 = Ok tt detached0 [].
Proof.
  split; [reflexivity|].
  apply (detached_thread_drops_event_and_keeps_references
           (host:=quiet_host) 1 3 1 detached0).
  reflexivity.
Defined.

(** C1 as the spec states it, at two setups and a teardown of handler [100].
    After the second setup the event source holds two bridges built for the
    one owner, of which the slot shows one.  After the teardown the slot is
    empty, and bridge [1], built for that owner, is still registered and
    still calls the owner's first proxy: the slot does not say whether a
    bridge is registered for its owner. *)
Lemma slot_does_not_tell_what_is_registered :
  world_of (run (host:=quiet_host) 7 (take 2 calls0) boot) = Some replaced0
  ∧ jfields replaced0 !! 100 = Some 2 ∧ registry replaced0 = {[ 1; 2 ]}
  ∧ proxy_of replaced0 1 = 200 ∧ proxy_of replaced0 2 = 201
  ∧ world_of (run (host:=quiet_host) 7 (take 3 calls0) boot) = Some orphaned0
  ∧ jfields orphaned0 !! 100 = Some NULL ∧ registry orphaned0 = {[ 1 ]}
  ∧ dispatched
      (trace_of (onAudioVolumeGroupChanged (host:=quiet_host) 1 3 1 orphaned0))
    = [(500, "postEventFromNative",
        [JObject 200; JInt 1000; JInt 3; JInt 1; JObject NULL])].
Proof.
  split; [by vm_compute|]. split; [reflexivity|]. split; [reflexivity|].
  split; [by vm_compute|]. split; [by vm_compute|]. split; [by vm_compute|].
  split; [reflexivity|]. split; [reflexivity|]. by vm_compute.
Qed.

(** C2 as the spec states it, at the swaps of the slot of handler [100], which
    holds bridge [1] with one reference counted by [setJniCallback].  In the
    swap to null the reference is dropped (line 99) before the slot is
    written (line 101): at the fourth point the slot shows bridge [1] and no
    such reference is left.  In the swap of bridge [1] with itself the new
    reference is taken (line 96) before the old one is dropped: at the fourth
    point the bridge counts two. *)
Lemma swap_drops_the_reference_before_the_write :
  trace_of (setJniCallback 7 100 NULL installed0) =
    [EvLock; EvGetLongField 100 1; EvIncStrong 1 IdSp;
     EvDecStrong 1 IdSetJniCallback; EvSetLongField 100 NULL; EvUnlock]
  ∧ slot_points 100 1 1 1 (trace_of (setJniCallback 7 100 NULL installed0)) =
    [(true, 1); (true, 1); (true, 1); (true, 0); (false, 0); (false, 0)]
  ∧ trace_of (setJniCallback 7 100 1 installed0) =
    [EvLock; EvGetLongField 100 1; EvIncStrong 1 IdSp;
     EvIncStrong 1 IdSetJniCallback; EvDecStrong 1 IdSetJniCallback;
     EvSetLongField 100 1; EvUnlock]
  ∧ slot_points 100 1 1 1 (trace_of (setJniCallback 7 100 1 installed0)) =
    [(true, 1); (true, 1); (true, 1); (true, 2); (true, 1); (true, 1);
     (true, 1)].
Proof. repeat split; by vm_compute. Qed.

(** C5 as the spec states it, at the spec's own scenario: the setup of owner
    [100] with observer [200] is accepted, the event source fires
    [onEvent(3, 1)], and the one call that reaches Java has five arguments. It
    is not the call [dispatch(P, VOLUME_CHANGED, 3, 1, 0, null)] of the claim,
    whose six arguments do not even fit the signature of the method. *)
Lemma dispatch_has_no_third_integer :
  world_of (eventHandlerSetup (host:=quiet_host) 7 100 200 NO_ERROR boot)
    = Some installed0
  ∧ jfields installed0 !! 100 = Some 1
  ∧ dispatched
      (trace_of (onAudioVolumeGroupChanged (host:=quiet_host) 1 3 1 installed0))
    = [(500, "postEventFromNative",
        [JObject 200; JInt 1000; JInt 3; JInt 1; JObject NULL])]
  ∧ dispatched
      (trace_of (onAudioVolumeGroupChanged (host:=quiet_host) 1 3 1 installed0))
    <> [(500, "postEventFromNative",
         [JObject 200; JInt 1000; JInt 3; JInt 1; JInt 0; JObject NULL])]
  ∧ (sig_params false (m_sig postEventFromNative_id) ≫= fun tys =>
       Some (args_match
               [JObject 200; JInt 1000; JInt 3; JInt 1; JInt 0; JObject NULL] tys))
    = Some false.
Proof.
  split; [by vm_compute|]. split; [reflexivity|].
  split; [by vm_compute|]. split; [by vm_compute|]. reflexivity.
Qed.

Lemma classless_host_ok : @HostOk classless_host.
Proof. split; [apply bump_fresh|apply bump_nonnull]. Qed.

Lemma callable_steps0 : Forall (callable_step (host:=quiet_host) boot) steps0.
Proof.
  unfold steps0.
  repeat (apply Forall_cons_2;
          [simpl; first [exact I | by apply callable_boot]|]).
  apply Forall_nil_2.
Qed.

Lemma globals_owned_boot : globals_owned boot.
Proof. intros h [v Hv]. unfold boot in Hv. simpl in Hv. by rewrite lookup_empty in Hv. Qed.

Lemma wf_boot2 : wf boot2.
Proof.
  apply wf_without_bridges; try done.
  intros thiz v Hs. unfold boot2 in Hs. simpl in Hs.
  apply lookup_insert_Some in Hs as [[_ <-]|[_ Hs]]; [done|].
  by apply lookup_singleton_Some in Hs as [_ <-].
Qed.

Lemma installed2_eq :
  installed2 =
  setup_world (host:=quiet_host) 100 200 (alter (add_strong (-1)) NULL) boot2.
Proof. vm_compute. reflexivity. Qed.

Lemma wf_installed2 : wf installed2.
Proof.
  rewrite installed2_eq.
  apply (wf_setup_accepted (host:=quiet_host) (host_ok:=quiet_host_ok));
    [done|apply wf_boot2|done].
Qed.

Lemma callable_steps2 : Forall (callable_step (host:=quiet_host) installed2) steps2.
Proof.
  unfold steps2.
  repeat (apply Forall_cons_2;
          [simpl; first [exact I | split; [by eexists|done]]|]).
  apply Forall_nil_2.
Qed.

Lemma replaced0_eq :
  replaced0 =
  setup_world (host:=quiet_host) 100 201 (alter (add_strong (-1)) 1) installed0.
Proof. vm_compute. reflexivity. Qed.

Lemma wf_replaced0 : wf replaced0.
Proof.
  rewrite replaced0_eq.
  apply (wf_setup_accepted (host:=quiet_host) (host_ok:=quiet_host_ok));
    [done|apply wf_installed0|done].
Qed.

Lemma wf_detached1 : wf detached1.
Proof. destruct wf_replaced0. by constructor. Qed.

Lemma class_fits_declared0 : class_fits (Some declared0).
Proof.
  exists declared0. split; [done|].
  split; [apply list_elem_of_here|].
  split; [apply list_elem_of_further, list_elem_of_here|].
  intros m Hm. unfold gMethods in Hm.
  apply elem_of_cons in Hm as [->|Hm];
    [do 2 apply list_elem_of_further; apply list_elem_of_here|].
  apply list_elem_of_singleton in Hm as ->.
  do 3 apply list_elem_of_further. apply list_elem_of_here.
Qed.

Lemma lock_covers_the_swap_and_nothing_else_witness :
  7 <> NULL ∧ thread_env boot = 7 ∧ wf boot
  ∧ Forall (callable_step (host:=quiet_host) boot) steps0
  ∧ ∃ w' t, run_steps (host:=quiet_host) 7 steps0 boot = Ok tt w' t
            ∧ lock_discipline false t ∧ lock_after false t = false
            ∧ gLock w' = false.
Proof.
  split; [done|]. split; [reflexivity|]. split; [apply wf_boot|].
  split; [apply callable_steps0|].
  apply (lock_covers_the_swap_and_nothing_else (host_ok:=quiet_host_ok)
           7 steps0 boot);
    [done|reflexivity|apply wf_boot|apply callable_steps0].
Defined.

Lemma registrations_are_conserved_witness :
  7 <> NULL ∧ thread_env boot = 7 ∧ wf boot
  ∧ Forall (callable_step (host:=quiet_host) boot) steps0
  ∧ ∃ w' t, run_steps (host:=quiet_host) 7 steps0 boot = Ok tt w' t
            ∧ (size (registry w') + length (removed t) =
               size (registry boot) + accepted (natives steps0))%nat
            ∧ dom (heap w') = registry w'.
Proof.
  split; [done|]. split; [reflexivity|]. split; [apply wf_boot|].
  split; [apply callable_steps0|].
  apply (registrations_are_conserved (host_ok:=quiet_host_ok) 7 steps0 boot);
    [done|reflexivity|apply wf_boot|apply callable_steps0].
Defined.

Lemma global_references_belong_to_live_bridges_witness :
  7 <> NULL ∧ thread_env boot = 7 ∧ wf boot
  ∧ Forall (callable_step (host:=quiet_host) boot) steps0
  ∧ globals_owned boot
  ∧ ∃ w' t, run_steps (host:=quiet_host) 7 steps0 boot = Ok tt w' t
            ∧ (∀ h, is_Some (globals w' !! h)
                    ↔ ∃ p o, heap w' !! p = Some o ∧ owns o h)
            ∧ (heap w' = ∅ → globals w' = ∅).
Proof.
  split; [done|]. split; [reflexivity|]. split; [apply wf_boot|].
  split; [apply callable_steps0|]. split; [apply globals_owned_boot|].
  apply (global_references_belong_to_live_bridges (host_ok:=quiet_host_ok)
           7 steps0 boot);
    [done|reflexivity|apply wf_boot|apply callable_steps0|apply globals_owned_boot].
Defined.

Lemma other_owners_are_left_alone_witness :
  7 <> NULL ∧ thread_env installed2 = 7 ∧ wf installed2
  ∧ Forall (callable_step (host:=quiet_host) installed2) steps2
  ∧ (∀ c, c ∈ natives steps2 → owner c <> 100)
  ∧ jfields installed2 !! 100 = Some 1 ∧ 1 <> NULL
  ∧ ∃ w' t, run_steps (host:=quiet_host) 7 steps2 installed2 = Ok tt w' t
            ∧ jfields w' !! 100 = Some 1
            ∧ heap w' !! 1 = heap installed2 !! 1
            ∧ 1 ∈ registry w'
            ∧ class_of w' 1 = class_of installed2 1
            ∧ proxy_of w' 1 = proxy_of installed2 1
            ∧ written 100 t = [] ∧ (1 ∉ removed t) ∧ (1 ∉ destroyed t).
Proof.
  assert (Ho : ∀ c, c ∈ natives steps2 → owner c <> 100).
  { intros c Hc. simpl in Hc.
    repeat (apply elem_of_cons in Hc as [->|Hc]; [done|]).
    by apply elem_of_nil in Hc. }
  split; [done|]. split; [reflexivity|]. split; [apply wf_installed2|].
  split; [apply callable_steps2|]. split; [exact Ho|].
  split; [reflexivity|]. split; [done|].
  apply (other_owners_are_left_alone (host_ok:=quiet_host_ok)
           7 steps2 installed2 100 1);
    [done|reflexivity|apply wf_installed2|apply callable_steps2|exact Ho
    |reflexivity|done].
Defined.

Lemma deliveries_do_not_disturb_the_natives_witness :
  7 <> NULL ∧ thread_env boot = 7 ∧ wf boot
  ∧ Forall (callable_step (host:=quiet_host) boot) steps0
  ∧ ∃ w' t, run_steps (host:=quiet_host) 7 steps0 boot = Ok tt w' t
            ∧ run (host:=quiet_host) 7 (natives steps0) boot =
                Ok tt w' (without_deliveries t)
            ∧ pending w' = false.
Proof.
  split; [done|]. split; [reflexivity|]. split; [apply wf_boot|].
  split; [apply callable_steps0|].
  apply (deliveries_do_not_disturb_the_natives (host_ok:=quiet_host_ok)
           7 steps0 boot);
    [done|reflexivity|apply wf_boot|apply callable_steps0].
Defined.

Lemma registration_succeeds_or_dies_witness :
  7 <> NULL ∧ class_fits (Some declared0) ∧ ¬ class_fits None
  ∧ register_android_server_audio_AudioVolumeChangeHandler 7 (Some declared0)
      fresh_process = Ok 0 boot []
  ∧ register_android_server_audio_AudioVolumeChangeHandler 7 None
      fresh_process = Fault Die [].
Proof.
  assert (Hn : ¬ class_fits None) by (by intros (? & ? & _)).
  split; [done|]. split; [apply class_fits_declared0|]. split; [exact Hn|].
  split.
  - destruct (registration_succeeds_or_dies 7 (Some declared0) fresh_process)
      as [Hok _]; [done|].
    exact (Hok class_fits_declared0).
  - destruct (registration_succeeds_or_dies 7 None fresh_process)
      as [_ Hdie]; [done|].
    exact (Hdie Hn).
Defined.

Lemma registration_readies_the_process_witness :
  7 <> NULL ∧ thread_env fresh_process = 7 ∧ class_fits (Some declared0)
  ∧ heap fresh_process = ∅ ∧ registry fresh_process = ∅
  ∧ (∀ thiz v, jfields fresh_process !! thiz = Some v → v = NULL)
  ∧ gLock fresh_process = false ∧ pending fresh_process = false
  ∧ Forall (callable (host:=quiet_host) fresh_process) calls0
  ∧ ∃ w' t,
      bind (register_android_server_audio_AudioVolumeChangeHandler 7
              (Some declared0))
           (fun _ => run (host:=quiet_host) 7 calls0) fresh_process = Ok tt w' t
      ∧ wf w' ∧ ∀ thiz, slot_holds_at_most_one w' thiz.
Proof.
  assert (Hs : ∀ thiz v, jfields fresh_process !! thiz = Some v → v = NULL).
  { intros thiz v Hs. unfold fresh_process in Hs. simpl in Hs.
    by apply lookup_singleton_Some in Hs as [_ <-]. }
  assert (Hc : Forall (callable (host:=quiet_host) fresh_process) calls0).
  { unfold calls0.
    repeat (apply Forall_cons_2; [split; [by eexists|done]|]).
    apply Forall_nil_2. }
  split; [done|]. split; [reflexivity|]. split; [apply class_fits_declared0|].
  split; [reflexivity|]. split; [reflexivity|]. split; [exact Hs|].
  split; [reflexivity|]. split; [reflexivity|]. split; [exact Hc|].
  apply (registration_readies_the_process (host_ok:=quiet_host_ok)
           7 (Some declared0) calls0 fresh_process);
    [done|reflexivity|apply class_fits_declared0|reflexivity|reflexivity
    |exact Hs|reflexivity|reflexivity|exact Hc].
Defined.

Lemma constructor_takes_its_own_references_witness :
  7 <> NULL ∧ GetObjectClass (Host:=quiet_host) 100 <> NULL
  ∧ ∃ p w' t,
      new_JNIAudioVolumeChangeHandler (host:=quiet_host) 7 100 200 installed0
        = Ok p w' t
      ∧ p <> NULL ∧ heap installed0 !! p = None
      ∧ (∃ o, heap w' !! p = Some o ∧ mStrong o = 0)
      ∧ class_of w' p = 500 ∧ proxy_of w' p = 200
      ∧ (∀ q, q <> p → heap w' !! q = heap installed0 !! q)
      ∧ (∀ h, is_Some (globals installed0 !! h) →
              globals w' !! h = globals installed0 !! h)
      ∧ Forall (fun h => h <> NULL ∧ globals installed0 !! h = None
                         ∧ is_Some (globals w' !! h)) (acquired t)
      ∧ NoDup (acquired t)
      ∧ length (acquired t) = 2%nat
      ∧ jfields w' = jfields installed0 ∧ registry w' = registry installed0.
Proof.
  split; [done|]. split; [done|].
  apply (constructor_takes_its_own_references (host_ok:=quiet_host_ok)
           7 100 200 installed0); done.
Defined.

Lemma setup_without_class_installs_an_empty_bridge_witness :
  7 <> NULL ∧ thread_env boot = 7 ∧ wf boot
  ∧ jfields boot !! 100 = Some NULL
  ∧ GetObjectClass (Host:=classless_host) 100 = NULL
  ∧ ∃ w' t p,
      eventHandlerSetup (host:=classless_host) 7 100 200 NO_ERROR boot
        = Ok tt w' t
      ∧ p <> NULL ∧ jfields w' !! 100 = Some p ∧ p ∈ registry w'
      ∧ heap w' !! p = Some (mkHandler None None 2)
      ∧ globals w' = globals boot ∧ acquired t = []
      ∧ EvLog LOG_ERROR
          ("Can't find class " +:+ kAudioVolumeChangeHandlerClassPathName) ∈ t.
Proof.
  split; [done|]. split; [reflexivity|]. split; [apply wf_boot|].
  split; [reflexivity|]. split; [reflexivity|].
  apply (setup_without_class_installs_an_empty_bridge
           (host_ok:=classless_host_ok) 7 100 200 NULL boot);
    [done|reflexivity|apply wf_boot|reflexivity|reflexivity].
Defined.

Lemma destruction_on_a_detached_thread_leaks_references_witness :
  wf detached1 ∧ thread_env detached1 = NULL
  ∧ heap detached1 !! 1 = Some (mkHandler (Some 1) (Some 2) 1)
  ∧ mStrong (mkHandler (Some 1) (Some 2) 1) = 1
  ∧ ∃ w' t, decStrong 1 IdAudioSystem detached1 = Ok tt w' t
            ∧ heap w' = delete 1 (heap detached1)
            ∧ globals w' = globals detached1
            ∧ destroyed t = [1] ∧ released t = []
            ∧ ∃ h, owns (mkHandler (Some 1) (Some 2) 1) h
                   ∧ is_Some (globals w' !! h)
                   ∧ ¬ ∃ q oq, heap w' !! q = Some oq ∧ owns oq h.
Proof.
  split; [apply wf_detached1|]. split; [reflexivity|]. split; [reflexivity|].
  split; [reflexivity|].
  apply (destruction_on_a_detached_thread_leaks_references
           1 IdAudioSystem (mkHandler (Some 1) (Some 2) 1) detached1);
    [apply wf_detached1|reflexivity|reflexivity|reflexivity].
Defined.

Lemma setup_then_teardown_restores_the_process_witness :
  7 <> NULL ∧ thread_env boot = 7 ∧ wf boot
  ∧ jfields boot !! 100 = Some NULL
  ∧ GetObjectClass (Host:=quiet_host) 100 <> NULL
  ∧ ∃ t, run (host:=quiet_host) 7 [Setup 100 200 NO_ERROR; Finalize 100] boot
           = Ok tt boot t
         ∧ removed t = [alloc (Host:=quiet_host) (dom (heap boot))]
         ∧ destroyed t = [alloc (Host:=quiet_host) (dom (heap boot))]
         ∧ acquired t <> [] ∧ released t = rev (acquired t).
Proof.
  split; [done|]. split; [reflexivity|]. split; [apply wf_boot|].
  split; [reflexivity|]. split; [done|].
  apply (setup_then_teardown_restores_the_process (host_ok:=quiet_host_ok)
           7 100 200 boot);
    [done|reflexivity|apply wf_boot|reflexivity|done].
Defined.

Lemma global_references_are_released_once_witness :
  7 <> NULL ∧ thread_env boot = 7 ∧ wf boot
  ∧ Forall (callable_step (host:=quiet_host) boot) steps0
  ∧ ∃ w' t, run_steps (host:=quiet_host) 7 steps0 boot = Ok tt w' t
            ∧ refs_sound (globals boot) t
            ∧ refs_after (globals boot) t = globals w'.
Proof.
  split; [done|]. split; [reflexivity|]. split; [apply wf_boot|].
  split; [apply callable_steps0|].
  apply (global_references_are_released_once (host_ok:=quiet_host_ok)
           7 steps0 boot);
    [done|reflexivity|apply wf_boot|apply callable_steps0].
Defined.

(** ** Runs of the model *)

Example run_first_setup :
  eventHandlerSetup (host:=quiet_host) 7 100 200 NO_ERROR boot =
  Ok tt installed0
     [EvLog LOG_DEBUG FUNCTION_eventHandlerSetup; EvNew 1;
      EvNewGlobalRef 1 500; EvNewGlobalRef 2 200; EvIncStrong 1 IdSp;
      EvAddCallback 1 0; EvIncStrong 1 IdAudioSystem; EvLock;
      EvGetLongField 100 0; EvIncStrong 1 IdSetJniCallback;
      EvSetLongField 100 1; EvUnlock; EvDecStrong 1 IdSp].
Proof. vm_compute. reflexivity. Qed.

Example run_second_setup :
  eventHandlerSetup (host:=quiet_host) 7 100 201 NO_ERROR installed0 =
  Ok tt replaced0
     [EvLog LOG_DEBUG FUNCTION_eventHandlerSetup; EvNew 2;
      EvNewGlobalRef 3 500; EvNewGlobalRef 4 201; EvIncStrong 2 IdSp;
      EvAddCallback 2 0; EvIncStrong 2 IdAudioSystem; EvLock;
      EvGetLongField 100 1; EvIncStrong 1 IdSp; EvIncStrong 2 IdSetJniCallback;
      EvDecStrong 1 IdSetJniCallback; EvSetLongField 100 2; EvUnlock;
      EvDecStrong 1 IdSp; EvDecStrong 2 IdSp].
Proof. vm_compute. reflexivity. Qed.

Example run_rejected_setup :
  eventHandlerSetup (host:=quiet_host) 7 100 200 (-22) boot =
  Ok tt boot
     [EvLog LOG_DEBUG FUNCTION_eventHandlerSetup; EvNew 1;
      EvNewGlobalRef 1 500; EvNewGlobalRef 2 200; EvIncStrong 1 IdSp;
      EvAddCallback 1 (-22); EvDecStrong 1 IdSp; EvDestroy 1;
      EvDeleteGlobalRef 2; EvDeleteGlobalRef 1].
Proof. vm_compute. reflexivity. Qed.

Example run_teardown :
  eventHandlerFinalize 7 100 installed0 =
  Ok tt boot
     [EvLog LOG_DEBUG FUNCTION_eventHandlerFinalize; EvLock;
      EvGetLongField 100 1; EvIncStrong 1 IdSp;
      EvDecStrong 1 IdSetJniCallback; EvSetLongField 100 0; EvUnlock;
      EvRemoveCallback 1; EvDecStrong 1 IdAudioSystem; EvDecStrong 1 IdSp;
      EvDestroy 1; EvDeleteGlobalRef 2; EvDeleteGlobalRef 1].
Proof. vm_compute. reflexivity. Qed.

Example run_teardown_of_nothing :
  eventHandlerFinalize 7 100 boot =
  Ok tt boot
     [EvLog LOG_DEBUG FUNCTION_eventHandlerFinalize; EvLock;
      EvGetLongField 100 0; EvSetLongField 100 0; EvUnlock].
Proof. vm_compute. reflexivity. Qed.

(** The swap of a bridge with itself: the reference for the new value is
    taken before the one for the old value is dropped. *)
Example run_swap_with_itself :
  trace_of (setJniCallback 7 100 1 installed0) =
  [EvLock; EvGetLongField 100 1; EvIncStrong 1 IdSp;
   EvIncStrong 1 IdSetJniCallback; EvDecStrong 1 IdSetJniCallback;
   EvSetLongField 100 1; EvUnlock].
Proof. vm_compute. reflexivity. Qed.

Example run_event :
  onAudioVolumeGroupChanged (host:=quiet_host) 1 3 1 installed0 =
  Ok tt installed0
     [EvCallStaticVoidMethod 500 "postEventFromNative"
        [JObject 200; JInt 1000; JInt 3; JInt 1; JObject 0];
      EvExceptionCheck false].
Proof. vm_compute. reflexivity. Qed.

Example run_event_that_throws :
  onAudioVolumeGroupChanged (host:=throwing_host) 1 3 1 installed0 =
  Ok tt installed0
     [EvCallStaticVoidMethod 500 "postEventFromNative"
        [JObject 200; JInt 1000; JInt 3; JInt 1; JObject 0];
      EvExceptionCheck true;
      EvLog LOG_WARN "An exception occurred while notifying an event.";
      EvExceptionClear].
Proof. vm_compute. reflexivity. Qed.

(** When the VM finds no class for the owner, the constructor returns before
    it assigns the two members, and the destructor of the rejected bridge
    reads them all the same. *)
Example run_rejected_setup_without_class :
  eventHandlerSetup (host:=classless_host) 7 100 200 (-22) boot =
  Fault Uninitialised
     [EvLog LOG_DEBUG FUNCTION_eventHandlerSetup; EvNew 1;
      EvLog LOG_ERROR
        "Can't find class com/android/server/audio/AudioVolumeChangeHandler";
      EvIncStrong 1 IdSp; EvAddCallback 1 (-22); EvDecStrong 1 IdSp;
      EvDestroy 1].
Proof. vm_compute. reflexivity. Qed.

(** Deliveries between the native calls: bridge [2] is no longer called once
    it is torn down, the displaced bridge [1] still is. *)
Example run_steps_interleaved :
  world_of (run_steps (host:=quiet_host) 7 steps0 boot) =
    Some (mkWorld {[ 1 := mkHandler (Some 1) (Some 2) 1 ]} {[ 100 := NULL ]}
            {[ 1 := 500; 2 := 200 ]} {[ 1 ]} false 7 false
            (Some mJniCallback_id) (Some postEventFromNative_id))
  ∧ dispatched (trace_of (run_steps (host:=quiet_host) 7 steps0 boot)) =
    [(500, "postEventFromNative",
      [JObject 200; JInt 1000; JInt 3; JInt 1; JObject 0]);
     (500, "postEventFromNative",
      [JObject 200; JInt 1000; JInt 3; JInt 1; JObject 0]);
     (500, "postEventFromNative",
      [JObject 201; JInt 1000; JInt 4; JInt 0; JObject 0]);
     (500, "postEventFromNative",
      [JObject 200; JInt 1000; JInt 5; JInt 0; JObject 0])].
Proof. split; vm_compute; reflexivity. Qed.

(** When the VM finds no class for the owner and the event source accepts
    the registration, the bridge is installed with no member assigned. *)
Example run_setup_without_class :
  eventHandlerSetup (host:=classless_host) 7 100 200 NO_ERROR boot =
  Ok tt (mkWorld {[ 1 := mkHandler None None 2 ]} {[ 100 := 1 ]} ∅ {[ 1 ]}
           false 7 false
           (Some mJniCallback_id) (Some postEventFromNative_id))
     [EvLog LOG_DEBUG FUNCTION_eventHandlerSetup; EvNew 1;
      EvLog LOG_ERROR
        "Can't find class com/android/server/audio/AudioVolumeChangeHandler";
      EvIncStrong 1 IdSp; EvAddCallback 1 0; EvIncStrong 1 IdAudioSystem;
      EvLock; EvGetLongField 100 0; EvIncStrong 1 IdSetJniCallback;
      EvSetLongField 100 1; EvUnlock; EvDecStrong 1 IdSp].
Proof. vm_compute. reflexivity. Qed.
